(** * PromptExpander: the expansion core of the text expander extension

    A shallow embedding of the expansion path of [content.js] (trigger
    detection, template wrapping, text replacement, expansion history and
    undo) and of the variable resolver of [background.js], followed by the
    properties established about them.

    Conventions of the embedding.
    - A JavaScript string is a [string]: a sequence of code units, here the
      ones below 256.
    - A JavaScript object used as a dictionary ([config.snippets],
      [config.templates]) is a [gmap string _] of its own properties, read
      through [js_get], which also sees the properties every plain object
      inherits from [Object.prototype].
    - An object whose property order matters ([variables] of
      [resolveVariables]) is an association list.
    - DOM elements live in a store indexed by element ids; an expansion
      record refers to its element by id, as the source keeps a reference.
    - Code that can throw runs in a small state and exception monad. *)

From Stdlib Require Import Strings.String Strings.Ascii List Arith Lia Bool.
From Stdlib Require Import Numbers.DecimalString.
From stdpp Require Import base gmap strings.

#[local] Arguments Strings.String.append : simpl nomatch.

(** ** JavaScript strings *)

Module JsString.

Abbreviation len := Strings.String.length.

Fixpoint take (n : nat) (s : string) : string :=
  match n, s with
  | S n', String c s' => String c (take n' s')
  | _, _ => ""
  end.

Fixpoint drop (n : nat) (s : string) : string :=
  match n, s with
  | S n', String _ s' => drop n' s'
  | _, _ => s
  end.

(** [s.substring(a, b)] for integer arguments: both are clamped to the
    length and swapped when out of order. *)
Definition substring (s : string) (a b : nat) : string :=
  let a' := Nat.min a (len s) in
  let b' := Nat.min b (len s) in
  take (Nat.max a' b' - Nat.min a' b') (drop (Nat.min a' b') s).

(** [s.substring(a)]. *)
Definition substring_from (s : string) (a : nat) : string :=
  substring s a (len s).

(** [strip p s] is [Some r] when [s = p ++ r]. *)
Fixpoint strip (p s : string) : option string :=
  match p, s with
  | "", _ => Some s
  | String a p', String b s' => if Ascii.eqb a b then strip p' s' else None
  | String _ _, "" => None
  end.

Definition startsWith (s p : string) : bool :=
  match strip p s with Some _ => true | None => false end.

(** [s.includes(p)]. *)
Fixpoint includes (s p : string) : bool :=
  startsWith s p ||
  match s with
  | "" => false
  | String _ s' => includes s' p
  end.

(** The longest prefix of [s] made of characters of the class [f], and
    what follows it: a greedy [[class]*]. *)
Fixpoint span (f : ascii -> bool) (s : string) : string * string :=
  match s with
  | "" => ("", "")
  | String c s' =>
      if f c then let (run, rest) := span f s' in (String c run, rest)
      else ("", s)
  end.

Fixpoint all (f : ascii -> bool) (s : string) : bool :=
  match s with
  | "" => true
  | String c s' => f c && all f s'
  end.

Definition is_empty (s : string) : bool :=
  match s with "" => true | _ => false end.

End JsString.

(** ** Character classes of the regular expressions in the source *)

Definition in_range (lo hi : nat) (c : ascii) : bool :=
  (lo <=? nat_of_ascii c) && (nat_of_ascii c <=? hi).

(** [\d] *)
Definition is_digit (c : ascii) : bool := in_range 48 57 c.

(** [\w]: ASCII letters, digits and the underscore. *)
Definition is_word (c : ascii) : bool :=
  in_range 65 90 c || in_range 97 122 c || is_digit c || Ascii.eqb c "_".

(** [[\w\d_-]], the class of the trigger body. *)
Definition is_trigger_char (c : ascii) : bool :=
  is_word c || is_digit c || Ascii.eqb c "_" || Ascii.eqb c "-".

(** ** JavaScript values that reach the code *)

(** A number that is a text offset, or what stands in for one: an element
    that is not a text control has no [selectionStart], so the offset read
    from it is [undefined], and arithmetic on it gives [NaN]. *)
Inductive position :=
| Num (n : nat)
| NaN
| Undefined.

(** [p - n] and [p + n] for a natural number [n]; a match never extends
    before the start of the text, so the difference of two offsets is taken
    in the natural numbers. *)
Definition pos_sub (p : position) (n : nat) : position :=
  match p with Num a => Num (a - n) | _ => NaN end.

Definition pos_add (p : position) (n : nat) : position :=
  match p with Num a => Num (a + n) | _ => NaN end.

(** [a >= p], false when [p] is not a number. *)
Definition nat_ge_pos (a : nat) (p : position) : bool :=
  match p with Num n => n <=? a | _ => false end.

(** The conversion of an argument to an unsigned long (the offsets of
    [Range] and of the selection attributes): [NaN] and [undefined] give 0.
    Offsets stay far below 2^32, so the wrap-around is left out. *)
Definition to_unsigned (p : position) : nat :=
  match p with Num n => n | _ => 0 end.

(** A value of a context field or of a form field; numbers are left out. *)
Inductive jsval :=
| VUndefined
| VNull
| VBool (b : bool)
| VStr (s : string).

Definition truthy (v : jsval) : bool :=
  match v with
  | VUndefined | VNull => false
  | VBool b => b
  | VStr s => negb (JsString.is_empty s)
  end.

(** [v || ''] *)
Definition or_empty (v : jsval) : jsval :=
  if truthy v then v else VStr "".

(** [ToString], applied by [String.prototype.replace] to its second
    argument. *)
Definition to_string (v : jsval) : string :=
  match v with
  | VUndefined => "undefined"
  | VNull => "null"
  | VBool true => "true"
  | VBool false => "false"
  | VStr s => s
  end.

(** ** Plain objects used as dictionaries *)

Module JsObject.

(** The property names a plain object inherits from [Object.prototype]. *)
Definition object_prototype_keys : list string :=
  [ "constructor"; "__defineGetter__"; "__defineSetter__"; "hasOwnProperty";
    "__lookupGetter__"; "__lookupSetter__"; "isPrototypeOf";
    "propertyIsEnumerable"; "toString"; "valueOf"; "__proto__";
    "toLocaleString" ].

(** The result of [obj[key]]: an own entry, something inherited (a function
    or the prototype object itself: truthy, and without any of the fields the
    code reads from an entry), or [undefined]. *)
Inductive property (A : Type) :=
| Own (a : A)
| Inherited
| Absent.
Arguments Own {A} a.
Arguments Inherited {A}.
Arguments Absent {A}.

Definition js_get {A : Type} (obj : gmap string A) (key : string) : property A :=
  match obj !! key with
  | Some a => Own a
  | None =>
      if bool_decide (key ∈ object_prototype_keys) then Inherited else Absent
  end.

(** Truthiness of [obj[key]]; an entry is an object, hence truthy. *)
Definition is_truthy {A : Type} (p : property A) : bool :=
  match p with Own _ | Inherited => true | Absent => false end.

End JsObject.

(** ** Trigger scanner ([content.js], [handleTextInput] and [handleTriggerKey]) *)

Module Scanner.
Import JsString.

(** Modelled from the spec: [escapeRegex], which is defined in the part of
    [content.js] that is not available; the spec has the configured prefix
    matched as the literal text it is, so the escaped prefix is a pattern
    that matches exactly the string [prefix]. *)
Definition escapeRegex (prefix : string) : string := prefix.

(** One attempt of [PREFIX([\w\d_-]+)$] at the start of [s]: the literal
    prefix, then the greedy class run, which must be non-empty, then the
    end of the input. Giving characters back from the run cannot help [$],
    since the character given back is not the end of the input.
    The result is the pair of [match[0]] and [match[1]]. *)
Definition match_at (prefix s : string) : option (string * string) :=
  match strip (escapeRegex prefix) s with
  | None => None
  | Some after =>
      let (body, rest) := span is_trigger_char after in
      if negb (is_empty body) && is_empty rest
      then Some (prefix +:+ body, body)
      else None
  end.

(** [beforeCursor.match(new RegExp(...))] without the [g] flag: the
    attempts go from the leftmost start position to the right, the first
    success wins. *)
Fixpoint triggerMatch (prefix beforeCursor : string) : option (string * string) :=
  match match_at prefix beforeCursor with
  | Some m => Some m
  | None =>
      match beforeCursor with
      | "" => None
      | String _ s' => triggerMatch prefix s'
      end
  end.

(** [text.substring(0, cursorPos)]; an [undefined] end is the length of
    the text, [NaN] is 0. *)
Definition beforeCursor (text : string) (cursorPos : position) : string :=
  match cursorPos with
  | Num c => substring text 0 c
  | NaN => ""
  | Undefined => text
  end.

(** What [handleTriggerKey] derives from a match: the trigger name
    [triggerMatch[1]] and the span from
    [triggerStart = cursorPos - triggerMatch[0].length] to [cursorPos]. *)
Definition scan (prefix text : string) (cursorPos : position)
  : option (string * position * position) :=
  match triggerMatch prefix (beforeCursor text cursorPos) with
  | Some (m0, trigger) => Some (trigger, pos_sub cursorPos (len m0), cursorPos)
  | None => None
  end.

(** The contract in the words of the specification: the text before the
    cursor ends with the prefix followed by one or more trigger
    characters. *)
Definition ends_with_trigger (prefix before : string) : Prop :=
  exists pre body,
    before = pre +:+ prefix +:+ body /\
    body <> "" /\
    all is_trigger_char body = true.

(** The same contract with the cursor spelled out on the text itself: the
    text splits at the cursor, and the part before the cursor ends with the
    prefix followed by one or more trigger characters. A cursor beyond the
    end of the text counts as the end. *)
Definition trigger_before_cursor (prefix text : string) (cursorPos : nat)
  : Prop :=
  exists pre body post,
    text = pre +:+ prefix +:+ body +:+ post /\
    len pre + len prefix + len body = Nat.min cursorPos (len text) /\
    body <> "" /\
    all is_trigger_char body = true.

End Scanner.

(** ** Variable resolver ([background.js], [resolveVariables]) *)

Module Resolver.
Import JsString.

(** *** The regular expressions built from the keys

    [new RegExp(`\\{\\{${key}\\}\\}`, 'g')] splices the key into the source
    of the pattern as it is. The embedding covers the keys whose characters
    are ordinary pattern characters or the dot; a key with any other syntax
    character of the pattern language is reported as [Unmodelled]. *)

Inductive atom :=
| Lit (c : ascii)
| AnyChar.

(** The syntax characters of the pattern language. *)
Definition is_syntax_char (c : ascii) : bool :=
  bool_decide (c ∈ [ "^"; "$"; "\"; "."; "*"; "+"; "?"; "("; ")"; "[";
                     "]"; "{"; "}"; "|" ]%char).

Definition compile_char (c : ascii) : option atom :=
  if Ascii.eqb c "." then Some AnyChar
  else if is_syntax_char c then None
  else Some (Lit c).

Fixpoint compile_key (key : string) : option (list atom) :=
  match key with
  | "" => Some []
  | String c key' =>
      match compile_char c, compile_key key' with
      | Some a, Some atoms => Some (a :: atoms)
      | _, _ => None
      end
  end.

(** The pattern [\{\{KEY\}\}]. *)
Definition placeholder_pattern (key : string) : option (list atom) :=
  match compile_key key with
  | Some atoms => Some ([Lit "{"; Lit "{"] ++ atoms ++ [Lit "}"; Lit "}"])
  | None => None
  end.

(** Without the [s] flag the dot matches anything but a line terminator. *)
Definition is_line_terminator (c : ascii) : bool :=
  Ascii.eqb c "010" || Ascii.eqb c "013".

Definition atom_matches (a : atom) (c : ascii) : bool :=
  match a with
  | Lit x => Ascii.eqb x c
  | AnyChar => negb (is_line_terminator c)
  end.

(** One attempt of the pattern at the start of [s]; the matched text. Every
    atom takes exactly one character, so there is nothing to backtrack. *)
Fixpoint match_here (pat : list atom) (s : string) : option string :=
  match pat with
  | [] => Some ""
  | a :: pat' =>
      match s with
      | "" => None
      | String c s' =>
          if atom_matches a c
          then match match_here pat' s' with
               | Some m => Some (String c m)
               | None => None
               end
          else None
      end
  end.

(** *** [String.prototype.replace] with a global pattern and a string

    [GetSubstitution] for a pattern without capture groups: [$$] is a
    dollar, [$&] the matched text, [$`] the text before the match and [$']
    the text after it; [$1] and the like refer to no group and stay as they
    are, as does a dollar followed by anything else. *)
Fixpoint get_substitution (matched before after template : string) : string :=
  match template with
  | "" => ""
  | String c t =>
      if Ascii.eqb c "$" then
        match t with
        | "" => String c ""
        | String d t' =>
            if Ascii.eqb d "$" then
              String "$" (get_substitution matched before after t')
            else if Ascii.eqb d "&" then
              matched +:+ get_substitution matched before after t'
            else if Ascii.eqb d "`" then
              before +:+ get_substitution matched before after t'
            else if Ascii.eqb d "'" then
              after +:+ get_substitution matched before after t'
            else String c (get_substitution matched before after t)
        end
      else String c (get_substitution matched before after t)
  end.

(** The scan of [whole] from its offset [pos], where [s] is what is left of
    it. After a match of length [n] the next [n - 1] characters belong to
    the match and are skipped; each match is replaced by its substitution
    and everything else is copied. The patterns of this file match at least
    four characters, so a match is never empty. *)
Fixpoint replace_go (pat : list atom) (replacement whole : string)
    (pos skip : nat) (s : string) : string :=
  match s with
  | "" => ""
  | String c s' =>
      match skip with
      | S k => replace_go pat replacement whole (S pos) k s'
      | O =>
          match match_here pat s with
          | Some m =>
              get_substitution m (take pos whole)
                               (drop (pos + len m) whole) replacement
              +:+ replace_go pat replacement whole (S pos) (len m - 1) s'
          | None => String c (replace_go pat replacement whole (S pos) 0 s')
          end
      end
  end.

(** [str.replace(regex, replacement)] *)
Definition replace (pat : list atom) (replacement str : string) : string :=
  replace_go pat replacement str 0 0 str.

(** *** The table of variables *)

(** [context], as [resolveVariables] reads it; a missing field is
    [VUndefined] and a missing [formData] spreads nothing. [formData] lists
    the own properties of the object in their order. *)
Record context := {
  pageTitle : jsval;
  pageUrl : jsval;
  selectedText : jsval;
  clipboard : jsval;
  domain : jsval;
  formData : list (string * jsval)
}.

(** [context = {}], the default of the parameter. *)
Definition empty_context : context :=
  {| pageTitle := VUndefined; pageUrl := VUndefined;
     selectedText := VUndefined; clipboard := VUndefined;
     domain := VUndefined; formData := [] |}.

(** What [new Date()] prints at the call: [toLocaleDateString()],
    [toLocaleTimeString()] and [toLocaleString()]. *)
Record clock := {
  localeDate : string;
  localeTime : string;
  localeDateTime : string
}.

(** [obj[key] = v] on an object kept in creation order of its properties:
    an existing property keeps its place. *)
Fixpoint obj_set (obj : list (string * jsval)) (key : string) (v : jsval)
  : list (string * jsval) :=
  match obj with
  | [] => [(key, v)]
  | (k, w) :: rest =>
      if Strings.String.eqb k key then (k, v) :: rest
      else (k, w) :: obj_set rest key v
  end.

(** [{ ...obj, ...src }] *)
Definition spread (obj src : list (string * jsval)) : list (string * jsval) :=
  fold_left (fun acc kv => obj_set acc (fst kv) (snd kv)) src obj.

(** The value of a string of digits. *)
Fixpoint digits_value (acc : N) (s : string) : N :=
  match s with
  | "" => acc
  | String c s' =>
      digits_value (acc * 10 + N.of_nat (nat_of_ascii c - 48))%N s'
  end.

(** An array index: a canonical numeric string below 2^32 - 1. *)
Definition is_array_index (key : string) : bool :=
  match key with
  | "" => false
  | String c rest =>
      all is_digit key
      && (negb (Ascii.eqb c "0") || is_empty rest)
      && (len key <=? 10)
      && (digits_value 0 key <? 4294967295)%N
  end.

Fixpoint insert_index (kv : string * jsval) (sorted : list (string * jsval))
  : list (string * jsval) :=
  match sorted with
  | [] => [kv]
  | kv' :: rest =>
      if (digits_value 0 (fst kv) <? digits_value 0 (fst kv'))%N
      then kv :: sorted
      else kv' :: insert_index kv rest
  end.

(** The order in which [Object.keys] lists the properties: the array
    indices in ascending order, then the other names in creation order. *)
Definition own_entries (obj : list (string * jsval)) : list (string * jsval) :=
  fold_right insert_index []
             (List.filter (fun kv => is_array_index (fst kv)) obj)
  ++ List.filter (fun kv => negb (is_array_index (fst kv))) obj.

(** The names the object literal of [resolveVariables] always has. *)
Definition ambient_keys : list string :=
  [ "date"; "time"; "datetime"; "page_title"; "page_url"; "selected_text";
    "clipboard"; "domain" ].

(** The object literal of [resolveVariables]. *)
Definition variables (now : clock) (ctx : context) : list (string * jsval) :=
  spread
    [ ("date", VStr (localeDate now));
      ("time", VStr (localeTime now));
      ("datetime", VStr (localeDateTime now));
      ("page_title", or_empty (pageTitle ctx));
      ("page_url", or_empty (pageUrl ctx));
      ("selected_text", or_empty (selectedText ctx));
      ("clipboard", or_empty (clipboard ctx));
      ("domain", or_empty (domain ctx)) ]
    (formData ctx).

(** *** The substitution passes *)

(** The body of the [forEach]: one [replace] for one key; [None] when the
    key is outside the patterns covered. *)
Definition substitute (resolved : string) (kv : string * jsval)
  : option string :=
  match placeholder_pattern (fst kv) with
  | Some regex => Some (replace regex (to_string (or_empty (snd kv))) resolved)
  | None => None
  end.

(** [Object.keys(variables).forEach(...)]: one pass. *)
Fixpoint pass (entries : list (string * jsval)) (resolved : string)
  : option string :=
  match entries with
  | [] => Some resolved
  | kv :: rest =>
      match substitute resolved kv with
      | Some r => pass rest r
      | None => None
      end
  end.

Definition maxIterations : nat := 10.

(** How a run of the loop ends: with a result, by a substitution that gave
    no string, or for lack of fuel. *)
Inductive outcome (A : Type) :=
| Done (a : A)
| Unmodelled
| OutOfFuel.
Arguments Done {A} a.
Arguments Unmodelled {A}.
Arguments OutOfFuel {A}.

(** The [while] loop over a pass [step], with the number of passes it ran
    next to its result. [fuel] bounds the number of times the body may
    run. *)
Fixpoint run_passes (step : string -> option string) (fuel : nat)
    (resolved : string) (iterations passes : nat) : outcome (string * nat) :=
  if includes resolved "{{" && (iterations <? maxIterations) then
    match fuel with
    | O => OutOfFuel
    | S fuel' =>
        let previousResolved := resolved in
        match step resolved with
        | Some resolved' =>
            if Strings.String.eqb resolved' previousResolved
            then Done (resolved', S passes)
            else run_passes step fuel' resolved' (S iterations) (S passes)
        | None => Unmodelled
        end
    end
  else Done (resolved, passes).

(** The loop of [resolveVariables]. *)
Definition resolve_loop (fuel : nat) (entries : list (string * jsval))
    (resolved : string) (iterations passes : nat) : outcome (string * nat) :=
  run_passes (pass entries) fuel resolved iterations passes.

(** [resolveVariables(text, context)], and the number of passes made. *)
Definition resolveVariables_passes (fuel : nat) (now : clock) (text : string)
    (ctx : context) : outcome (string * nat) :=
  resolve_loop fuel (own_entries (variables now ctx)) text 0 0.

Definition resolveVariables (fuel : nat) (now : clock) (text : string)
    (ctx : context) : outcome string :=
  match resolveVariables_passes fuel now text ctx with
  | Done (resolved, _) => Done resolved
  | Unmodelled => Unmodelled
  | OutOfFuel => OutOfFuel
  end.

(** *** The contract in the words of the specification *)

(** [{{key}}] *)
Definition placeholder (key : string) : string :=
  "{{" +:+ key +:+ "}}".

(** The pattern that matches the text [s] and nothing else. *)
Fixpoint literal (s : string) : list atom :=
  match s with
  | "" => []
  | String c s' => Lit c :: literal s'
  end.

(** A key without syntax characters of the pattern language. *)
Definition plain_key (key : string) : Prop :=
  all (fun c => negb (is_syntax_char c)) key = true.

(** A key without braces, as the name between the braces of a placeholder
    is. *)
Definition brace_free (key : string) : Prop :=
  all (fun c => negb (Ascii.eqb c "{" || Ascii.eqb c "}")) key = true.

(** A value without the dollar that introduces a substitution. *)
Definition dollar_free (value : string) : Prop :=
  all (fun c => negb (Ascii.eqb c "$")) value = true.

(** Replacing every occurrence of [needle] by [value], from left to right:
    where the needle stands it is replaced and the scan goes on after it,
    where it does not the character is kept. *)
Inductive Replaced (needle value : string) : string -> string -> Prop :=
| Replaced_end : Replaced needle value "" ""
| Replaced_here rest out :
    Replaced needle value rest out ->
    Replaced needle value (needle +:+ rest) (value +:+ out)
| Replaced_keep c s out :
    startsWith (String c s) needle = false ->
    Replaced needle value s out ->
    Replaced needle value (String c s) (String c out).

(** The claim about the value of a known key as the specification words
    it: where the text holds the placeholder of the key, the output of the
    resolver holds the value as it is. *)
Definition value_verbatim (now : clock) (text : string) (ctx : context)
    (key : string) (v : jsval) : Prop :=
  In (key, v) (own_entries (variables now ctx)) ->
  includes text (placeholder key) = true ->
  exists out,
    resolveVariables maxIterations now text ctx = Done out /\
    includes out (to_string (or_empty v)) = true.

(** [estimateTokens]: [Math.ceil(text.length / 4)]. *)
Definition estimateTokens (text : string) : nat :=
  (len text + 3) / 4.

End Resolver.

(** ** Template wrapper ([content.js], [applyTemplateWrapping]) *)

Module Template.
Import JsString JsObject.

Record template := {
  name : string;
  pre : string;
  post : string
}.

(** [content.match(...)] with the pattern of a template reference, which
    is anchored at the start: the literal opening at the start of the input,
    the greedy run of word characters, which must be non-empty and be
    followed by the closing bracket (a shorter run would be followed by a
    word character), and with the [s] flag the dot takes all that is left,
    line breaks included. The result is the pair of [templateMatch[1]] and
    [templateMatch[2]]. *)
Definition templateMatch (content : string) : option (string * string) :=
  match strip "[template:" content with
  | None => None
  | Some after =>
      let (templateName, rest) := span is_word after in
      if is_empty templateName then None
      else match strip "]" rest with
           | Some templateContent => Some (templateName, templateContent)
           | None => None
           end
  end.

(** [applyTemplateWrapping(content, context)]; the context is not used.
    Something inherited from [Object.prototype] passes the test
    [if (template)] and has neither [pre] nor [post], which the template
    literal prints as "undefined". *)
Definition applyTemplateWrapping (templates : gmap string template)
    (content : string) : string :=
  match templateMatch content with
  | Some (templateName, templateContent) =>
      match js_get templates templateName with
      | Own template => pre template +:+ templateContent +:+ post template
      | Inherited => "undefined" +:+ templateContent +:+ "undefined"
      | Absent => content
      end
  | None => content
  end.

(** The marker in the words of the specification. *)
Definition marker (templateName rest : string) : string :=
  "[template:" +:+ templateName +:+ "]" +:+ rest.

Definition is_name (templateName : string) : Prop :=
  templateName <> "" /\ all is_word templateName = true.

End Template.

(** ** Text surfaces: the DOM as the code uses it *)

Module Dom.
Import JsString.

(** *** Text controls: [TEXTAREA] and [INPUT]

    The controls are those to which the selection attributes apply.
    [field_textContent] is the text of the child nodes, the default value of
    a [TEXTAREA] and empty for an [INPUT]. The sanitization of the value of
    a single-line control is left out. *)
Record field := {
  value : string;
  field_textContent : string;
  selectionStart : nat;
  selectionEnd : nat
}.

(** The setter of [value]: a value that differs from the old one moves the
    cursor to the end of the control. *)
Definition set_value (f : field) (v : string) : field :=
  if Strings.String.eqb v (value f)
  then f
  else {| value := v; field_textContent := field_textContent f;
          selectionStart := len v; selectionEnd := len v |}.

(** "Set the selection range" of the HTML standard: offsets beyond the
    value point at its end, and an end not after the start collapses the
    selection at the end. *)
Definition set_selection_range (f : field) (s e : nat) : field :=
  let s' := Nat.min s (len (value f)) in
  let e' := Nat.min e (len (value f)) in
  {| value := value f; field_textContent := field_textContent f;
     selectionStart := if e' <=? s' then e' else s';
     selectionEnd := e' |}.

Definition set_selectionEnd (f : field) (x : nat) : field :=
  set_selection_range f (selectionStart f) x.

Definition set_selectionStart (f : field) (x : nat) : field :=
  set_selection_range f x (Nat.max (selectionEnd f) x).

(** [element.selectionStart = element.selectionEnd = x] *)
Definition set_cursor (f : field) (x : position) : field :=
  set_selectionStart (set_selectionEnd f (to_unsigned x)) (to_unsigned x).

(** *** Editable regions: elements with [contentEditable] *)

#[warnings="-register-all"]
Inductive node :=
| Text (data : string)
| Element (children : list node).

Definition children_of (n : node) : list node :=
  match n with
  | Text _ => []
  | Element children => children
  end.

(** The text nodes below a node in document order, as a [TreeWalker] with
    [NodeFilter.SHOW_TEXT] visits them. *)
Fixpoint textNodes (n : node) : list string :=
  match n with
  | Text data => [data]
  | Element children => flat_map textNodes children
  end.

(** The selection of the document as far as it concerns the region: none,
    a range inside the text node of index [leaf], or a collapsed range at a
    child offset of the region itself. *)
Inductive selection :=
| SelNone
| SelText (leaf startOffset endOffset : nat)
| SelElement (offset : nat).

Record editable := {
  root : node;
  sel : selection
}.

(** [element.textContent] *)
Definition textContent (e : editable) : string :=
  fold_right Strings.String.append "" (textNodes (root e)).

(** The setter of [textContent], as Chromium has it: when the only child
    of the region is a text node that holds the very text assigned, and the
    text is not empty, nothing is done, so the node and the selection stay;
    otherwise the children are replaced by one text node, or by none for the
    empty string, and a range that had a boundary among the removed nodes
    ends up at the start of the region. *)
Definition set_textContent (e : editable) (s : string) : editable :=
  let replaced :=
    {| root := Element (if is_empty s then [] else [Text s]);
       sel := match sel e with SelNone => SelNone | _ => SelElement 0 end |} in
  match root e with
  | Element [Text data] =>
      if Strings.String.eqb data s && negb (is_empty s) then e else replaced
  | _ => replaced
  end.

(** The text offset of the cursor in the region, when the selection is
    there: the text before the focus. *)
Definition caret_offset (e : editable) : option nat :=
  match sel e with
  | SelNone => None
  | SelText leaf _ endOffset =>
      Some (len (fold_right Strings.String.append ""
                            (firstn leaf (textNodes (root e)))) + endOffset)
  | SelElement offset =>
      Some (len (fold_right Strings.String.append ""
                   (flat_map textNodes (firstn offset (children_of (root e))))))
  end.

(** The span of the selection in the text of the region: the offsets of
    its start and of its end, counted from the start of the region. *)
Definition selection_span (e : editable) : option (nat * nat) :=
  match sel e with
  | SelNone => None
  | SelText leaf startOffset endOffset =>
      let before :=
        len (fold_right Strings.String.append ""
                        (firstn leaf (textNodes (root e)))) in
      Some (before + startOffset, before + endOffset)
  | SelElement offset =>
      let before :=
        len (fold_right Strings.String.append ""
               (flat_map textNodes (firstn offset (children_of (root e))))) in
      Some (before, before)
  end.

(** The loop of [findTextNode] over the text nodes still to visit; the
    result is the index of the node returned, [None] for [null]. *)
Fixpoint walk (nodes : list string) (index currentPos : nat)
    (position : position) : option nat :=
  match nodes with
  | [] => None
  | data :: rest =>
      let nodeLength := len data in
      if nat_ge_pos (currentPos + nodeLength) position then Some index
      else walk rest (S index) (currentPos + nodeLength) position
  end.

(** [findTextNode(element, position)] *)
Definition findTextNode (e : editable) (position : position) : option nat :=
  walk (textNodes (root e)) 0 0 position.

(** *** Elements *)

(** The elements [shouldProcessElement] lets through: a text control or an
    editable region. *)
Inductive element :=
| Field (f : field)
| Editable (e : editable).

(** [element.value || element.textContent || ''] *)
Definition text_of (el : element) : string :=
  match el with
  | Field f => if is_empty (value f) then field_textContent f else value f
  | Editable e => textContent e
  end.

(** [element.selectionStart], which an editable region does not have. *)
Definition cursor_of (el : element) : position :=
  match el with
  | Field f => Num (selectionStart f)
  | Editable _ => Undefined
  end.

(** *** [replaceText] *)

Inductive exn :=
| TypeError
| IndexSizeError
| Rejected
| NoSuchElement.

(** [text.substring(0, startPos)]: the end argument. *)
Definition substring_to (text : string) (p : position) : string :=
  match p with
  | Num n => substring text 0 n
  | NaN => ""
  | Undefined => text
  end.

(** [text.substring(endPos)]: the start argument. *)
Definition substring_after (text : string) (p : position) : string :=
  substring_from text (to_unsigned p).

(** The branch of [replaceText] for [TEXTAREA] and [INPUT], up to the
    event. *)
Definition replaceText_field (f : field) (startPos endPos : position)
    (newText : string) : field :=
  let text := value f in
  let f1 :=
    set_value f (substring_to text startPos +:+ newText
                 +:+ substring_after text endPos) in
  set_cursor f1 (pos_add startPos (len newText)).

(** The branch of [replaceText] for editable regions, up to the editing
    command: [findTextNode], [Range.setStart] and [Range.setEnd], which
    throw when the offset exceeds the length of the node (an end before the
    start moves the start), and the selection of that range. Without a text
    node nothing is done. The offsets are used as they come, as offsets
    inside the node that was found. *)
Definition replaceText_editable (e : editable) (startPos endPos : position)
    (newText : string) : exn + editable :=
  match findTextNode e startPos with
  | Some textNode =>
      let data := nth textNode (textNodes (root e)) "" in
      let s := to_unsigned startPos in
      let t := to_unsigned endPos in
      if len data <? s then inl IndexSizeError
      else if len data <? t then inl IndexSizeError
      else
        let s' := if t <? s then t else s in
        inr {| root := root e; sel := SelText textNode s' t |}
  | None => inr e
  end.

End Dom.

(** ** Expansion controller ([content.js]) *)

Module Controller.
Import JsString JsObject Template Dom.

Record snippet := {
  content : string;
  description : string
}.

(** An entry of [expansionHistory]; [exp_element] is the reference to the
    element and [timestamp] the value of [Date.now()]. *)
Record expansion := {
  exp_element : nat;
  originalText : string;
  trigger : string;
  startPos : position;
  endPos : position;
  expandedContent : string;
  timestamp : nat
}.

(** What [getExpansionContext] reads from the document. *)
Record document := {
  title : string;
  href : string;
  hostname : string;
  selectionString : string
}.

(** The state of the content script and of the page it runs in: [config],
    the module variables, the elements, and the traces of what the script
    sent out. [excluded] holds the elements that match an excluded selector
    or have an ancestor of the exclusion class. [expansionHistory] has its
    most recent entry first. [preventedKeys] lists the targets of the key
    events on which [preventDefault] was called. *)
Record page := {
  snippets : gmap string snippet;
  templates : gmap string template;
  triggerPrefix : string;
  excluded : gset nat;
  expansionHistory : list expansion;
  isProcessing : bool;
  elements : gmap nat element;
  doc : document;
  notifications : list (string * string);
  usageMessages : list (string * string);
  inputEvents : list nat;
  formModals : list nat;
  preventedKeys : list nat
}.

Definition with_history (h : list expansion) (pg : page) : page :=
  {| snippets := snippets pg; templates := templates pg;
     triggerPrefix := triggerPrefix pg; excluded := excluded pg;
     expansionHistory := h; isProcessing := isProcessing pg;
     elements := elements pg; doc := doc pg;
     notifications := notifications pg; usageMessages := usageMessages pg;
     inputEvents := inputEvents pg; formModals := formModals pg;
     preventedKeys := preventedKeys pg |}.

Definition with_isProcessing (b : bool) (pg : page) : page :=
  {| snippets := snippets pg; templates := templates pg;
     triggerPrefix := triggerPrefix pg; excluded := excluded pg;
     expansionHistory := expansionHistory pg; isProcessing := b;
     elements := elements pg; doc := doc pg;
     notifications := notifications pg; usageMessages := usageMessages pg;
     inputEvents := inputEvents pg; formModals := formModals pg;
     preventedKeys := preventedKeys pg |}.

Definition with_elements (els : gmap nat element) (pg : page) : page :=
  {| snippets := snippets pg; templates := templates pg;
     triggerPrefix := triggerPrefix pg; excluded := excluded pg;
     expansionHistory := expansionHistory pg; isProcessing := isProcessing pg;
     elements := els; doc := doc pg;
     notifications := notifications pg; usageMessages := usageMessages pg;
     inputEvents := inputEvents pg; formModals := formModals pg;
     preventedKeys := preventedKeys pg |}.

Definition with_notifications (ns : list (string * string)) (pg : page) : page :=
  {| snippets := snippets pg; templates := templates pg;
     triggerPrefix := triggerPrefix pg; excluded := excluded pg;
     expansionHistory := expansionHistory pg; isProcessing := isProcessing pg;
     elements := elements pg; doc := doc pg;
     notifications := ns; usageMessages := usageMessages pg;
     inputEvents := inputEvents pg; formModals := formModals pg;
     preventedKeys := preventedKeys pg |}.

Definition with_usageMessages (ms : list (string * string)) (pg : page) : page :=
  {| snippets := snippets pg; templates := templates pg;
     triggerPrefix := triggerPrefix pg; excluded := excluded pg;
     expansionHistory := expansionHistory pg; isProcessing := isProcessing pg;
     elements := elements pg; doc := doc pg;
     notifications := notifications pg; usageMessages := ms;
     inputEvents := inputEvents pg; formModals := formModals pg;
     preventedKeys := preventedKeys pg |}.

Definition with_inputEvents (evs : list nat) (pg : page) : page :=
  {| snippets := snippets pg; templates := templates pg;
     triggerPrefix := triggerPrefix pg; excluded := excluded pg;
     expansionHistory := expansionHistory pg; isProcessing := isProcessing pg;
     elements := elements pg; doc := doc pg;
     notifications := notifications pg; usageMessages := usageMessages pg;
     inputEvents := evs; formModals := formModals pg;
     preventedKeys := preventedKeys pg |}.

Definition with_formModals (ms : list nat) (pg : page) : page :=
  {| snippets := snippets pg; templates := templates pg;
     triggerPrefix := triggerPrefix pg; excluded := excluded pg;
     expansionHistory := expansionHistory pg; isProcessing := isProcessing pg;
     elements := elements pg; doc := doc pg;
     notifications := notifications pg; usageMessages := usageMessages pg;
     inputEvents := inputEvents pg; formModals := ms;
     preventedKeys := preventedKeys pg |}.

Definition with_preventedKeys (ks : list nat) (pg : page) : page :=
  {| snippets := snippets pg; templates := templates pg;
     triggerPrefix := triggerPrefix pg; excluded := excluded pg;
     expansionHistory := expansionHistory pg; isProcessing := isProcessing pg;
     elements := elements pg; doc := doc pg;
     notifications := notifications pg; usageMessages := usageMessages pg;
     inputEvents := inputEvents pg; formModals := formModals pg;
     preventedKeys := ks |}.

(** The decimal digits of a number, as a template literal prints it. *)
Definition decimal (n : nat) : string :=
  DecimalString.NilZero.string_of_uint (Nat.to_uint n).

(** *** The monad of the script: state, and exceptions that keep the state

    A run ends with a value, by an exception, or at a step of the browser
    that is left open ([Beyond]); the state is then the one in which that
    step is reached. *)

Inductive result (A : Type) :=
| Ok (a : A)
| Throw (e : exn)
| Beyond.
Arguments Ok {A} a.
Arguments Throw {A} e.
Arguments Beyond {A}.

Definition M (A : Type) : Type := page -> result A * page.

Definition ret {A : Type} (a : A) : M A := fun pg => (Ok a, pg).

Definition bind {A B : Type} (m : M A) (k : A -> M B) : M B :=
  fun pg =>
    match m pg with
    | (Ok a, pg') => k a pg'
    | (Throw e, pg') => (Throw e, pg')
    | (Beyond, pg') => (Beyond, pg')
    end.

Definition throw {A : Type} (e : exn) : M A := fun pg => (Throw e, pg).

Definition gets {A : Type} (f : page -> A) : M A := fun pg => (Ok (f pg), pg).

Definition modify (f : page -> page) : M unit := fun pg => (Ok tt, f pg).

#[global] Instance M_ret : MRet M := @ret.
#[global] Instance M_bind : MBind M := fun A B k m => bind m k.

(** A call of an [async] function that is not awaited: what it throws
    rejects its promise and does not reach the caller. *)
Definition detached {A : Type} (m : M A) : M unit :=
  fun pg => (Ok tt, snd (m pg)).

(** The element behind a reference. *)
Definition get_element (id : nat) : M element :=
  fun pg =>
    match elements pg !! id with
    | Some el => (Ok el, pg)
    | None => (Throw NoSuchElement, pg)
    end.

Definition put_element (id : nat) (el : element) : M unit :=
  modify (fun pg => with_elements (<[id := el]> (elements pg)) pg).

(** Modelled from the spec: [showNotification], which is defined in the
    part of [content.js] that is not available; the spec has it as the
    advisory channel to the user, so it records the message and its kind
    and touches no text surface. *)
Definition showNotification (message kind : string) : M unit :=
  modify (fun pg => with_notifications (notifications pg ++ [(message, kind)]) pg).

(** [showFormModal]: the modal is built outside the text surfaces; the
    model records for which element it was opened. *)
Definition showFormModal (id : nat) : M unit :=
  modify (fun pg => with_formModals (formModals pg ++ [id]) pg).

(** [chrome.runtime.sendMessage({type: 'TRACK_USAGE', ...})], not awaited. *)
Definition trackUsage (snippetKey domainName : string) : M unit :=
  modify (fun pg => with_usageMessages (usageMessages pg ++ [(snippetKey, domainName)]) pg).

(** [element.dispatchEvent(new Event('input', { bubbles: true }))]; the
    listeners of the page are outside the model. *)
Definition dispatchInput (id : nat) : M unit :=
  modify (fun pg => with_inputEvents (inputEvents pg ++ [id]) pg).

(** [shouldProcessElement], for an element of the two editable kinds. *)
Definition shouldProcessElement (id : nat) (pg : page) : bool :=
  negb (isProcessing pg) && negb (bool_decide (id ∈ excluded pg)).

(** [document.execCommand('insertText', false, newText)] on the selection
    of the region: the editing command of the browser, with its handling of
    white space, of line breaks and of blocks, is left open. *)
Definition execCommand_insertText (id : nat) (newText : string) : M unit :=
  fun pg => (Beyond, pg).

(** [replaceText(element, startPos, endPos, newText)] *)
Definition replaceText (id : nat) (startPos endPos : position)
    (newText : string) : M unit :=
  el ← get_element id;
  match el with
  | Field f =>
      put_element id (Field (replaceText_field f startPos endPos newText));;
      dispatchInput id
  | Editable e =>
      match replaceText_editable e startPos endPos newText with
      | inr e' =>
          put_element id (Editable e');;
          match findTextNode e startPos with
          | Some _ => execCommand_insertText id newText
          | None => ret tt
          end
      | inl err => throw err
      end
  end.

(** [getExpansionContext(element)]; [clipboardText] is what
    [navigator.clipboard.readText()] resolved to, [None] when it failed. *)
Definition getExpansionContext (clipboardText : option string) (pg : page)
  : Resolver.context :=
  {| Resolver.pageTitle := VStr (title (doc pg));
     Resolver.pageUrl := VStr (href (doc pg));
     Resolver.domain := VStr (hostname (doc pg));
     Resolver.selectedText := VStr (selectionString (doc pg));
     Resolver.formData := [];
     Resolver.clipboard :=
       match clipboardText with
       | Some text => VStr text
       | None => VStr ""
       end |}.

(** The response to a [RESOLVE_VARIABLES] message. *)
Record response := {
  resolved : string;
  tokens : nat
}.

(** How the awaited [chrome.runtime.sendMessage] ends: it resolves to a
    response, [None] standing for a falsy one, or it rejects. *)
Inductive reply :=
| Resolves (r : option response)
| Rejects.

(** The message [expandSnippet] sends: [text] is [snippet.content], which
    is [undefined] when the snippet is something inherited. *)
Record request := {
  req_text : option string;
  req_context : Resolver.context
}.

(** [expandSnippet] up to its first [await]: the part that runs inside the
    call. *)
Definition expandSnippet_begin (triggerName : string) : M (option string) :=
  modify (with_isProcessing true);;
  snippet ← gets (fun pg => js_get (snippets pg) triggerName);
  match snippet with
  | Own s => ret (Some (content s))
  | Inherited => ret None
  | Absent => throw TypeError
  end.

(** [expandSnippet] after the context is there: the awaited message and
    what follows it. [now] is the value of [Date.now()]. *)
Definition expandSnippet_resume (id : nat) (triggerName : string)
    (startPos endPos : position) (answer : reply) (now : nat) : M unit :=
  match answer with
  | Rejects => throw Rejected
  | Resolves None => modify (with_isProcessing false)
  | Resolves (Some response) =>
      tpls ← gets templates;
      let wrapped := applyTemplateWrapping tpls (resolved response) in
      el ← get_element id;
      let original := text_of el in
      modify (fun pg =>
        with_history
          ({| exp_element := id; originalText := original;
              trigger := triggerName; startPos := startPos; endPos := endPos;
              expandedContent := wrapped; timestamp := now |}
           :: expansionHistory pg) pg);;
      replaceText id startPos endPos wrapped;;
      host ← gets (fun pg => hostname (doc pg));
      trackUsage triggerName host;;
      (if 100 <? tokens response
       then showNotification
              ("Expanded to ~" +:+ decimal (tokens response) +:+ " tokens")
              "info"
       else ret tt);;
      modify (with_isProcessing false)
  end.

(** [expandSnippet(element, trigger, startPos, endPos)], run from its call
    to its end with the outcomes of what it awaits. *)
Definition expandSnippet (id : nat) (triggerName : string)
    (startPos endPos : position) (answer : reply) (now : nat) : M unit :=
  expandSnippet_begin triggerName;;
  expandSnippet_resume id triggerName startPos endPos answer now.

(** What a call of [handleTriggerKey] leaves for later: the expansion that
    waits for its context and its response. *)
Record pending := {
  pend_element : nat;
  pend_trigger : string;
  pend_start : position;
  pend_end : position
}.

(** [e.preventDefault()] on a key event whose target is the element. *)
Definition preventDefault (id : nat) : M unit :=
  modify (fun pg => with_preventedKeys (preventedKeys pg ++ [id]) pg).

(** [handleTriggerKey(e)] for an event whose target is the element [id];
    the result is the expansion it started, if any. *)
Definition handleTriggerKey (id : nat) : M (option pending) :=
  element ← get_element id;
  prefix ← gets triggerPrefix;
  match Scanner.scan prefix (text_of element) (cursor_of element) with
  | Some (triggerName, triggerStart, cursorPos) =>
      preventDefault id;;
      if Strings.String.eqb triggerName "form" then
        replaceText id triggerStart cursorPos "";;
        showFormModal id;;
        ret None
      else
        snippet ← gets (fun pg => js_get (snippets pg) triggerName);
        if is_truthy snippet then
          detached (expandSnippet_begin triggerName);;
          ret (Some {| pend_element := id;
                       pend_trigger := triggerName;
                       pend_start := triggerStart;
                       pend_end := cursorPos |})
        else ret None
  | None => ret None
  end.

(** The [keydown] listener of [setupTextExpansion], for a key that can
    commit a trigger: space, [Tab] or [Enter]. *)
Definition onCommitKey (id : nat) : M (option pending) :=
  bind (gets (shouldProcessElement id)) (fun ok : bool =>
    if ok then handleTriggerKey id else ret None).

(** [undoLastExpansion()] *)
Definition undoLastExpansion : M unit :=
  history ← gets expansionHistory;
  match history with
  | [] => showNotification "No expansions to undo" "info"
  | lastExpansion :: rest =>
      modify (with_history rest);;
      element ← get_element (exp_element lastExpansion);
      match element with
      | Field f =>
          put_element (exp_element lastExpansion)
            (Field (set_cursor (set_value f (originalText lastExpansion))
                               (endPos lastExpansion)))
      | Editable e =>
          put_element (exp_element lastExpansion)
            (Editable (set_textContent e (originalText lastExpansion)))
      end;;
      showNotification ("Undid expansion of :" +:+ trigger lastExpansion)
                       "success"
  end.

End Controller.

(** ** Concrete inputs used below *)

Module Examples.
Import Resolver Template Dom Controller.

Definition clock0 : clock :=
  {| localeDate := "11/2/2026"; localeTime := "10:15:00 AM";
     localeDateTime := "11/2/2026, 10:15:00 AM" |}.

(** The clipboard holds a placeholder of another variable. *)
Definition ctx_clipboard_placeholder : context :=
  {| pageTitle := VStr "Docs"; pageUrl := VStr "https://example.com/docs";
     selectedText := VStr ""; clipboard := VStr "{{domain}}";
     domain := VStr "example.com"; formData := [] |}.

(** The clipboard holds two dollars. *)
Definition ctx_clipboard_dollars : context :=
  {| pageTitle := VStr "Docs"; pageUrl := VStr "https://example.com/docs";
     selectedText := VStr ""; clipboard := VStr "$$5";
     domain := VStr "example.com"; formData := [] |}.

(** A form field whose name holds a dot. *)
Definition ctx_dotted_field : context :=
  {| pageTitle := VStr "Docs"; pageUrl := VStr "https://example.com/docs";
     selectedText := VStr ""; clipboard := VStr "";
     domain := VStr "example.com"; formData := [("a.c", VStr "X")] |}.

Definition doc0 : document :=
  {| title := "Docs"; href := "https://example.com/docs";
     hostname := "example.com"; selectionString := "" |}.

Definition snippets0 : gmap string snippet :=
  <["hello" := {| content := "Hi {{domain}}!"; description := "greeting" |}]>
  (<["sn" := {| content := "X"; description := "short" |}]> ∅).

Definition templates0 : gmap string template :=
  <["cot" := {| name := "Chain of Thought"; pre := "Think step-by-step:";
                post := "Final answer." |}]> ∅.

Definition page_with (els : gmap nat element) : page :=
  {| snippets := snippets0; templates := templates0; triggerPrefix := ":";
     excluded := ∅; expansionHistory := []; isProcessing := false;
     elements := els; doc := doc0; notifications := [];
     usageMessages := []; inputEvents := []; formModals := [];
     preventedKeys := [] |}.

(** A text area where [say :nope] was typed, the cursor at the end. *)
Definition page_unknown_trigger : page :=
  page_with (<[1 := Field {| value := "say :nope"; field_textContent := "";
                             selectionStart := 9; selectionEnd := 9 |}]> ∅).

(** A text area where [say :hello] was typed, the cursor at the end. *)
Definition page_textarea : page :=
  page_with (<[1 := Field {| value := "say :hello"; field_textContent := "";
                             selectionStart := 10; selectionEnd := 10 |}]> ∅).

(** An editable region with the single text node [hello :sn], the cursor at
    its end. *)
Definition page_editable : page :=
  page_with (<[2 := Editable {| root := Element [Text "hello :sn"];
                                sel := SelText 0 9 9 |}]> ∅).

(** An editable region whose text is spread over two text nodes. *)
Definition page_two_nodes : page :=
  page_with (<[3 := Editable {| root := Element [Text "hello ";
                                                 Element [Text ":sn"]];
                                sel := SelText 1 3 3 |}]> ∅).

Definition response_X : response := {| resolved := "X"; tokens := 1 |}.

End Examples.

(** ** The rest of the content script: the input listener and the undo key *)

Module Listeners.
Import JsString JsObject Dom Controller.

(** [handleTextInput(element)], the body of the debounced [input] listener.
    The result is the element assigned to [currentElement], if any. *)
Definition handleTextInput (id : nat) : M (option nat) :=
  element ← get_element id;
  prefix ← gets triggerPrefix;
  match Scanner.triggerMatch prefix
          (Scanner.beforeCursor (text_of element) (cursor_of element)) with
  | Some (_, triggerName) =>
      if Strings.String.eqb triggerName "form" then
        showFormModal id;;
        ret None
      else
        snippet ← gets (fun pg => js_get (snippets pg) triggerName);
        if is_truthy snippet then ret (Some id) else ret None
  | None => ret None
  end.

(** The [keydown] listener of [setupKeyboardShortcuts], for the key [z]
    with the control key and neither shift nor alt. *)
Definition onUndoKey (id : nat) : M unit :=
  bind (gets (shouldProcessElement id)) (fun ok : bool =>
    if ok then undoLastExpansion;; preventDefault id else ret tt).

End Listeners.

(** ** The rest of the background script *)

Module Background.
Import JsString JsObject Resolver.

(** The answer of the message listener to [RESOLVE_VARIABLES]:
    [{ resolved, tokens: estimateTokens(resolved) }]. *)
Definition respond (fuel : nat) (now : clock) (text : string) (ctx : context)
  : outcome Controller.response :=
  match resolveVariables fuel now text ctx with
  | Done resolved =>
      Done {| Controller.resolved := resolved;
              Controller.tokens := estimateTokens resolved |}
  | Unmodelled => Unmodelled
  | OutOfFuel => OutOfFuel
  end.

(** An entry of [usage[day]] as it is stored: after [Array.from] the
    domains are an array. *)
Record usage_entry := {
  count : nat;
  domains : list string
}.

(** What [chrome.storage.sync.get(['usage', 'analyticsEnabled'])] gives:
    whether [analyticsEnabled] is truthy, and [usage], [None] when it is
    missing. *)
Record storage := {
  analyticsEnabled : bool;
  usage : option (gmap string (gmap string usage_entry))
}.

(** The value of [domains] while the callback runs: the [Set] of a new
    entry, or the array of an entry that came from the storage. *)
Inductive domain_list :=
| AsSet (members : list string)
| AsArray (items : list string).

(** An entry of [usage[today]] while the callback runs. *)
Record live_entry := {
  live_count : nat;
  live_domains : domain_list
}.

(** An entry as the storage gave it. *)
Definition load (entry : usage_entry) : live_entry :=
  {| live_count := count entry; live_domains := AsArray (domains entry) |}.

(** [{ count: 0, domains: new Set() }] *)
Definition new_entry : live_entry :=
  {| live_count := 0; live_domains := AsSet [] |}.

(** [entry.count++] *)
Definition increment (entry : live_entry) : live_entry :=
  {| live_count := S (live_count entry); live_domains := live_domains entry |}.

(** [domains.add(domain)]: a set takes the domain unless it has it; an
    array has no [add], so the call is a type error. *)
Definition add (domain : string) (d : domain_list) : Dom.exn + domain_list :=
  match d with
  | AsSet members =>
      inr (AsSet (if bool_decide (domain ∈ members) then members
                  else members ++ [domain]))
  | AsArray _ => inl Dom.TypeError
  end.

(** [Array.from(domains)] *)
Definition array_from (d : domain_list) : list string :=
  match d with
  | AsSet members => members
  | AsArray items => items
  end.

(** [trackUsage(snippetKey, domain)] with the storage it reads; the result
    is the storage after the callback, or what the callback throws, in
    which case [chrome.storage.sync.set] is not reached. [today] is the text
    [new Date().toDateString()] gives, which holds spaces and so is none of
    the names an object inherits. Something inherited under the name of the
    snippet is truthy and has no [domains], so [add] is called on
    [undefined]. *)
Definition trackUsage (snippetKey domain today : string) (st : storage)
  : Dom.exn + storage :=
  if negb (analyticsEnabled st) then inr st
  else
    let usage0 := match usage st with Some u => u | None => ∅ end in
    let day := match usage0 !! today with Some d => d | None => ∅ end in
    match js_get day snippetKey with
    | Inherited => inl Dom.TypeError
    | found =>
        let entry :=
          match found with Own stored => load stored | _ => new_entry end in
        let counted := increment entry in
        match add domain (live_domains counted) with
        | inl err => inl err
        | inr members =>
            inr {| analyticsEnabled := analyticsEnabled st;
                   usage :=
                     Some (<[today :=
                               <[snippetKey :=
                                   {| count := live_count counted;
                                      domains := array_from members |}]> day]>
                             usage0) |}
        end
    end.

(** The entry the storage holds for a snippet on a day. *)
Definition stored (st : storage) (today snippetKey : string)
  : option usage_entry :=
  match usage st with
  | Some u =>
      match u !! today with
      | Some day => day !! snippetKey
      | None => None
      end
  | None => None
  end.

(** A run of tracked expansions, each with its snippet, its domain and its
    day; a callback that throws leaves the storage as it was. *)
Fixpoint trackAll (events : list (string * string * string)) (st : storage)
  : storage :=
  match events with
  | [] => st
  | (snippetKey, domain, today) :: rest =>
      match trackUsage snippetKey domain today st with
      | inr st' => trackAll rest st'
      | inl _ => trackAll rest st
      end
  end.

(** Every stored entry has the count 1 and a single domain. *)
Definition counted_once (st : storage) : Prop :=
  forall u day today snippetKey entry,
    usage st = Some u ->
    u !! today = Some day ->
    day !! snippetKey = Some entry ->
    count entry = 1 /\ List.length (domains entry) = 1.

End Background.

(** ** The table of variables, read as a dictionary *)

Module Table.
Import Resolver.

(** The first entry of a key. *)
Fixpoint lookup_key (key : string) (obj : list (string * jsval))
  : option jsval :=
  match obj with
  | [] => None
  | (k, v) :: rest =>
      if Strings.String.eqb k key then Some v else lookup_key key rest
  end.

(** The entries of the object literal before the form data are spread. *)
Definition ambient (now : clock) (ctx : context) : list (string * jsval) :=
  [ ("date", VStr (localeDate now));
    ("time", VStr (localeTime now));
    ("datetime", VStr (localeDateTime now));
    ("page_title", or_empty (pageTitle ctx));
    ("page_url", or_empty (pageUrl ctx));
    ("selected_text", or_empty (selectedText ctx));
    ("clipboard", or_empty (clipboard ctx));
    ("domain", or_empty (domain ctx)) ].

End Table.

(** ** More concrete inputs *)

Module Scenarios.
Import Resolver Template Dom Controller Examples.

(** A text area where [note :form] was typed, the cursor at the end. *)
Definition page_form_trigger : page :=
  page_with (<[1 := Field {| value := "note :form"; field_textContent := "";
                             selectionStart := 10; selectionEnd := 10 |}]> ∅).

(** A text area where [say :hello ] was typed, the cursor before the last
    space. *)
Definition page_hello_space : page :=
  page_with (<[1 := Field {| value := "say :hello "; field_textContent := "";
                             selectionStart := 10; selectionEnd := 10 |}]> ∅).

(** Two text areas after an expansion in the second one. *)
Definition page_after_expansion : page :=
  with_history
    [ {| exp_element := 2; originalText := "say :hello"; trigger := "hello";
         startPos := Num 4; endPos := Num 10;
         expandedContent := "Hi example.com!"; timestamp := 7 |} ]
    (page_with
       (<[1 := Field {| value := "other"; field_textContent := "";
                        selectionStart := 5; selectionEnd := 5 |}]>
        (<[2 := Field {| value := "say Hi example.com!";
                         field_textContent := "";
                         selectionStart := 19; selectionEnd := 19 |}]> ∅))).

(** A form field that shadows the ambient domain. *)
Definition ctx_shadowed_domain : context :=
  {| pageTitle := VStr "Docs"; pageUrl := VStr "https://example.com/docs";
     selectedText := VStr ""; clipboard := VStr "";
     domain := VStr "example.com";
     formData := [("domain", VStr "corp.test"); ("name", VStr "Ada")] |}.

(** A context of a page whose clipboard holds the given text. *)
Definition ctx_with_clipboard (title url selected host : jsval)
    (text : string) : context :=
  {| pageTitle := title; pageUrl := url; selectedText := selected;
     clipboard := VStr text; domain := host; formData := [] |}.

Definition storage_empty : Background.storage :=
  {| Background.analyticsEnabled := true; Background.usage := None |}.

End Scenarios.

(** ** Snippets as chunks and placeholders *)

Module Snippet.
Import JsString Resolver Table.

(** A piece of the content of a snippet: text, or the placeholder of a
    key. *)
Inductive segment :=
| Chunk (s : string)
| Hole (key : string).

(** The content as it is written. *)
Fixpoint render (segments : list segment) : string :=
  match segments with
  | [] => ""
  | Chunk s :: rest => s +:+ render rest
  | Hole key :: rest => placeholder key +:+ render rest
  end.

(** The content with every placeholder of a key of the table replaced by
    the value of the key, read as [replace] reads it; the other
    placeholders stay. *)
Fixpoint fill (table : list (string * jsval)) (segments : list segment)
  : string :=
  match segments with
  | [] => ""
  | Chunk s :: rest => s +:+ fill table rest
  | Hole key :: rest =>
      match lookup_key key table with
      | Some v => to_string (or_empty v)
      | None => placeholder key
      end +:+ fill table rest
  end.

(** What one [replace] for a key makes of a segment. *)
Definition fill_hole (key value : string) (seg : segment) : segment :=
  match seg with
  | Chunk s => Chunk s
  | Hole k => if Strings.String.eqb key k then Chunk value else Hole k
  end.

(** What a pass makes of the segments. *)
Definition fill_all (table : list (string * jsval)) (segments : list segment)
  : list segment :=
  fold_left
    (fun segs kv => map (fill_hole (fst kv) (to_string (or_empty (snd kv)))) segs)
    table segments.

(** No brace in a chunk nor in the name of a placeholder. *)
Definition well_formed (segments : list segment) : Prop :=
  Forall (fun seg => match seg with
                     | Chunk s => brace_free s
                     | Hole key => brace_free key
                     end) segments.

(** Keys without syntax characters of the pattern language, values without
    braces and without dollars. *)
Definition plain_table (table : list (string * jsval)) : Prop :=
  Forall (fun kv => plain_key (fst kv) /\
                    brace_free (to_string (or_empty (snd kv))) /\
                    dollar_free (to_string (or_empty (snd kv)))) table.

(** No placeholder of a key of the table is left. *)
Definition settled (table : list (string * jsval)) (segments : list segment)
  : Prop :=
  Forall (fun seg => match seg with
                     | Chunk _ => True
                     | Hole key => lookup_key key table = None
                     end) segments.


End Snippet.

(** ** The form builder: the handler of the button [Generate] *)

Module FormBuilder.
Import JsString Resolver.

(** White space as [\s] and [trim] take it, among the code units below
    256: the tabulators and line ends from 9 to 13, the space and the
    no-break space. *)
Definition is_space (c : ascii) : bool :=
  in_range 9 13 c || in_range 32 32 c || in_range 160 160 c.

Fixpoint trimStart (s : string) : string :=
  match s with
  | "" => ""
  | String c s' => if is_space c then trimStart s' else s
  end.

Fixpoint trimEnd (s : string) : string :=
  match s with
  | "" => ""
  | String c s' =>
      let rest := trimEnd s' in
      if is_empty rest && is_space c then "" else String c rest
  end.

(** [s.trim()] *)
Definition trim (s : string) : string := trimEnd (trimStart s).

(** The lower case of a code unit below 256: the letters from A to Z and
    the capital letters of the upper half, which the sign of multiplication
    at 215 is not one of. *)
Definition lower (c : ascii) : ascii :=
  if in_range 65 90 c
     || (in_range 192 222 c && negb (in_range 215 215 c))
  then ascii_of_nat (nat_of_ascii c + 32)
  else c.

(** [s.toLowerCase()] *)
Fixpoint toLowerCase (s : string) : string :=
  match s with
  | "" => ""
  | String c s' => String (lower c) (toLowerCase s')
  end.

(** [s.replace(/\s+/g, '_')]: every run of white space gives one
    underscore; [in_run] says that the character before was white space. *)
Fixpoint replace_spaces (in_run : bool) (s : string) : string :=
  match s with
  | "" => ""
  | String c s' =>
      if is_space c
      then if in_run then replace_spaces true s'
           else String "_" (replace_spaces true s')
      else String c (replace_spaces false s')
  end.

(** [s.replace(/_/g, ' ')] *)
Fixpoint replace_underscores (s : string) : string :=
  match s with
  | "" => ""
  | String c s' =>
      String (if Ascii.eqb c "_" then " "%char else c) (replace_underscores s')
  end.

(** The types the select [fieldType] offers. *)
Inductive field_type :=
| TextInput
| TextArea
| Select
| CheckBox
| DatePicker.

(** An entry of [formFields]; [required] is always true. *)
Record form_field := {
  field_id : nat;
  field_type_of : field_type;
  field_label : string
}.

(** The element [modal.querySelector] finds for a field, with what the
    handler reads from it: a control with a text (a text input, a text area
    or a date input), a check box, whose [value] is "on", or the select
    that [renderFormPreview] builds, whose only option has the value "". *)
Inductive control :=
| TextBox (value : string)
| Tick (checked : bool)
| EmptySelect.

Definition control_value (c : control) : string :=
  match c with
  | TextBox value => value
  | Tick _ => "on"
  | EmptySelect => ""
  end.

Definition control_checked (c : control) : bool :=
  match c with
  | Tick checked => checked
  | _ => false
  end.

(** The value collected for a field. *)
Definition field_value (field : form_field) (element : control) : string :=
  match field_type_of field with
  | CheckBox => if control_checked element then "yes" else "no"
  | _ => trim (control_value element)
  end.

(** The key of a field in [formData]. *)
Definition form_key (label : string) : string :=
  replace_spaces false (toLowerCase label).

(** [formData[key] = value] for a text: the name [__proto__] is the
    accessor of the prototype, which ignores a text. *)
Definition form_set (formData : list (string * jsval)) (key value : string)
  : list (string * jsval) :=
  if Strings.String.eqb key "__proto__" then formData
  else obj_set formData key (VStr value).

(** The [forEach] over the fields: the data, [isValid], and for every
    field whether its element got the class [error]. An element that is not
    found ends the handler by a type error. *)
Fixpoint collect (fields : list (form_field * option control))
    (formData : list (string * jsval)) (isValid : bool) (marks : list bool)
  : option (list (string * jsval) * bool * list bool) :=
  match fields with
  | [] => Some (formData, isValid, marks)
  | (_, None) :: _ => None
  | (field, Some element) :: rest =>
      let value := field_value field element in
      collect rest
              (form_set formData (form_key (field_label field)) value)
              (isValid && negb (is_empty value))
              (marks ++ [is_empty value])
  end.

(** A line of the output. *)
Definition line (kv : string * jsval) : string :=
  replace_underscores (fst kv) +:+ ": " +:+ to_string (snd kv)
  +:+ String "010" "".

(** How the handler ends: with the notification that no field was added,
    with the notification that a required field is empty, with the text it
    hands to [insertTextAtCursor], or by a type error. *)
Inductive verdict :=
| NoFields
| Invalid (marks : list bool)
| Inserted (output : string)
| Failed.

(** The handler of [Generate]; every field comes with the element found
    for it. *)
Definition generate (fields : list (form_field * option control)) : verdict :=
  match fields with
  | [] => NoFields
  | _ =>
      match collect fields [] true [] with
      | None => Failed
      | Some (formData, isValid, marks) =>
          if isValid
          then Inserted
                 (fold_left (fun output kv => output +:+ line kv)
                            (own_entries formData) "")
          else Invalid marks
      end
  end.

(** What the handler collects for a field whose element is there. *)
Definition collected (p : form_field * option control) : option string :=
  match snd p with
  | Some element => Some (field_value (fst p) element)
  | None => None
  end.

(** The line a field stands for. *)
Definition line_of (p : form_field * option control) : string :=
  match collected p with
  | Some value => line (form_key (field_label (fst p)), VStr value)
  | None => ""
  end.

Definition first_name : form_field :=
  {| field_id := 1; field_type_of := TextInput; field_label := "First Name" |}.


Definition country : form_field :=
  {| field_id := 3; field_type_of := Select; field_label := "Country" |}.

Definition first_name_again : form_field :=
  {| field_id := 4; field_type_of := TextInput; field_label := "first  name" |}.

End FormBuilder.

(** * Properties *)

(** ** Strings *)

Module StringFacts.
Import JsString.

Lemma append_empty_r (s : string) : s +:+ "" = s.
Proof. induction s as [|c s IH]; simpl; [reflexivity | now rewrite IH]. Qed.

Lemma append_assoc (a b c : string) : (a +:+ b) +:+ c = a +:+ b +:+ c.
Proof. induction a as [|x a IH]; simpl; [reflexivity | now rewrite IH]. Qed.

Lemma len_append (a b : string) : len (a +:+ b) = len a + len b.
Proof. induction a as [|x a IH]; simpl; [reflexivity | now rewrite IH]. Qed.

Lemma is_empty_true (s : string) : is_empty s = true <-> s = "".
Proof. destruct s; simpl; split; congruence. Qed.

Lemma is_empty_false (s : string) : is_empty s = false <-> s <> "".
Proof. destruct s; simpl; split; congruence. Qed.

Lemma strip_append (p r : string) : strip p (p +:+ r) = Some r.
Proof.
  induction p as [|a p IH]; simpl.
  - now destruct r.
  - now rewrite Ascii.eqb_refl.
Qed.

Lemma strip_Some (p s r : string) : strip p s = Some r -> s = p +:+ r.
Proof.
  revert s; induction p as [|a p IH]; intros s H.
  - destruct s; simpl in H; now inversion H.
  - destruct s as [|b s]; simpl in H; [discriminate|].
    destruct (Ascii.eqb a b) eqn:E; [|discriminate].
    apply Ascii.eqb_eq in E; subst b. simpl. f_equal. now apply IH.
Qed.

Lemma startsWith_append (p r : string) : startsWith (p +:+ r) p = true.
Proof. unfold startsWith. now rewrite strip_append. Qed.

Lemma startsWith_true (s p : string) :
  startsWith s p = true -> exists r, s = p +:+ r.
Proof.
  unfold startsWith. destruct (strip p s) as [r|] eqn:E; [|discriminate].
  intros _. exists r. now apply strip_Some.
Qed.

Lemma all_append (f : ascii -> bool) (a b : string) :
  all f (a +:+ b) = all f a && all f b.
Proof.
  induction a as [|x a IH]; simpl; [reflexivity|].
  rewrite IH. now rewrite andb_assoc.
Qed.

(** The greedy run is a prefix made of the class, and it stops at the end
    or before a character outside the class. *)
Lemma span_decompose (f : ascii -> bool) (s run rest : string) :
  span f s = (run, rest) ->
  s = run +:+ rest /\ all f run = true /\
  match rest with "" => True | String c _ => f c = false end.
Proof.
  revert run rest; induction s as [|c s IH]; intros run rest H; simpl in H.
  - inversion H; subst. now simpl.
  - destruct (f c) eqn:Fc.
    + destruct (span f s) as [run' rest'] eqn:E. inversion H; subst.
      destruct (IH run' rest eq_refl) as (-> & Hall & Hrest).
      simpl. rewrite Fc, Hall. now auto.
    + inversion H; subst. simpl. now auto.
Qed.

(** A run of the class followed by the end or by a character outside it is
    what the greedy scan takes. *)
Lemma span_run (f : ascii -> bool) (run rest : string) :
  all f run = true ->
  match rest with "" => True | String c _ => f c = false end ->
  span f (run +:+ rest) = (run, rest).
Proof.
  intros Hall Hrest. induction run as [|c run IH]; simpl in *.
  - destruct rest as [|c rest]; [reflexivity|]. simpl. now rewrite Hrest.
  - apply andb_true_iff in Hall as [Hc Hall]. rewrite Hc, (IH Hall).
    reflexivity.
Qed.

Lemma take_all (s : string) : take (len s) s = s.
Proof. induction s as [|c s IH]; simpl; [reflexivity | now rewrite IH]. Qed.

Lemma take_append (a b : string) : take (len a) (a +:+ b) = a.
Proof. induction a as [|c a IH]; simpl; [now destruct b | now rewrite IH]. Qed.

Lemma drop_append (a b : string) : drop (len a) (a +:+ b) = b.
Proof. induction a as [|c a IH]; simpl; [now destruct b | assumption]. Qed.

Lemma drop_all (s : string) : drop (len s) s = "".
Proof. induction s as [|c s IH]; simpl; [reflexivity | assumption]. Qed.

Lemma take_drop (n : nat) (s : string) : take n s +:+ drop n s = s.
Proof.
  revert s; induction n as [|n IH]; intros s; destruct s as [|c s]; simpl;
    try reflexivity.
  now rewrite IH.
Qed.

Lemma len_take (n : nat) (s : string) : n <= len s -> len (take n s) = n.
Proof.
  revert s; induction n as [|n IH]; intros s H; destruct s as [|c s]; simpl in *;
    try reflexivity; try lia.
  rewrite IH; lia.
Qed.

Lemma substring_0 (s : string) (n : nat) :
  substring s 0 n = take (Nat.min n (len s)) s.
Proof.
  unfold substring.
  rewrite (Nat.min_l 0), Nat.min_0_l, Nat.max_0_l, Nat.sub_0_r by lia.
  reflexivity.
Qed.

Lemma substring_from_drop (s : string) (n : nat) :
  n <= len s -> substring_from s n = drop n s.
Proof.
  intros H. unfold substring_from, substring.
  rewrite !Nat.min_id, (Nat.min_l n), Nat.max_r, Nat.min_l by lia.
  assert (G : forall k t, len (drop k t) = len t - k).
  { induction k as [|k IH]; intros t; destruct t; simpl; auto; lia. }
  rewrite <- (G n s). apply take_all.
Qed.

End StringFacts.

(** ** The trigger scanner *)

Module ScannerFacts.
Import JsString StringFacts Scanner.

(** An attempt succeeds exactly on the prefix followed by a non-empty run of
    trigger characters up to the end. *)
Lemma match_at_Some (prefix s m0 body : string) :
  match_at prefix s = Some (m0, body) <->
  s = prefix +:+ body /\ m0 = s /\ body <> "" /\
  all is_trigger_char body = true.
Proof.
  unfold match_at, escapeRegex. split.
  - destruct (strip prefix s) as [after|] eqn:E; [|discriminate].
    apply strip_Some in E.
    destruct (span is_trigger_char after) as [run rest] eqn:Sp.
    apply span_decompose in Sp as (-> & Hall & _).
    destruct (is_empty run) eqn:Er; simpl; [discriminate|].
    destruct (is_empty rest) eqn:Et; [|discriminate].
    apply is_empty_true in Et; subst rest. rewrite append_empty_r in E.
    intros H; inversion H; subst. apply is_empty_false in Er. auto.
  - intros (-> & -> & Hne & Hall). rewrite strip_append.
    rewrite <- (append_empty_r body) at 1.
    rewrite (span_run _ body "" Hall I).
    apply is_empty_false in Hne. rewrite Hne. reflexivity.
Qed.

Lemma match_at_is_Some (prefix s : string) :
  is_Some (match_at prefix s) <->
  exists body, s = prefix +:+ body /\ body <> "" /\
               all is_trigger_char body = true.
Proof.
  split.
  - intros [[m0 body] H]. apply match_at_Some in H as (? & ? & ? & ?).
    now exists body.
  - intros (body & H1 & H2 & H3). exists (s, body).
    apply match_at_Some; auto.
Qed.

(** The search succeeds exactly when some suffix of the text is matched. *)
Lemma triggerMatch_is_Some (prefix s : string) :
  is_Some (triggerMatch prefix s) <-> ends_with_trigger prefix s.
Proof.
  unfold ends_with_trigger. induction s as [|c s IH].
  - simpl. destruct (match_at prefix "") as [m|] eqn:E.
    + split; [intros _ | intros _; now exists m].
      assert (Hs : is_Some (match_at prefix "")) by (rewrite E; now exists m).
      apply match_at_is_Some in Hs as (body & H1 & H2 & H3).
      exists "", body. now simpl.
    + split; [intros [x Hx]; discriminate|].
      intros (pre & body & H1 & H2 & H3).
      destruct pre; [|discriminate]. simpl in H1.
      assert (Hs : is_Some (match_at prefix "")).
      { apply match_at_is_Some. now exists body. }
      rewrite E in Hs. now destruct Hs.
  - simpl. destruct (match_at prefix (String c s)) as [m|] eqn:E.
    + split; [intros _ | intros _; now exists m].
      assert (Hs : is_Some (match_at prefix (String c s)))
        by (rewrite E; now exists m).
      apply match_at_is_Some in Hs as (body & H1 & H2 & H3).
      exists "", body. now simpl.
    + rewrite IH. split.
      * intros (pre & body & H1 & H2 & H3).
        exists (String c pre), body. simpl. now rewrite H1.
      * intros (pre & body & H1 & H2 & H3). destruct pre as [|c' pre].
        -- simpl in H1.
           assert (Hs : is_Some (match_at prefix (String c s))).
           { apply match_at_is_Some. now exists body. }
           rewrite E in Hs. destruct Hs; discriminate.
        -- simpl in H1. inversion H1; subst. now exists pre, body.
Qed.

(** What the search returns: the whole match, made of the prefix and the
    trigger, stands at the end of the text. *)
Lemma triggerMatch_Some (prefix s m0 body : string) :
  triggerMatch prefix s = Some (m0, body) ->
  m0 = prefix +:+ body /\
  body <> "" /\
  all is_trigger_char body = true /\
  exists pre, s = pre +:+ m0.
Proof.
  induction s as [|c s IH]; simpl.
  - destruct (match_at prefix "") as [m|] eqn:E; [|discriminate].
    intros H; inversion H; subst m.
    apply match_at_Some in E as (H1 & H2 & H3 & H4).
    repeat split; try assumption; [congruence|]. exists "". now subst.
  - destruct (match_at prefix (String c s)) as [m|] eqn:E.
    + intros H; inversion H; subst m.
      apply match_at_Some in E as (H1 & H2 & H3 & H4).
      repeat split; try assumption; [congruence|]. exists "". now subst.
    + intros H. destruct (IH H) as (H1 & H2 & H3 & pre & H4).
      repeat split; try assumption. exists (String c pre). simpl.
      now rewrite H4.
Qed.

(** The span reported with a trigger ends at the cursor and is as long as
    the prefix and the trigger. *)
Lemma scan_span (prefix text : string) (cursorPos : nat)
    (triggerName : string) (triggerStart triggerEnd : position) :
  scan prefix text (Num cursorPos)
  = Some (triggerName, triggerStart, triggerEnd) ->
  triggerEnd = Num cursorPos /\
  triggerStart = Num (cursorPos - len (prefix +:+ triggerName)) /\
  exists pre,
    beforeCursor text (Num cursorPos) = pre +:+ prefix +:+ triggerName.
Proof.
  unfold scan.
  destruct (triggerMatch prefix (beforeCursor text (Num cursorPos)))
    as [[m0 body]|] eqn:E; [|discriminate].
  intros H; inversion H; subst.
  apply triggerMatch_Some in E as (-> & _ & _ & pre & E).
  repeat split. now exists pre.
Qed.

(** Nothing is matched in the empty text: the body needs a character. *)
Lemma triggerMatch_empty (prefix : string) : triggerMatch prefix "" = None.
Proof.
  simpl. destruct (match_at prefix "") as [[m0 body]|] eqn:E; [|reflexivity].
  apply match_at_Some in E as (H1 & _ & H2 & _).
  destruct prefix; simpl in H1; [now subst body | discriminate].
Qed.

(** The text before the cursor ends with a trigger exactly when the text
    itself splits at the cursor behind a trigger. *)
Lemma before_cursor_split (prefix text : string) (cursorPos : nat) :
  ends_with_trigger prefix (beforeCursor text (Num cursorPos)) <->
  trigger_before_cursor prefix text cursorPos.
Proof.
  unfold beforeCursor, ends_with_trigger, trigger_before_cursor.
  rewrite substring_0.
  set (m := Nat.min cursorPos (len text)).
  assert (Hm : m <= len text) by (unfold m; lia).
  split.
  - intros (pre & body & E & Hne & Hall).
    exists pre, body, (drop m text). split; [|split; [|auto]].
    + rewrite <- (take_drop m text) at 1. rewrite E.
      now rewrite !append_assoc.
    + rewrite <- (len_take m text Hm), E, !len_append. lia.
  - intros (pre & body & post & E & L & Hne & Hall).
    exists pre, body. split; [|auto].
    assert (W : text = (pre +:+ prefix +:+ body) +:+ post)
      by (rewrite E at 1; now rewrite !append_assoc).
    assert (Lw : len (pre +:+ prefix +:+ body) = m)
      by (rewrite !len_append; lia).
    rewrite W, <- Lw. apply take_append.
Qed.

(** C2. The scanner reports a match exactly when the text splits at the
    cursor so that the part before the cursor ends with the trigger prefix
    followed by one or more trigger characters (ASCII letters, digits,
    underscore, hyphen), which leaves no room for white space; what stands
    behind the cursor plays no part. With the prefix [:] the text
    [hello :sn] with the cursor at its end gives the trigger [sn] on the
    span from 6 to 9, its last three characters, and the text [hello : ]
    gives no match; in [say :hello there] the cursor at offset 10, behind
    [:hello], gives the trigger [hello] on the span from 4 to 10, and the
    cursor at the end gives none; a cursor at offset 0 never gives one. *)
Theorem scanner_reports_trigger_before_cursor
    (prefix text : string) (cursorPos : nat) :
  (is_Some (scan prefix text (Num cursorPos)) <->
   trigger_before_cursor prefix text cursorPos) /\
  scan ":" "hello :sn" (Num 9) = Some ("sn", Num 6, Num 9) /\
  scan ":" "hello : " (Num 8) = None /\
  scan ":" "say :hello there" (Num 10) = Some ("hello", Num 4, Num 10) /\
  scan ":" "say :hello there" (Num 16) = None /\
  scan prefix text (Num 0) = None.
Proof.
  split; [|split; [|split; [|split; [|split]]]]; try reflexivity.
  - rewrite <- before_cursor_split, <- triggerMatch_is_Some. unfold scan.
    destruct (triggerMatch prefix (beforeCursor text (Num cursorPos)))
      as [[m0 body]|]; split; intros [x H]; try discriminate; now eexists.
  - unfold scan, beforeCursor. rewrite substring_0.
    change (take (Nat.min 0 (len text)) text) with "".
    now rewrite triggerMatch_empty.
Qed.

End ScannerFacts.

(** ** The variable resolver: the passes *)

Module ResolverLoop.
Import JsString StringFacts Resolver.

(** The ceiling on [iterations] makes the loop end, whatever a pass
    computes: fuel for the iterations still allowed is enough. *)
Lemma run_passes_has_fuel (step : string -> option string) (fuel : nat) :
  forall resolved iterations passes,
    maxIterations <= iterations + fuel ->
    run_passes step fuel resolved iterations passes <> OutOfFuel.
Proof.
  induction fuel as [|fuel IH]; intros resolved iterations passes H; simpl.
  - replace (iterations <? maxIterations) with false
      by (symmetry; apply Nat.ltb_ge; lia).
    rewrite andb_false_r. discriminate.
  - destruct (includes resolved "{{" && (iterations <? maxIterations));
      [|discriminate].
    destruct (step resolved) as [r|]; [|discriminate].
    destruct (Strings.String.eqb r resolved); [discriminate|].
    apply IH. lia.
Qed.

(** More fuel than that changes nothing. *)
Lemma run_passes_fuel_irrelevant (step : string -> option string)
    (fuel : nat) :
  forall resolved iterations passes,
    maxIterations <= iterations + fuel ->
    run_passes step (S fuel) resolved iterations passes =
    run_passes step fuel resolved iterations passes.
Proof.
  induction fuel as [|fuel IH]; intros resolved iterations passes H.
  - simpl. replace (iterations <? maxIterations) with false
      by (symmetry; apply Nat.ltb_ge; lia).
    now rewrite andb_false_r.
  - change (run_passes step (S (S fuel)) resolved iterations passes)
      with (if includes resolved "{{" && (iterations <? maxIterations)
            then match step resolved with
                 | Some r =>
                     if Strings.String.eqb r resolved
                     then Done (r, S passes)
                     else run_passes step (S fuel) r (S iterations) (S passes)
                 | None => Unmodelled
                 end
            else Done (resolved, passes)).
    simpl.
    destruct (includes resolved "{{" && (iterations <? maxIterations));
      [|reflexivity].
    destruct (step resolved) as [r|]; [|reflexivity].
    destruct (Strings.String.eqb r resolved); [reflexivity|].
    apply IH. lia.
Qed.

Lemma run_passes_more_fuel (step : string -> option string)
    (extra fuel : nat) :
  forall resolved iterations passes,
    maxIterations <= iterations + fuel ->
    run_passes step (fuel + extra) resolved iterations passes =
    run_passes step fuel resolved iterations passes.
Proof.
  induction extra as [|extra IH]; intros resolved iterations passes H.
  - now rewrite Nat.add_0_r.
  - rewrite Nat.add_succ_r, run_passes_fuel_irrelevant by lia. now apply IH.
Qed.

(** Each run of the body counts one pass and, unless it is the last, one
    iteration: the passes stay within the iterations left. *)
Lemma run_passes_count (step : string -> option string) (fuel : nat) :
  forall resolved iterations passes r n,
    run_passes step fuel resolved iterations passes = Done (r, n) ->
    passes <= n /\ n <= passes + (maxIterations - iterations).
Proof.
  induction fuel as [|fuel IH]; intros resolved iterations passes r n; simpl.
  - destruct (includes resolved "{{" && (iterations <? maxIterations));
      [discriminate|].
    intros H; inversion H; subst. lia.
  - destruct (includes resolved "{{" && (iterations <? maxIterations)) eqn:C.
    + apply andb_true_iff in C as [_ C]. apply Nat.ltb_lt in C.
      destruct (step resolved) as [r'|]; [|discriminate].
      destruct (Strings.String.eqb r' resolved).
      * intros H; inversion H; subst. lia.
      * intros H. apply IH in H. lia.
    + intros H; inversion H; subst. lia.
Qed.

(** A pass that changes nothing is the last one. *)
Lemma run_passes_stops_when_stable (step : string -> option string)
    (fuel : nat) :
  forall resolved iterations passes,
    step resolved = Some resolved ->
    exists n,
      run_passes step (S fuel) resolved iterations passes
      = Done (resolved, n) /\ n <= S passes.
Proof.
  intros resolved iterations passes H. simpl.
  destruct (includes resolved "{{" && (iterations <? maxIterations)).
  - rewrite H, Strings.String.eqb_refl. exists (S passes).
    split; [reflexivity|lia].
  - exists passes. split; [reflexivity|lia].
Qed.

(** A text without an opening pair of braces is returned at once. *)
Lemma run_passes_without_braces (step : string -> option string)
    (fuel : nat) (text : string) :
  includes text "{{" = false ->
  run_passes step fuel text 0 0 = Done (text, 0).
Proof. intros H. destruct fuel; simpl; now rewrite H. Qed.

(** C1. Variable resolution ends after at most 10 substitution passes,
    whatever the text and the context: the loop never needs more runs of
    its body than the ceiling, whatever the substitutions of a pass compute,
    the number of passes it makes is at most 10, and it stops with the pass
    that changes nothing; the text [{{a}}] with a context whose form data map
    [a] to [{{a}}] comes back unchanged after a single pass. *)
Theorem resolution_ends_within_ten_passes
    (now : clock) (text : string) (ctx : context) (extra : nat) :
  resolveVariables_passes (maxIterations + extra) now text ctx <> OutOfFuel /\
  resolveVariables_passes (maxIterations + extra) now text ctx
  = resolveVariables_passes maxIterations now text ctx /\
  (forall r n,
      resolveVariables_passes maxIterations now text ctx = Done (r, n) ->
      n <= 10) /\
  (forall step : string -> option string,
      run_passes step (maxIterations + extra) text 0 0 <> OutOfFuel /\
      forall r n,
        run_passes step (maxIterations + extra) text 0 0 = Done (r, n) ->
        n <= 10) /\
  (forall fuel resolved iterations passes,
      pass (own_entries (variables now ctx)) resolved = Some resolved ->
      exists n,
        resolve_loop (S fuel) (own_entries (variables now ctx))
                     resolved iterations passes = Done (resolved, n) /\
        n <= S passes) /\
  resolveVariables_passes maxIterations now "{{a}}"
    {| pageTitle := pageTitle ctx; pageUrl := pageUrl ctx;
       selectedText := selectedText ctx; clipboard := clipboard ctx;
       domain := domain ctx; formData := [("a", VStr "{{a}}")] |}
  = Done ("{{a}}", 1).
Proof.
  unfold resolveVariables_passes, resolve_loop.
  split; [|split; [|split; [|split; [|split]]]].
  - apply run_passes_has_fuel. lia.
  - apply run_passes_more_fuel. lia.
  - intros r n H. apply run_passes_count in H. unfold maxIterations in H. lia.
  - intros step. split.
    + apply run_passes_has_fuel. lia.
    + intros r n H. apply run_passes_count in H. unfold maxIterations in H.
      lia.
  - intros fuel resolved iterations passes H.
    now apply run_passes_stops_when_stable.
  - reflexivity.
Qed.

End ResolverLoop.

(** ** The variable resolver: one substitution *)

Module ResolverSubstitution.
Import JsString StringFacts Resolver Examples.

Lemma literal_append (a b : string) :
  literal (a +:+ b) = literal a ++ literal b.
Proof. induction a as [|c a IH]; simpl; [reflexivity | now rewrite IH]. Qed.

(** A key without syntax characters is compiled to the pattern of its own
    text. *)
Lemma compile_plain_key (key : string) :
  plain_key key -> compile_key key = Some (literal key).
Proof.
  unfold plain_key. induction key as [|c key IH]; simpl; [reflexivity|].
  intros H. apply andb_true_iff in H as [Hc H]. rewrite (IH H).
  unfold compile_char. apply negb_true_iff in Hc. rewrite Hc.
  destruct (Ascii.eqb c ".") eqn:E; [|reflexivity].
  apply Ascii.eqb_eq in E; subst c. discriminate Hc.
Qed.

Lemma placeholder_pattern_plain (key : string) :
  plain_key key ->
  placeholder_pattern key = Some (literal (placeholder key)).
Proof.
  intros H. unfold placeholder_pattern, placeholder.
  rewrite (compile_plain_key key H), !literal_append. reflexivity.
Qed.

(** The pattern of a text matches where the text stands, and matches it. *)
Lemma match_here_literal (needle s : string) :
  match_here (literal needle) s =
  match strip needle s with Some _ => Some needle | None => None end.
Proof.
  revert s; induction needle as [|a needle IH]; intros s; simpl.
  - now destruct s.
  - destruct s as [|c s]; [reflexivity|]. simpl.
    destruct (Ascii.eqb a c) eqn:E; [|reflexivity].
    apply Ascii.eqb_eq in E; subst c. rewrite IH.
    now destruct (strip needle s).
Qed.

(** A value without a dollar is substituted as it is. *)
Lemma get_substitution_dollar_free (matched before after value : string) :
  dollar_free value ->
  get_substitution matched before after value = value.
Proof.
  unfold dollar_free. induction value as [|c value IH]; simpl; [reflexivity|].
  intros H. apply andb_true_iff in H as [Hc H]. apply negb_true_iff in Hc.
  rewrite Hc. now rewrite (IH H).
Qed.

(** Skipping the rest of a match is dropping it. *)
Lemma replace_go_skip (pat : list atom) (replacement whole : string)
    (s : string) :
  forall pos skip,
    replace_go pat replacement whole pos skip s =
    replace_go pat replacement whole (pos + skip) 0 (drop skip s).
Proof.
  induction s as [|c s IH]; intros pos skip.
  - now destruct skip.
  - destruct skip as [|k].
    + now rewrite Nat.add_0_r.
    + simpl. rewrite IH. now rewrite Nat.add_succ_r.
Qed.

(** The scan replaces every occurrence of the text of its pattern, from
    left to right. *)
Lemma replace_go_Replaced (needle value whole : string) :
  needle <> "" -> dollar_free value ->
  forall n s pos,
    len s <= n ->
    Replaced needle value s
             (replace_go (literal needle) value whole pos 0 s).
Proof.
  intros Hne Hval. induction n as [|n IH]; intros s pos Hlen.
  - destruct s; [constructor | simpl in Hlen; lia].
  - destruct s as [|c s]; [constructor|].
    cbn [replace_go]. rewrite match_here_literal.
    destruct (strip needle (String c s)) as [rest|] eqn:E.
    + apply strip_Some in E.
      rewrite get_substitution_dollar_free by assumption.
      rewrite replace_go_skip.
      destruct needle as [|a needle]; [congruence|].
      simpl in E. inversion E; subst c s. simpl len.
      replace (S (len needle) - 1) with (len needle) by lia.
      rewrite drop_append.
      change (String a (needle +:+ rest)) with (String a needle +:+ rest).
      apply Replaced_here. apply IH.
      simpl in Hlen. rewrite len_append in Hlen. lia.
    + apply Replaced_keep.
      * unfold startsWith. now rewrite E.
      * apply IH. simpl in Hlen. lia.
Qed.

(** Where the needle does not occur nothing is replaced. *)
Lemma Replaced_without_occurrence (needle value s out : string) :
  Replaced needle value s out -> includes s needle = false -> out = s.
Proof.
  induction 1 as [|rest out _ _|c s out Hc _ IH]; intros Hinc.
  - reflexivity.
  - exfalso. destruct (needle +:+ rest) eqn:E; simpl in Hinc;
      rewrite <- E, startsWith_append in Hinc; discriminate.
  - simpl in Hinc. apply orb_false_iff in Hinc as [_ Hinc].
    now rewrite (IH Hinc).
Qed.

Lemma placeholder_not_empty (key : string) : placeholder key <> "".
Proof. discriminate. Qed.

(** One substitution, for a key without syntax characters of the pattern
    language and a value without a dollar, replaces every
    occurrence of the text [{{key}}], from left to right, each by the value
    as it is (the empty string for a falsy value), matching the key exactly;
    a text without [{{key}}] is left as it is. *)
Theorem substitution_replaces_exact_placeholder
    (key : string) (v : jsval) (text : string) :
  plain_key key ->
  dollar_free (to_string (or_empty v)) ->
  exists out,
    substitute text (key, v) = Some out /\
    Replaced (placeholder key) (to_string (or_empty v)) text out /\
    (includes text (placeholder key) = false -> out = text).
Proof.
  intros Hkey Hval. unfold substitute. simpl fst; simpl snd.
  rewrite (placeholder_pattern_plain key Hkey).
  eexists. split; [reflexivity|].
  assert (R : Replaced (placeholder key) (to_string (or_empty v)) text
                (replace (literal (placeholder key))
                         (to_string (or_empty v)) text)).
  { unfold replace.
    apply (replace_go_Replaced _ _ _ (placeholder_not_empty key) Hval
             (len text)). lia. }
  split; [exact R|].
  intros Hinc. exact (Replaced_without_occurrence _ _ _ _ R Hinc).
Qed.

Lemma substitution_replaces_exact_placeholder_witness :
  exists out,
    substitute "Hi {{domain}}, {{Domain}}!" ("domain", VStr "example.com")
    = Some out /\
    Replaced (placeholder "domain") "example.com"
             "Hi {{domain}}, {{Domain}}!" out /\
    (includes "Hi {{domain}}, {{Domain}}!" (placeholder "domain") = false ->
     out = "Hi {{domain}}, {{Domain}}!").
Proof.
  apply (substitution_replaces_exact_placeholder
           "domain" (VStr "example.com") "Hi {{domain}}, {{Domain}}!");
    reflexivity.
Defined.

(** C8. A placeholder of an unknown key does not always reach the output
    as it is: a form field named [a.c] is spliced into the pattern as it
    is, its dot matches any character, and so the placeholder [{{abc}}],
    whose key is no key of the table, is replaced by the value of the field.
    A known key with a falsy value does give the empty string. *)
Theorem unknown_placeholder_rewritten_by_dotted_key (now : clock) :
  ~ In "abc" (map fst (own_entries (variables now ctx_dotted_field))) /\
  resolveVariables maxIterations now "{{abc}}" ctx_dotted_field = Done "X" /\
  resolveVariables maxIterations now "<{{selected_text}}>" ctx_dotted_field
  = Done "<>".
Proof.
  split; [|split].
  - simpl. intuition discriminate.
  - reflexivity.
  - reflexivity.
Qed.

End ResolverSubstitution.

(** ** The template wrapper *)

Module TemplateFacts.
Import JsString JsObject StringFacts Template.

(** A marker with a proper name is recognised, and splits into the name and
    the rest. *)
Lemma templateMatch_marker (templateName rest : string) :
  is_name templateName ->
  templateMatch (marker templateName rest) = Some (templateName, rest).
Proof.
  intros [Hne Hall]. unfold templateMatch, marker.
  rewrite strip_append.
  rewrite (span_run is_word templateName ("]" +:+ rest) Hall)
    by reflexivity.
  apply is_empty_false in Hne. rewrite Hne.
  now rewrite strip_append.
Qed.

(** What is recognised is a marker with a proper name. *)
Lemma templateMatch_Some (content templateName rest : string) :
  templateMatch content = Some (templateName, rest) ->
  content = marker templateName rest /\ is_name templateName.
Proof.
  unfold templateMatch, marker, is_name.
  destruct (strip "[template:" content) as [after|] eqn:E; [|discriminate].
  apply strip_Some in E.
  destruct (span is_word after) as [run tail] eqn:Sp.
  apply span_decompose in Sp as (-> & Hall & _).
  destruct (is_empty run) eqn:Er; [discriminate|].
  destruct (strip "]" tail) as [r|] eqn:Et; [|discriminate].
  apply strip_Some in Et. intros H; inversion H; subst.
  apply is_empty_false in Er. auto.
Qed.

(** The statement of the specification fails on a name without entry: the
    marker stays. *)
Lemma absent_template_marker_is_not_stripped :
  applyTemplateWrapping Examples.templates0
                        (marker "nope" "Explain recursion")
  <> "Explain recursion".
Proof. vm_compute. discriminate. Qed.

(** C4, as amended. When the content begins with a marker
    [[template:NAME]REST] whose name has no entry in the template dictionary
    (and is not a name every object inherits), [applyTemplateWrapping]
    returns the content as it is, the marker included; it also returns the
    content as it is when there is no marker at the start, and with an entry
    it returns the entry's [pre], the rest and the entry's [post]. *)
Theorem absent_template_leaves_content_unchanged
    (templates : gmap string template) (templateName rest : string) :
  is_name templateName ->
  js_get templates templateName = Absent ->
  applyTemplateWrapping templates (marker templateName rest)
  = marker templateName rest /\
  (forall content,
      templateMatch content = None ->
      applyTemplateWrapping templates content = content) /\
  (forall template,
      applyTemplateWrapping (<[templateName := template]> templates)
                            (marker templateName rest)
      = pre template +:+ rest +:+ post template).
Proof.
  intros Hname Habs. split; [|split].
  - unfold applyTemplateWrapping.
    now rewrite (templateMatch_marker _ _ Hname), Habs.
  - intros content H. unfold applyTemplateWrapping. now rewrite H.
  - intros template. unfold applyTemplateWrapping, js_get.
    rewrite (templateMatch_marker _ _ Hname), lookup_insert_eq. reflexivity.
Qed.

Lemma absent_template_leaves_content_unchanged_witness :
  applyTemplateWrapping ∅ (marker "nope" "Explain recursion")
  = marker "nope" "Explain recursion" /\
  (forall content,
      templateMatch content = None ->
      applyTemplateWrapping ∅ content = content) /\
  (forall template,
      applyTemplateWrapping (<["nope" := template]> ∅)
                            (marker "nope" "Explain recursion")
      = pre template +:+ "Explain recursion" +:+ post template).
Proof.
  apply (absent_template_leaves_content_unchanged ∅ "nope" "Explain recursion").
  - split; [discriminate | reflexivity].
  - reflexivity.
Defined.

End TemplateFacts.

(** ** Text surfaces *)

Module DomFacts.
Import JsString StringFacts Dom.

(** The walk finds no node when the offset lies beyond all the text. *)
Lemma walk_beyond_text (nodes : list string) :
  forall index currentPos position,
    currentPos + len (fold_right Strings.String.append "" nodes) < position ->
    walk nodes index currentPos (Num position) = None.
Proof.
  induction nodes as [|data nodes IH]; intros index currentPos position H;
    simpl in *; [reflexivity|].
  rewrite len_append in H.
  replace (position <=? currentPos + len data) with false
    by (symmetry; apply Nat.leb_gt; lia).
  apply IH. lia.
Qed.

(** The walk finds a node when the offset lies within the text. *)
Lemma walk_within_text (nodes : list string) :
  forall index currentPos position,
    nodes <> [] ->
    position <= currentPos + len (fold_right Strings.String.append "" nodes) ->
    is_Some (walk nodes index currentPos (Num position)).
Proof.
  induction nodes as [|data nodes IH]; intros index currentPos position Hne H;
    [congruence|]. simpl in *. rewrite len_append in H.
  destruct (position <=? currentPos + len data) eqn:E; [now eexists|].
  apply Nat.leb_gt in E. apply IH; [|lia].
  intros ->. simpl in H. lia.
Qed.

(** The setters of the cursor put both ends at an offset inside the
    value. *)
Lemma set_cursor_inside (f : field) (x : nat) :
  x <= len (value f) ->
  value (set_cursor f (Num x)) = value f /\
  selectionStart (set_cursor f (Num x)) = x /\
  selectionEnd (set_cursor f (Num x)) = x.
Proof.
  intros H. unfold set_cursor, set_selectionStart, set_selectionEnd,
    set_selection_range. simpl.
  rewrite (Nat.min_l x) by lia.
  rewrite (Nat.max_id x), (Nat.min_l x) by lia.
  rewrite Nat.leb_refl. auto.
Qed.

Lemma value_set_value (f : field) (v : string) : value (set_value f v) = v.
Proof.
  unfold set_value. destruct (Strings.String.eqb v (value f)) eqn:E;
    [|reflexivity].
  apply Strings.String.eqb_eq in E. now subst.
Qed.

Lemma textContent_set_value (f : field) (v : string) :
  field_textContent (set_value f v) = field_textContent f.
Proof. unfold set_value. now destruct (Strings.String.eqb v (value f)). Qed.

(** Setting the text content gives a region with exactly that text. *)
Lemma textContent_set_textContent (e : editable) (s : string) :
  textContent (set_textContent e s) = s.
Proof.
  assert (R : forall sl,
             textContent {| root := Element (if is_empty s then []
                                             else [Text s]);
                            sel := sl |} = s).
  { intros sl. unfold textContent. destruct s; simpl; [reflexivity|].
    now rewrite append_empty_r. }
  unfold set_textContent.
  destruct (root e) as [d|[|[data|c] [|c' cs]]] eqn:E; try apply R.
  destruct (Strings.String.eqb data s && negb (is_empty s)) eqn:Q;
    [|apply R].
  apply andb_true_iff in Q as [Q _]. apply Strings.String.eqb_eq in Q.
  subst data. unfold textContent. rewrite E. simpl. apply append_empty_r.
Qed.

End DomFacts.

(** ** The expansion controller *)

Module ControllerFacts.
Import JsString JsObject StringFacts Template Dom DomFacts Controller Examples.

Ltac run_script :=
  unfold get_element, put_element, showNotification, showFormModal,
    trackUsage, dispatchInput, preventDefault in *;
  unfold mbind, M_bind, mret, M_ret, bind, ret, gets, modify, throw,
    detached in *;
  cbn beta in *.

Lemma with_elements_same (pg : page) : with_elements (elements pg) pg = pg.
Proof. now destruct pg. Qed.

(** C10. On an editable region, when the start offset of the splice
    exceeds the length of all the text in its text nodes, the walk over the
    text nodes returns no node and [replaceText] does nothing: the region,
    its selection and the rest of the page stay as they are and nothing is
    thrown. *)
Theorem splice_beyond_text_is_silent_noop
    (pg : page) (id : nat) (e : editable) (startPos : nat)
    (endPos : position) (newText : string) :
  elements pg !! id = Some (Editable e) ->
  len (textContent e) < startPos ->
  findTextNode e (Num startPos) = None /\
  replaceText_editable e (Num startPos) endPos newText = inr e /\
  replaceText id (Num startPos) endPos newText pg = (Ok tt, pg).
Proof.
  intros Hel Hlen.
  assert (W : findTextNode e (Num startPos) = None).
  { unfold findTextNode. apply walk_beyond_text. exact Hlen. }
  assert (R : replaceText_editable e (Num startPos) endPos newText = inr e).
  { unfold replaceText_editable. now rewrite W. }
  split; [exact W|]. split; [exact R|].
  unfold replaceText, execCommand_insertText. run_script.
  rewrite Hel, R, W. cbn beta iota.
  rewrite (insert_id _ _ _ Hel). now rewrite with_elements_same.
Qed.

Lemma splice_beyond_text_is_silent_noop_witness :
  findTextNode {| root := Element [Text "hello "; Element [Text ":sn"]];
                  sel := SelText 1 3 3 |} (Num 10) = None /\
  replaceText_editable
    {| root := Element [Text "hello "; Element [Text ":sn"]];
       sel := SelText 1 3 3 |} (Num 10) (Num 12) "X"
  = inr {| root := Element [Text "hello "; Element [Text ":sn"]];
           sel := SelText 1 3 3 |} /\
  replaceText 3 (Num 10) (Num 12) "X" page_two_nodes = (Ok tt, page_two_nodes).
Proof.
  apply (splice_beyond_text_is_silent_noop page_two_nodes 3
           {| root := Element [Text "hello "; Element [Text ":sn"]];
              sel := SelText 1 3 3 |} 10 (Num 12) "X").
  - reflexivity.
  - simpl. lia.
Defined.

(** C9. With an empty expansion history [undoLastExpansion] changes no
    element, neither its text nor its cursor, leaves the history and the
    guard as they are, and only shows the notification that there is nothing
    to undo, whose text is [No expansions to undo]. *)
Theorem undo_on_empty_history_only_notifies (pg : page) :
  expansionHistory pg = [] ->
  undoLastExpansion pg =
  (Ok tt,
   with_notifications (notifications pg ++ [("No expansions to undo", "info")])
                      pg) /\
  elements (snd (undoLastExpansion pg)) = elements pg /\
  expansionHistory (snd (undoLastExpansion pg)) = [] /\
  isProcessing (snd (undoLastExpansion pg)) = isProcessing pg /\
  inputEvents (snd (undoLastExpansion pg)) = inputEvents pg.
Proof.
  intros H.
  assert (E : undoLastExpansion pg =
              (Ok tt, with_notifications
                        (notifications pg ++ [("No expansions to undo", "info")])
                        pg)).
  { unfold undoLastExpansion. run_script. now rewrite H. }
  rewrite E. simpl. auto.
Qed.

Lemma undo_on_empty_history_only_notifies_witness :
  undoLastExpansion page_textarea =
  (Ok tt,
   with_notifications
     (notifications page_textarea ++ [("No expansions to undo", "info")])
     page_textarea) /\
  elements (snd (undoLastExpansion page_textarea)) = elements page_textarea /\
  expansionHistory (snd (undoLastExpansion page_textarea)) = [] /\
  isProcessing (snd (undoLastExpansion page_textarea))
  = isProcessing page_textarea /\
  inputEvents (snd (undoLastExpansion page_textarea))
  = inputEvents page_textarea.
Proof.
  apply (undo_on_empty_history_only_notifies page_textarea). reflexivity.
Defined.

(** The statement of the specification fails on the text area where
    [say :nope] was typed: the key event has its default prevented. *)
Lemma unknown_trigger_key_is_swallowed :
  ~ (exists pg',
        handleTriggerKey 1 page_unknown_trigger = (Ok None, pg') /\
        elements pg' = elements page_unknown_trigger /\
        expansionHistory pg' = expansionHistory page_unknown_trigger /\
        preventedKeys pg' = preventedKeys page_unknown_trigger).
Proof.
  intros (pg' & H & _ & _ & P).
  assert (E : preventedKeys (snd (handleTriggerKey 1 page_unknown_trigger))
              = [1]) by reflexivity.
  rewrite H in E. simpl in E. rewrite P in E. discriminate E.
Qed.

(** C5, as amended. When the text before the cursor matches the trigger
    pattern and the trigger is neither [form] nor a name [config.snippets]
    answers to, the commit key expands nothing: the elements keep their text
    and cursor, no expansion record is pushed, nothing is started and the
    guard stays as it was; [preventDefault] is called all the same, so the
    key is not inserted. *)
Theorem unknown_trigger_changes_nothing_but_prevents_default
    (pg : page) (id : nat) (element : element)
    (triggerName : string) (triggerStart cursorPos : position) :
  elements pg !! id = Some element ->
  Scanner.scan (triggerPrefix pg) (text_of element) (cursor_of element)
  = Some (triggerName, triggerStart, cursorPos) ->
  triggerName <> "form" ->
  js_get (snippets pg) triggerName = Absent ->
  handleTriggerKey id pg =
  (Ok None, with_preventedKeys (preventedKeys pg ++ [id]) pg).
Proof.
  intros Hel Hscan Hform Habs.
  unfold handleTriggerKey. run_script. rewrite Hel, Hscan.
  apply Strings.String.eqb_neq in Hform. rewrite Hform.
  simpl. now rewrite Habs.
Qed.

Lemma unknown_trigger_changes_nothing_but_prevents_default_witness :
  handleTriggerKey 1 page_unknown_trigger =
  (Ok None,
   with_preventedKeys (preventedKeys page_unknown_trigger ++ [1])
                      page_unknown_trigger).
Proof.
  apply (unknown_trigger_changes_nothing_but_prevents_default
           page_unknown_trigger 1
           (Field {| value := "say :nope"; field_textContent := "";
                     selectionStart := 9; selectionEnd := 9 |})
           "nope" (Num 4) (Num 9)).
  - reflexivity.
  - reflexivity.
  - discriminate.
  - reflexivity.
Defined.

(** X25. When [expandSnippet] runs to its end the guard is released. *)
Lemma expandSnippet_return_releases_guard
    (pg pg' : page) (id : nat) (triggerName : string)
    (startPos endPos : position) (answer : reply) (now : nat) :
  expandSnippet id triggerName startPos endPos answer now pg = (Ok tt, pg') ->
  isProcessing pg' = false.
Proof.
  unfold expandSnippet, expandSnippet_begin, expandSnippet_resume, replaceText.
  run_script. simpl.
  repeat match goal with
         | |- context [match ?x with _ => _ end] =>
             destruct x eqn:?; simpl; try discriminate
         end;
    intros H; now inversion H.
Qed.

(** C6. The guard is not released on every way out of an expansion
    attempt: when the awaited resolution request rejects, [expandSnippet]
    ends by the exception with [isProcessing] still set, whatever the page
    and the arguments, and from then on every commit key is ignored; the
    same holds when the splice throws, as on the region whose text is
    spread over two text nodes. *)
Theorem rejected_request_leaves_guard_set
    (pg : page) (id : nat) (triggerName : string)
    (startPos endPos : position) (now : nat) :
  (exists err,
      fst (expandSnippet id triggerName startPos endPos Rejects now pg)
      = Throw err) /\
  isProcessing
    (snd (expandSnippet id triggerName startPos endPos Rejects now pg))
  = true /\
  (forall id',
      onCommitKey id'
        (snd (expandSnippet id triggerName startPos endPos Rejects now pg))
      = (Ok None,
         snd (expandSnippet id triggerName startPos endPos Rejects now pg))) /\
  fst (expandSnippet 1 "hello" (Num 4) (Num 10) Rejects 7 page_textarea)
  = Throw Rejected /\
  fst (expandSnippet 3 "sn" (Num 6) (Num 9) (Resolves (Some response_X)) 7
                     page_two_nodes)
  = Throw IndexSizeError /\
  isProcessing
    (snd (expandSnippet 3 "sn" (Num 6) (Num 9) (Resolves (Some response_X)) 7
                        page_two_nodes))
  = true.
Proof.
  assert (G : isProcessing
                (snd (expandSnippet id triggerName startPos endPos Rejects
                                    now pg)) = true).
  { unfold expandSnippet, expandSnippet_begin, expandSnippet_resume.
    run_script. simpl.
    now destruct (js_get (snippets pg) triggerName). }
  split; [|split; [exact G|split; [|split; [|split]]]].
  - unfold expandSnippet, expandSnippet_begin, expandSnippet_resume.
    run_script. simpl.
    destruct (js_get (snippets pg) triggerName); simpl; now eexists.
  - intros id'. unfold onCommitKey, shouldProcessElement. run_script.
    now rewrite G.
  - reflexivity.
  - reflexivity.
  - reflexivity.
Qed.

(** [replaceText] on a text control. *)
Lemma replaceText_on_field
    (pg : page) (id : nat) (f : field) (startPos endPos : position)
    (newText : string) :
  elements pg !! id = Some (Field f) ->
  exists pg1,
    replaceText id startPos endPos newText pg = (Ok tt, pg1) /\
    elements pg1
    = <[id := Field (replaceText_field f startPos endPos newText)]>
        (elements pg) /\
    expansionHistory pg1 = expansionHistory pg.
Proof.
  intros Hel. unfold replaceText. run_script. rewrite Hel.
  eexists. split; [reflexivity|]. now simpl.
Qed.

(** The part of [expandSnippet] after a response, on a text control. *)
Lemma expandSnippet_resume_on_field
    (pg : page) (id : nat) (f : field) (triggerName : string)
    (startPos endPos : position) (resp : response) (now : nat) :
  elements pg !! id = Some (Field f) ->
  exists pg1 record,
    expandSnippet_resume id triggerName startPos endPos
                         (Resolves (Some resp)) now pg = (Ok tt, pg1) /\
    elements pg1
    = <[id := Field (replaceText_field f startPos endPos
                                       (expandedContent record))]>
        (elements pg) /\
    expansionHistory pg1 = record :: expansionHistory pg /\
    exp_element record = id /\
    originalText record = text_of (Field f) /\
    Controller.endPos record = endPos.
Proof.
  intros Hel. unfold expandSnippet_resume.
  set (wrapped := applyTemplateWrapping (templates pg) (resolved resp)).
  set (record := {| exp_element := id; originalText := text_of (Field f);
                    trigger := triggerName; startPos := startPos;
                    endPos := endPos; expandedContent := wrapped;
                    timestamp := now |}).
  destruct (replaceText_on_field
              (with_history (record :: expansionHistory pg) pg) id f
              startPos endPos wrapped Hel) as (pg1 & Hr & He & Hh).
  run_script. rewrite Hel. cbn beta iota.
  fold wrapped. fold record. rewrite Hr. cbn beta iota.
  destruct (100 <? tokens resp); eexists _, record;
    (split; [reflexivity|]); simpl; rewrite He, Hh; simpl; auto.
Qed.

(** [undoLastExpansion] when the last expansion was on a text control. *)
Lemma undo_on_field
    (pg : page) (record : expansion) (rest : list expansion) (f : field) :
  expansionHistory pg = record :: rest ->
  elements pg !! exp_element record = Some (Field f) ->
  exists pg2,
    undoLastExpansion pg = (Ok tt, pg2) /\
    elements pg2
    = <[exp_element record :=
          Field (set_cursor (set_value f (originalText record))
                            (Controller.endPos record))]> (elements pg) /\
    expansionHistory pg2 = rest.
Proof.
  intros Hh Hel. unfold undoLastExpansion. run_script. rewrite Hh.
  simpl. rewrite Hel. eexists. split; [reflexivity|]. now simpl.
Qed.

(** Reading the text of a control again after its value was set to what
    was read gives the same text. *)
Lemma text_of_restored (f g : field) :
  field_textContent g = field_textContent f ->
  value g = text_of (Field f) ->
  text_of (Field g) = text_of (Field f).
Proof.
  simpl. intros Ht Hv. rewrite Hv, Ht.
  destruct (value f); simpl; [|reflexivity].
  now destruct (field_textContent f).
Qed.

Lemma textContent_set_cursor (f : field) (x : position) :
  field_textContent (set_cursor f x) = field_textContent f.
Proof. reflexivity. Qed.

(** X21. On a text control the splice of an expansion followed by the undo
    both restores the text and puts the cursor at the end of the span. *)
Lemma field_splice_undo_round_trip
    (pg : page) (id : nat) (f : field) (triggerName : string)
    (startPos endPos : nat) (resp : response) (now : nat) :
  elements pg !! id = Some (Field f) ->
  endPos <= len (text_of (Field f)) ->
  exists pg1 pg2 f',
    expandSnippet_resume id triggerName (Num startPos) (Num endPos)
                         (Resolves (Some resp)) now pg = (Ok tt, pg1) /\
    undoLastExpansion pg1 = (Ok tt, pg2) /\
    elements pg2 !! id = Some (Field f') /\
    text_of (Field f') = text_of (Field f) /\
    selectionStart f' = endPos /\
    selectionEnd f' = endPos /\
    expansionHistory pg2 = expansionHistory pg.
Proof.
  intros Hel Hend.
  destruct (expandSnippet_resume_on_field pg id f triggerName (Num startPos)
              (Num endPos) resp now Hel)
    as (pg1 & record & Hrun & He1 & Hh1 & Hid & Horig & Hpos).
  set (f1 := replaceText_field f (Num startPos) (Num endPos)
                               (expandedContent record)) in *.
  assert (Hel1 : elements pg1 !! exp_element record = Some (Field f1)).
  { rewrite He1, Hid. apply lookup_insert_eq. }
  destruct (undo_on_field pg1 record (expansionHistory pg) f1 Hh1 Hel1)
    as (pg2 & Hundo & He2 & Hh2).
  set (g := set_value f1 (originalText record)) in *.
  assert (Vg : value g = text_of (Field f))
    by (unfold g; rewrite value_set_value; exact Horig).
  assert (Tg : field_textContent g = field_textContent f).
  { unfold g, f1, replaceText_field.
    now rewrite textContent_set_value, textContent_set_cursor,
      textContent_set_value. }
  destruct (set_cursor_inside g endPos) as (V & S1 & S2);
    [rewrite Vg; exact Hend|].
  exists pg1, pg2, (set_cursor g (Num endPos)).
  split; [exact Hrun|]. split; [exact Hundo|].
  split; [rewrite He2, Hid, Hpos; apply lookup_insert_eq|].
  split; [|auto].
  apply text_of_restored; [exact Tg | now rewrite V].
Qed.

(** C7. The round trip of splice and undo does not hold on every surface.
    On an editable region the undo assigns the text of the record and does
    nothing about the cursor: the region afterwards is the one the setter of
    [textContent] leaves, which is the region as it was, or one without a
    selection, or one with the cursor at offset 0. So on the region whose
    text [hello :sn] is spread over two text nodes, with the cursor at its
    end, offset 9, an expansion started by the commit key records no
    numeric end offset and splices nothing, and the undo leaves the cursor
    at offset 0; on the region with that text in a single text node the
    undo changes nothing at all. On a text control both the text and the
    cursor come back. *)
Theorem undo_on_editable_region_loses_cursor :
  (forall pg record rest e,
      expansionHistory pg = record :: rest ->
      elements pg !! exp_element record = Some (Editable e) ->
      exists pg2 e2,
        undoLastExpansion pg = (Ok tt, pg2) /\
        elements pg2 !! exp_element record = Some (Editable e2) /\
        e2 = set_textContent e (originalText record) /\
        textContent e2 = originalText record /\
        (e2 = e \/ sel e2 = SelNone \/ caret_offset e2 = Some 0)) /\
  (exists pg0 pg1 pg2 record e2,
      caret_offset {| root := Element [Text "hello "; Element [Text ":sn"]];
                      sel := SelText 1 3 3 |} = Some 9 /\
      onCommitKey 3 page_two_nodes
      = (Ok (Some {| pend_element := 3; pend_trigger := "sn";
                     pend_start := NaN; pend_end := Undefined |}), pg0) /\
      expandSnippet_resume 3 "sn" NaN Undefined (Resolves (Some response_X)) 7
                           pg0 = (Ok tt, pg1) /\
      elements pg1 = elements page_two_nodes /\
      expansionHistory pg1 = [record] /\
      originalText record = "hello :sn" /\
      endPos record = Undefined /\
      undoLastExpansion pg1 = (Ok tt, pg2) /\
      elements pg2 !! 3 = Some (Editable e2) /\
      textContent e2 = "hello :sn" /\
      caret_offset e2 = Some 0) /\
  (exists pg0 pg1 pg2,
      onCommitKey 2 page_editable
      = (Ok (Some {| pend_element := 2; pend_trigger := "sn";
                     pend_start := NaN; pend_end := Undefined |}), pg0) /\
      expandSnippet_resume 2 "sn" NaN Undefined (Resolves (Some response_X)) 7
                           pg0 = (Ok tt, pg1) /\
      undoLastExpansion pg1 = (Ok tt, pg2) /\
      elements pg2 = elements page_editable) /\
  (exists pg1 pg2 f,
      expandSnippet 1 "hello" (Num 4) (Num 10)
                    (Resolves (Some {| resolved := "Hi example.com!";
                                       tokens := 4 |})) 7
                    page_textarea = (Ok tt, pg1) /\
      undoLastExpansion pg1 = (Ok tt, pg2) /\
      elements pg2 !! 1 = Some (Field f) /\
      value f = "say :hello" /\
      selectionStart f = 10 /\ selectionEnd f = 10).
Proof.
  split; [|split; [|split]].
  - intros pg record rest e Hh Hel. unfold undoLastExpansion. run_script.
    rewrite Hh. simpl. rewrite Hel. eexists _, _.
    split; [reflexivity|]. simpl.
    split; [apply lookup_insert_eq|]. split; [reflexivity|].
    split; [apply textContent_set_textContent|].
    unfold set_textContent.
    assert (R : forall r,
               sel {| root := r;
                      sel := match sel e with
                             | SelNone => SelNone
                             | _ => SelElement 0
                             end |} = SelNone \/
               caret_offset {| root := r;
                               sel := match sel e with
                                      | SelNone => SelNone
                                      | _ => SelElement 0
                                      end |} = Some 0).
    { intros r. unfold caret_offset. simpl. destruct (sel e); auto. }
    destruct (root e) as [d|[|[data|c] [|c' cs]]]; try (right; apply R).
    destruct (Strings.String.eqb data (originalText record)
              && negb (is_empty (originalText record)));
      [now left | right; apply R].
  - eexists _, _, _, _, _.
    split; [reflexivity|].
    split; [vm_compute; reflexivity|].
    split; [vm_compute; reflexivity|].
    split; [vm_compute; reflexivity|].
    split; [vm_compute; reflexivity|].
    split; [reflexivity|]. split; [reflexivity|].
    split; [vm_compute; reflexivity|].
    split; [vm_compute; reflexivity|].
    split; reflexivity.
  - eexists _, _, _.
    split; [vm_compute; reflexivity|].
    split; [vm_compute; reflexivity|].
    split; [vm_compute; reflexivity|]. vm_compute. reflexivity.
  - eexists _, _, _.
    split; [vm_compute; reflexivity|].
    split; [vm_compute; reflexivity|].
    split; [vm_compute; reflexivity|].
    split; [reflexivity|]. split; reflexivity.
Qed.

End ControllerFacts.

(** ** The variable resolver: placeholders of unknown keys *)

#[local] Arguments Ascii.eqb : simpl never.

Module ResolverUnknown.
Import JsString StringFacts Resolver ResolverSubstitution.

Lemma includes_startsWith (s needle : string) :
  startsWith s needle = true -> includes s needle = true.
Proof. intros H. destruct s; simpl; now rewrite H. Qed.

Lemma includes_cons (c : ascii) (s needle : string) :
  includes s needle = true -> includes (String c s) needle = true.
Proof. intros H. simpl. rewrite H. apply orb_true_r. Qed.

Lemma includes_append_r (a b needle : string) :
  includes b needle = true -> includes (a +:+ b) needle = true.
Proof.
  intros H. induction a as [|c a IH]; simpl; [exact H|].
  change (includes (a +:+ b) needle) with (includes (a +:+ b) needle).
  rewrite IH. apply orb_true_r.
Qed.

Lemma plain_key_brace_free (key : string) : plain_key key -> brace_free key.
Proof.
  unfold plain_key, brace_free. induction key as [|c key IH]; simpl;
    [reflexivity|].
  intros H. apply andb_true_iff in H as [Hc H]. rewrite (IH H), andb_true_r.
  apply negb_true_iff. apply negb_true_iff in Hc.
  destruct (Ascii.eqb c "{") eqn:E1.
  { apply Ascii.eqb_eq in E1; subst c. discriminate Hc. }
  destruct (Ascii.eqb c "}") eqn:E2; [|reflexivity].
  apply Ascii.eqb_eq in E2; subst c. discriminate Hc.
Qed.

Lemma brace_free_cons (c : ascii) (key : string) :
  brace_free (String c key) ->
  c <> "{"%char /\ c <> "}"%char /\ brace_free key.
Proof.
  unfold brace_free. simpl. intros H.
  apply andb_true_iff in H as [Hc H]. apply negb_true_iff in Hc.
  apply orb_false_iff in Hc as [H1 H2].
  apply Ascii.eqb_neq in H1, H2. auto.
Qed.

(** Two names without braces, each followed by the closing braces: where
    one stands the other stands only if they are equal. *)
Lemma closed_names_agree (key : string) :
  forall k rest,
    brace_free key -> brace_free k ->
    strip (key +:+ "}}") (k +:+ "}}" +:+ rest) <> None ->
    key = k.
Proof.
  induction key as [|c key IH]; intros k rest Hkey Hk H.
  - destruct k as [|d k]; [reflexivity|].
    apply brace_free_cons in Hk as (_ & Hd & _). simpl in H.
    destruct (Ascii.eqb "}" d) eqn:E; [|congruence].
    apply Ascii.eqb_eq in E. congruence.
  - apply brace_free_cons in Hkey as (_ & Hc & Hkey).
    destruct k as [|d k]; simpl in H.
    + destruct (Ascii.eqb c "}") eqn:E; [|congruence].
      apply Ascii.eqb_eq in E. congruence.
    + apply brace_free_cons in Hk as (_ & _ & Hk).
      destruct (Ascii.eqb c d) eqn:E; [|congruence].
      apply Ascii.eqb_eq in E; subst d. f_equal. now apply (IH k rest).
Qed.

Lemma placeholder_unfold (key rest : string) :
  placeholder key +:+ rest
  = String "{" (String "{" (key +:+ "}}" +:+ rest)).
Proof.
  unfold placeholder. rewrite !append_assoc. reflexivity.
Qed.

Lemma placeholder_head (key : string) :
  placeholder key = String "{" (String "{" (key +:+ "}}")).
Proof. reflexivity. Qed.

(** The placeholder of one key does not stand where that of another
    stands. *)
Lemma placeholders_differ (key k rest : string) :
  brace_free key -> brace_free k -> key <> k ->
  startsWith (placeholder k +:+ rest) (placeholder key) = false.
Proof.
  intros Hkey Hk Hne. rewrite placeholder_unfold, placeholder_head.
  unfold startsWith. cbn [strip]. rewrite !Ascii.eqb_refl.
  destruct (strip (key +:+ "}}") (k +:+ "}}" +:+ rest)) eqn:E;
    [|reflexivity].
  exfalso. apply Hne. apply (closed_names_agree key k rest Hkey Hk).
  now rewrite E.
Qed.

(** No placeholder stands at a character that is not an opening brace. *)
Lemma no_placeholder_at_other_char (key : string) (c : ascii) (s : string) :
  c <> "{"%char -> startsWith (String c s) (placeholder key) = false.
Proof.
  intros Hc. rewrite placeholder_head. unfold startsWith. cbn [strip].
  destruct (Ascii.eqb "{" c) eqn:E; [|reflexivity].
  apply Ascii.eqb_eq in E. congruence.
Qed.

(** Nor at an opening brace that is not followed by another one. *)
Lemma no_placeholder_at_single_brace (key : string) (c : ascii) (s : string) :
  c <> "{"%char ->
  startsWith (String "{" (String c s)) (placeholder key) = false.
Proof.
  intros Hc. rewrite placeholder_head. unfold startsWith. cbn [strip].
  rewrite Ascii.eqb_refl.
  destruct (Ascii.eqb "{" c) eqn:E; [|reflexivity].
  apply Ascii.eqb_eq in E. congruence.
Qed.

Section Scan.

Variables (key replacement whole : string).

#[local] Abbreviation scan :=
  (replace_go (literal (placeholder key)) replacement whole).

(** Where the placeholder of the key does not stand the scan copies the
    character. *)
Lemma replace_go_copies (pos : nat) (c : ascii) (s : string) :
  startsWith (String c s) (placeholder key) = false ->
  scan pos 0 (String c s)
  = String c (scan (S pos) 0 s).
Proof.
  intros H. cbn [replace_go]. rewrite match_here_literal.
  unfold startsWith in H.
  now destruct (strip (placeholder key) (String c s)).
Qed.

(** Where it stands the scan goes on behind it. *)
Lemma replace_go_replaces (pos : nat) (rest : string) :
  exists substitution,
    scan pos 0 (placeholder key +:+ rest)
    = substitution +:+ scan (pos + len (placeholder key)) 0 rest.
Proof.
  set (needle := placeholder key).
  assert (HN : needle = String "{" (String "{" (key +:+ "}}")))
    by reflexivity.
  assert (E : needle +:+ rest
              = String "{" (String "{" (key +:+ "}}") +:+ rest))
    by (rewrite HN; reflexivity).
  rewrite E. cbn [replace_go]. rewrite <- E.
  fold needle. rewrite match_here_literal, strip_append.
  eexists. f_equal. rewrite replace_go_skip.
  replace (len needle - 1) with (len (String "{" (key +:+ "}}")))
    by (rewrite HN; simpl; lia).
  rewrite drop_append. f_equal. rewrite HN. simpl. lia.
Qed.

(** A run of characters without braces is copied. *)
Lemma replace_go_copies_name (k : string) :
  brace_free k ->
  forall pos rest,
    scan pos 0 (k +:+ rest)
    = k +:+ scan (pos + len k) 0 rest.
Proof.
  induction k as [|c k IH]; intros Hk pos rest.
  - simpl. now rewrite Nat.add_0_r.
  - apply brace_free_cons in Hk as (Hc & _ & Hk).
    change (String c k +:+ rest) with (String c (k +:+ rest)).
    rewrite replace_go_copies by now apply no_placeholder_at_other_char.
    rewrite (IH Hk). simpl len. now rewrite Nat.add_succ_r.
Qed.

(** The placeholder of another key is copied as a whole. *)
Lemma replace_go_copies_placeholder (k : string) (pos : nat) (rest : string) :
  brace_free key -> brace_free k -> key <> k ->
  scan pos 0 (placeholder k +:+ rest)
  = placeholder k +:+ scan (pos + len (placeholder k)) 0 rest.
Proof.
  intros Hkey Hk Hne.
  pose proof (placeholders_differ key k rest Hkey Hk Hne) as H0.
  rewrite placeholder_unfold in *.
  rewrite replace_go_copies by exact H0.
  assert (H1 : startsWith (String "{" (k +:+ "}}" +:+ rest))
                          (placeholder key) = false).
  { destruct k as [|d k].
    - now apply no_placeholder_at_single_brace.
    - apply brace_free_cons in Hk as (Hd & _ & _).
      now apply no_placeholder_at_single_brace. }
  rewrite replace_go_copies by exact H1.
  rewrite (replace_go_copies_name k Hk).
  change ("}}" +:+ rest) with (String "}" (String "}" rest)).
  rewrite replace_go_copies
    by (apply no_placeholder_at_other_char; discriminate).
  rewrite replace_go_copies
    by (apply no_placeholder_at_other_char; discriminate).
  rewrite (placeholder_head k).
  change (String "{" (String "{" (k +:+ "}}")) +:+ ?x)
    with (String "{" (String "{" ((k +:+ "}}") +:+ x))).
  rewrite append_assoc.
  change ("}}" +:+ ?x) with (String "}" (String "}" x)).
  do 3 f_equal. f_equal. f_equal. f_equal.
  simpl. rewrite len_append. simpl. lia.
Qed.

End Scan.

(** An occurrence of the placeholder of [k] in a text that begins with the
    placeholder of another key lies behind that placeholder. *)
Lemma occurrence_behind_placeholder (key k rest : string) :
  brace_free key -> brace_free k -> key <> k ->
  includes (placeholder key +:+ rest) (placeholder k) = true ->
  includes rest (placeholder k) = true.
Proof.
  intros Hkey Hk Hne.
  pose proof (placeholders_differ k key rest Hk Hkey (not_eq_sym Hne)) as H0.
  rewrite placeholder_unfold in *.
  cbn [includes]. rewrite H0. cbn [orb].
  assert (H1 : startsWith (String "{" (key +:+ "}}" +:+ rest))
                          (placeholder k) = false).
  { destruct key as [|d key].
    - now apply no_placeholder_at_single_brace.
    - apply brace_free_cons in Hkey as (Hd & _ & _).
      now apply no_placeholder_at_single_brace. }
  rewrite H1. cbn [orb].
  assert (N : forall name t,
             brace_free name ->
             includes (name +:+ t) (placeholder k) = includes t (placeholder k)).
  { induction name as [|c name IH]; intros t Hn; [reflexivity|].
    apply brace_free_cons in Hn as (Hc & _ & Hn).
    change (String c name +:+ t) with (String c (name +:+ t)).
    cbn [includes].
    rewrite (no_placeholder_at_other_char k c _ Hc). cbn [orb].
    now apply IH. }
  rewrite (N key _ Hkey).
  change ("}}" +:+ rest) with (String "}" (String "}" rest)).
  cbn [includes].
  rewrite !no_placeholder_at_other_char by discriminate. cbn [orb].
  trivial.
Qed.

(** One substitution for a key keeps the placeholders of the other keys:
    where the text holds the placeholder of [k], so does the result, whatever
    the replacement. *)
Lemma replace_keeps_other_placeholder (key k replacement whole : string) :
  brace_free key -> brace_free k -> key <> k ->
  forall n s pos,
    len s <= n ->
    includes s (placeholder k) = true ->
    includes (replace_go (literal (placeholder key)) replacement whole pos 0 s)
             (placeholder k) = true.
Proof.
  intros Hkey Hk Hne. induction n as [|n IH]; intros s pos Hlen Hinc.
  - destruct s; [discriminate Hinc | simpl in Hlen; lia].
  - destruct s as [|c s]; [discriminate Hinc|].
    destruct (startsWith (String c s) (placeholder k)) eqn:Here.
    + apply startsWith_true in Here as [rest ->].
      rewrite (replace_go_copies_placeholder key replacement whole k pos rest
                 Hkey Hk Hne).
      apply includes_startsWith, startsWith_append.
    + cbn [includes] in Hinc. rewrite Here in Hinc. cbn [orb] in Hinc.
      destruct (startsWith (String c s) (placeholder key)) eqn:Match.
      * apply startsWith_true in Match as [rest E]. rewrite E.
        destruct (replace_go_replaces key replacement whole pos rest)
          as [substitution ->].
        apply includes_append_r. apply IH.
        -- apply (f_equal len) in E. rewrite len_append in E.
           simpl in E, Hlen. lia.
        -- apply (occurrence_behind_placeholder key k rest Hkey Hk Hne).
           rewrite <- E. now apply includes_cons.
      * rewrite (replace_go_copies key replacement whole pos c s Match).
        apply includes_cons. apply IH; [simpl in Hlen; lia | exact Hinc].
Qed.

Lemma substitute_keeps_other_placeholder
    (key : string) (v : jsval) (k text : string) :
  plain_key key -> brace_free k -> key <> k ->
  includes text (placeholder k) = true ->
  exists out,
    substitute text (key, v) = Some out /\
    includes out (placeholder k) = true.
Proof.
  intros Hkey Hk Hne Hinc. unfold substitute. cbn [fst snd].
  rewrite (placeholder_pattern_plain key Hkey).
  eexists. split; [reflexivity|]. unfold replace.
  apply (replace_keeps_other_placeholder key k _ _
           (plain_key_brace_free key Hkey) Hk Hne (len text)); [lia|exact Hinc].
Qed.

(** A pass over keys that are all plain and other than [k]. *)
Lemma pass_keeps_other_placeholder
    (entries : list (string * jsval)) (k : string) :
  Forall (fun kv => plain_key (fst kv) /\ fst kv <> k) entries ->
  brace_free k ->
  forall text,
    includes text (placeholder k) = true ->
    exists out,
      pass entries text = Some out /\ includes out (placeholder k) = true.
Proof.
  intros Hall Hk. induction Hall as [|[key v] entries [Hkey Hne] _ IH];
    intros text Hinc.
  - exists text. now split.
  - cbn [fst] in *.
    destruct (substitute_keeps_other_placeholder key v k text Hkey Hk Hne Hinc)
      as (out & E & I).
    cbn [pass]. rewrite E. now apply IH.
Qed.

(** The loop over such passes. *)
Lemma run_passes_keeps_other_placeholder
    (entries : list (string * jsval)) (k : string) (fuel : nat) :
  Forall (fun kv => plain_key (fst kv) /\ fst kv <> k) entries ->
  brace_free k ->
  forall text iterations passes,
    maxIterations <= iterations + fuel ->
    includes text (placeholder k) = true ->
    exists out n,
      run_passes (pass entries) fuel text iterations passes = Done (out, n) /\
      includes out (placeholder k) = true.
Proof.
  intros Hall Hk. induction fuel as [|fuel IH];
    intros text iterations passes Hfuel Hinc; simpl.
  - replace (iterations <? maxIterations) with false
      by (symmetry; apply Nat.ltb_ge; lia).
    rewrite andb_false_r. now exists text, passes.
  - destruct (includes text "{{" && (iterations <? maxIterations));
      [|now exists text, passes].
    destruct (pass_keeps_other_placeholder entries k Hall Hk text Hinc)
      as (out & E & I).
    rewrite E. destruct (Strings.String.eqb out text).
    + now exists out, (S passes).
    + apply IH; [lia | exact I].
Qed.

(** *** The keys of the table *)

Lemma In_insert_index (kv x : string * jsval) (l : list (string * jsval)) :
  In kv (insert_index x l) -> kv = x \/ In kv l.
Proof.
  induction l as [|y l IH]; simpl.
  - intros [H|[]]; auto.
  - destruct (digits_value 0 (fst x) <? digits_value 0 (fst y))%N; simpl.
    + intros [H|[H|H]]; auto.
    + intros [H|H]; auto. destruct (IH H); auto.
Qed.

Lemma In_own_entries (kv : string * jsval) (obj : list (string * jsval)) :
  In kv (own_entries obj) -> In kv obj.
Proof.
  unfold own_entries. intros H. apply in_app_or in H as [H|H].
  - assert (G : forall l, In kv (fold_right insert_index [] l) -> In kv l).
    { induction l as [|x l IH]; simpl; [auto|].
      intros Hx. apply In_insert_index in Hx as [Hx|Hx]; auto. }
    apply G in H. now apply List.filter_In in H as [H _].
  - now apply List.filter_In in H as [H _].
Qed.

Lemma keys_obj_set (obj : list (string * jsval)) (key k : string) (v : jsval) :
  In k (map fst (obj_set obj key v)) -> k = key \/ In k (map fst obj).
Proof.
  induction obj as [|[k' w] obj IH]; simpl.
  - intros [H|[]]; auto.
  - destruct (Strings.String.eqb k' key); simpl.
    + intros [H|H]; auto.
    + intros [H|H]; auto. destruct (IH H); auto.
Qed.

Lemma keys_spread (src obj : list (string * jsval)) (k : string) :
  In k (map fst (spread obj src)) ->
  In k (map fst obj) \/ In k (map fst src).
Proof.
  unfold spread. revert obj. induction src as [|[key v] src IH]; intros obj;
    simpl; [auto|].
  intros H. apply IH in H as [H|H]; [|auto].
  apply keys_obj_set in H as [H|H]; auto.
Qed.

Lemma keys_variables (now : clock) (ctx : context) (k : string) :
  In k (map fst (own_entries (variables now ctx))) ->
  In k ambient_keys \/ In k (map fst (formData ctx)).
Proof.
  intros H. apply in_map_iff in H as (kv & <- & H).
  apply In_own_entries in H.
  assert (Hmap : In (fst kv) (map fst (variables now ctx)))
    by (apply in_map_iff; now exists kv).
  unfold variables in Hmap.
  apply keys_spread in Hmap as [Ha|Hf]; [left; exact Ha | right; exact Hf].
Qed.

Lemma ambient_keys_plain (k : string) : In k ambient_keys -> plain_key k.
Proof.
  unfold ambient_keys. simpl.
  intros [<-|[<-|[<-|[<-|[<-|[<-|[<-|[<-|[]]]]]]]]]; reflexivity.
Qed.

(** X2. With form fields whose names hold no syntax character of the pattern
    language, the placeholder of a key that is neither an ambient key nor a
    form field is still in the output of the resolver. *)
Lemma unknown_placeholder_survives_plain_keys
    (now : clock) (text : string) (ctx : context) (k : string) :
  Forall (fun kv => plain_key (fst kv)) (formData ctx) ->
  ~ In k ambient_keys ->
  ~ In k (map fst (formData ctx)) ->
  brace_free k ->
  includes text (placeholder k) = true ->
  exists out,
    resolveVariables maxIterations now text ctx = Done out /\
    includes out (placeholder k) = true.
Proof.
  intros Hform Hamb Hnot Hk Hinc.
  assert (Hall : Forall (fun kv => plain_key (fst kv) /\ fst kv <> k)
                        (own_entries (variables now ctx))).
  { apply List.Forall_forall. intros kv Hkv.
    assert (Hin : In (fst kv) (map fst (own_entries (variables now ctx))))
      by (apply in_map_iff; now exists kv).
    apply keys_variables in Hin as [Ha|Hf].
    - split; [now apply ambient_keys_plain | congruence].
    - split; [|congruence].
      apply in_map_iff in Hf as (kv' & E & Hf). rewrite <- E.
      rewrite List.Forall_forall in Hform. now apply Hform. }
  destruct (run_passes_keeps_other_placeholder _ k maxIterations Hall Hk
              text 0 0 (Nat.le_refl _) Hinc) as (out & n & E & I).
  exists out. split; [|exact I].
  unfold resolveVariables, resolveVariables_passes, resolve_loop.
  now rewrite E.
Qed.

End ResolverUnknown.

(** ** Dollars in the value of a variable *)

Module ResolverDollar.
Import JsString StringFacts Resolver Examples Scenarios.

(** C3. The value of a known key does not always reach the output as it
    is: [replace] is given the value as its replacement text and reads a
    dollar in it as the start of a substitution. Whatever the clock and the
    other fields of the context, a clipboard that holds [$$5] is resolved to
    [$5], alone and inside a text; a clipboard that holds [$&] is resolved
    to the matched text, so the placeholder stays where it was; and a
    clipboard that holds a dollar and a single quote is resolved to the text
    behind the placeholder, which is then there twice. The statement of the
    specification, that the output holds the value as it is, fails on the
    first. *)
Theorem dollar_in_value_is_not_verbatim
    (now : clock) (title url selected host : jsval) :
  resolveVariables maxIterations now "{{clipboard}}"
    (ctx_with_clipboard title url selected host "$$5") = Done "$5" /\
  resolveVariables maxIterations now "Cost: {{clipboard}}"
    (ctx_with_clipboard title url selected host "$$5") = Done "Cost: $5" /\
  resolveVariables maxIterations now "{{clipboard}}"
    (ctx_with_clipboard title url selected host "$&") = Done "{{clipboard}}" /\
  resolveVariables maxIterations now "[{{clipboard}}] end"
    (ctx_with_clipboard title url selected host "$'") = Done "[] end] end" /\
  ~ value_verbatim now "{{clipboard}}"
      (ctx_with_clipboard title url selected host "$$5")
      "clipboard" (VStr "$$5").
Proof.
  split; [reflexivity|]. split; [reflexivity|]. split; [reflexivity|].
  split; [reflexivity|].
  intros H. destruct H as (out & E & I).
  - vm_compute. do 6 right. left. reflexivity.
  - reflexivity.
  - assert (O : out = "$5") by (cbv in E; congruence).
    subst out. discriminate I.
Qed.

End ResolverDollar.

(** ** More on the variable resolver *)

Module ResolverMore.
Import JsString StringFacts Resolver ResolverLoop ResolverUnknown Table
  Examples Scenarios.

(** X1. A text without an opening pair of braces is returned as it is,
    without a single pass, whatever the context and its form fields; so
    resolving again an output that holds no opening pair of braces changes
    nothing. *)
Theorem text_without_braces_is_returned
    (fuel : nat) (now : clock) (text : string) (ctx : context) :
  includes text "{{" = false ->
  resolveVariables_passes fuel now text ctx = Done (text, 0) /\
  resolveVariables fuel now text ctx = Done text.
Proof.
  intros H.
  assert (E : resolveVariables_passes fuel now text ctx = Done (text, 0)).
  { unfold resolveVariables_passes, resolve_loop.
    now apply run_passes_without_braces. }
  split; [exact E|]. unfold resolveVariables. now rewrite E.
Qed.

Lemma text_without_braces_is_returned_witness :
  resolveVariables_passes 0 clock0 "Hello! How can I assist you today?"
                          ctx_dotted_field
  = Done ("Hello! How can I assist you today?", 0) /\
  resolveVariables 0 clock0 "Hello! How can I assist you today?"
                   ctx_dotted_field
  = Done "Hello! How can I assist you today?".
Proof.
  apply (text_without_braces_is_returned 0 clock0
           "Hello! How can I assist you today?" ctx_dotted_field).
  reflexivity.
Defined.

Lemma unknown_placeholder_survives_plain_keys_witness :
  exists out,
    resolveVariables maxIterations clock0 "{{name}} at {{domain}}"
                     ctx_clipboard_placeholder = Done out /\
    includes out (placeholder "name") = true.
Proof.
  apply (unknown_placeholder_survives_plain_keys clock0
           "{{name}} at {{domain}}" ctx_clipboard_placeholder "name").
  - constructor.
  - unfold ambient_keys. simpl. intuition discriminate.
  - simpl. tauto.
  - reflexivity.
  - reflexivity.
Defined.

(** *** The table as a dictionary *)

Lemma lookup_obj_set (obj : list (string * jsval)) (key k : string)
    (v : jsval) :
  lookup_key k (obj_set obj key v) =
  if Strings.String.eqb key k then Some v else lookup_key k obj.
Proof.
  induction obj as [|[k0 w] obj IH]; simpl.
  - reflexivity.
  - destruct (Strings.String.eqb k0 key) eqn:E; simpl.
    + apply Strings.String.eqb_eq in E; subst k0.
      now destruct (Strings.String.eqb key k).
    + destruct (Strings.String.eqb k0 k) eqn:E'.
      * apply Strings.String.eqb_eq in E'; subst k0.
        rewrite Strings.String.eqb_sym in E. now rewrite E.
      * exact IH.
Qed.

Lemma keys_obj_set_NoDup (obj : list (string * jsval)) (key : string)
    (v : jsval) :
  List.NoDup (map fst obj) -> List.NoDup (map fst (obj_set obj key v)).
Proof.
  induction obj as [|[k0 w] obj IH]; simpl; intros H.
  - apply NoDup_cons_iff. split; [intros [] | apply List.NoDup_nil].
  - destruct (Strings.String.eqb k0 key) eqn:E; simpl; [exact H|].
    apply NoDup_cons_iff in H as [Hn H]. apply NoDup_cons_iff. split.
    + intros Hin. apply keys_obj_set in Hin as [->|Hin]; [|auto].
      now rewrite Strings.String.eqb_refl in E.
    + now apply IH.
Qed.

Lemma lookup_app (k : string) (a b : list (string * jsval)) :
  lookup_key k (a ++ b) =
  match lookup_key k a with Some v => Some v | None => lookup_key k b end.
Proof.
  induction a as [|[k0 w] a IH]; simpl; [reflexivity|].
  now destruct (Strings.String.eqb k0 k).
Qed.

Lemma spread_NoDup (src obj : list (string * jsval)) :
  List.NoDup (map fst obj) -> List.NoDup (map fst (spread obj src)).
Proof.
  unfold spread. revert obj. induction src as [|[k v] src IH]; intros obj H;
    simpl; [exact H|].
  apply IH. now apply keys_obj_set_NoDup.
Qed.

(** In a spread the later entry of a key wins, and a key the source does
    not have keeps its value. *)
Lemma lookup_spread (src obj : list (string * jsval)) (k : string) :
  lookup_key k (spread obj src) =
  match lookup_key k (rev src) with
  | Some v => Some v
  | None => lookup_key k obj
  end.
Proof.
  unfold spread. revert obj. induction src as [|[k1 v1] src IH]; intros obj;
    simpl; [reflexivity|].
  rewrite IH, lookup_app, lookup_obj_set. simpl.
  destruct (lookup_key k (rev src)); [reflexivity|].
  now destruct (Strings.String.eqb k1 k).
Qed.

Lemma insert_index_Permutation (x : string * jsval)
    (l : list (string * jsval)) :
  Permutation (insert_index x l) (x :: l).
Proof.
  induction l as [|y l IH]; simpl; [reflexivity|].
  destruct (digits_value 0 (fst x) <? digits_value 0 (fst y))%N;
    [reflexivity|].
  rewrite IH. apply perm_swap.
Qed.

Lemma own_entries_Permutation (obj : list (string * jsval)) :
  Permutation (own_entries obj) obj.
Proof.
  unfold own_entries.
  assert (S : forall l, Permutation (fold_right insert_index [] l) l).
  { induction l as [|x l IH]; simpl; [reflexivity|].
    rewrite insert_index_Permutation. now constructor. }
  rewrite S. clear S.
  induction obj as [|x obj IH]; simpl; [reflexivity|].
  destruct (is_array_index (fst x)); simpl.
  - now constructor.
  - rewrite <- Permutation_middle. now constructor.
Qed.

Lemma lookup_key_In (k : string) (v : jsval) (l : list (string * jsval)) :
  List.NoDup (map fst l) -> (lookup_key k l = Some v <-> In (k, v) l).
Proof.
  induction l as [|[k0 w] l IH]; simpl; intros H.
  - split; [discriminate | tauto].
  - apply NoDup_cons_iff in H as [Hn H].
    destruct (Strings.String.eqb k0 k) eqn:E.
    + apply Strings.String.eqb_eq in E; subst k0. split.
      * intros Hv; inversion Hv; auto.
      * intros [Hv|Hv]; [now inversion Hv|].
        exfalso. apply Hn. apply in_map_iff. now exists (k, v).
    + rewrite (IH H). split; [auto|].
      intros [Hv|Hv]; [|exact Hv].
      inversion Hv; subst. now rewrite Strings.String.eqb_refl in E.
Qed.

Lemma lookup_key_Permutation (k : string) (l l' : list (string * jsval)) :
  List.NoDup (map fst l) -> Permutation l l' ->
  lookup_key k l = lookup_key k l'.
Proof.
  intros H P.
  assert (H' : List.NoDup (map fst l'))
    by (eapply Permutation_NoDup; [apply Permutation_map; exact P | exact H]).
  destruct (lookup_key k l) as [v|] eqn:E.
  - symmetry. apply (lookup_key_In k v l' H').
    apply (Permutation_in _ P). now apply (lookup_key_In k v l H).
  - destruct (lookup_key k l') as [v|] eqn:E'; [|reflexivity].
    apply (lookup_key_In k v l' H') in E'.
    apply (Permutation_in _ (Permutation_sym P)) in E'.
    apply (lookup_key_In k v l H) in E'. congruence.
Qed.

(** X3. The table of variables has every key once, so each pass makes one
    substitution per key; a form field takes the place of the ambient
    variable of the same name, the last of several fields of one name
    wins, and every other ambient variable keeps its value. *)
Theorem variables_table_is_a_dictionary
    (now : clock) (ctx : context) (k : string) :
  List.NoDup (map fst (own_entries (variables now ctx))) /\
  lookup_key k (own_entries (variables now ctx)) =
  match lookup_key k (rev (formData ctx)) with
  | Some v => Some v
  | None => lookup_key k (ambient now ctx)
  end.
Proof.
  assert (A : List.NoDup (map fst (ambient now ctx))).
  { unfold ambient. simpl.
    repeat (apply NoDup_cons_iff; split;
            [simpl; intuition discriminate|]).
    apply List.NoDup_nil. }
  assert (V : List.NoDup (map fst (variables now ctx)))
    by (apply (spread_NoDup (formData ctx) (ambient now ctx) A)).
  split.
  - eapply Permutation_NoDup; [|exact V].
    apply Permutation_map, Permutation_sym, own_entries_Permutation.
  - rewrite <- (lookup_spread (formData ctx) (ambient now ctx) k).
    symmetry. apply lookup_key_Permutation; [exact V|].
    apply Permutation_sym, own_entries_Permutation.
Qed.

(** X6. The token estimate is the length divided by four and rounded up:
    the least number whose fourfold reaches the length; it passes the
    threshold of the notification, 100, exactly for texts longer than 400
    characters. *)
Theorem estimateTokens_rounds_up (text : string) :
  len text <= 4 * estimateTokens text /\
  4 * estimateTokens text < len text + 4 /\
  (estimateTokens text = 0 <-> text = "") /\
  ((100 <? estimateTokens text) = true <-> 400 < len text).
Proof.
  unfold estimateTokens.
  pose proof (Nat.div_mod_eq (len text + 3) 4) as D.
  pose proof (Nat.mod_upper_bound (len text + 3) 4) as U.
  split; [lia|]. split; [lia|]. split.
  - split.
    + intros H. destruct text; [reflexivity|]. simpl in *. lia.
    + intros ->. reflexivity.
  - rewrite Nat.ltb_lt. lia.
Qed.

End ResolverMore.

(** ** The resolver on snippets in segments *)

Module SnippetFacts.
Import JsString StringFacts Resolver ResolverLoop ResolverSubstitution
  ResolverUnknown Table Snippet Examples Scenarios.

(** Where the placeholder of the key stands, a value without dollars takes
    its place. *)
Lemma replace_go_here (key value whole : string) (pos : nat) (rest : string) :
  dollar_free value ->
  replace_go (literal (placeholder key)) value whole pos 0
             (placeholder key +:+ rest)
  = value +:+ replace_go (literal (placeholder key)) value whole
                         (pos + len (placeholder key)) 0 rest.
Proof.
  intros Hv. set (needle := placeholder key).
  assert (HN : needle = String "{" (String "{" (key +:+ "}}")))
    by reflexivity.
  assert (E : needle +:+ rest
              = String "{" (String "{" (key +:+ "}}") +:+ rest))
    by (rewrite HN; reflexivity).
  rewrite E. cbn [replace_go]. rewrite <- E.
  rewrite match_here_literal, strip_append.
  rewrite (get_substitution_dollar_free _ _ _ _ Hv).
  f_equal. rewrite replace_go_skip.
  replace (len needle - 1) with (len (String "{" (key +:+ "}}")))
    by (rewrite HN; simpl; lia).
  rewrite drop_append. f_equal. rewrite HN. simpl. lia.
Qed.

(** One [replace] over a content in segments works segment by segment. *)
Lemma replace_go_render (key value whole : string) :
  brace_free key -> dollar_free value ->
  forall segments pos,
    well_formed segments ->
    replace_go (literal (placeholder key)) value whole pos 0 (render segments)
    = render (map (fill_hole key value) segments).
Proof.
  intros Hkey Hv segments.
  induction segments as [|[s|k] segments IH]; intros pos Hwf;
    [reflexivity| |]; inversion Hwf as [|seg segs Hseg Hrest]; subst;
    cbn [render map fill_hole].
  - rewrite (replace_go_copies_name key value whole s Hseg).
    now rewrite IH.
  - destruct (Strings.String.eqb key k) eqn:E.
    + apply Strings.String.eqb_eq in E; subst k.
      rewrite (replace_go_here key value whole pos _ Hv).
      cbn [render]. now rewrite IH.
    + apply Strings.String.eqb_neq in E.
      rewrite (replace_go_copies_placeholder key value whole k pos _
                 Hkey Hseg E).
      cbn [render]. now rewrite IH.
Qed.

Lemma well_formed_fill_hole (key value : string) (segments : list segment) :
  brace_free value -> well_formed segments ->
  well_formed (map (fill_hole key value) segments).
Proof.
  intros Hv Hwf. induction Hwf as [|[s|k] segments Hseg _ IH]; cbn [map];
    constructor; try exact IH.
  - exact Hseg.
  - cbn [fill_hole]. now destruct (Strings.String.eqb key k).
Qed.

(** A pass over a content in segments. *)
Lemma pass_render (table : list (string * jsval)) :
  plain_table table ->
  forall segments,
    well_formed segments ->
    pass table (render segments) = Some (render (fill_all table segments)) /\
    well_formed (fill_all table segments).
Proof.
  intros Ht. induction Ht as [|[key v] table (Hkey & Hb & Hd) _ IH];
    intros segments Hwf; [now split|].
  cbn [fst snd] in *. cbn [pass]. unfold substitute. cbn [fst snd].
  rewrite (placeholder_pattern_plain key Hkey). unfold replace.
  rewrite (replace_go_render key _ _ (plain_key_brace_free key Hkey) Hd
             segments 0 Hwf).
  apply (IH (map (fill_hole key (to_string (or_empty v))) segments)).
  now apply well_formed_fill_hole.
Qed.

Lemma fill_nil (segments : list segment) : fill [] segments = render segments.
Proof.
  induction segments as [|[s|k] segments IH]; cbn [fill render lookup_key];
    now rewrite ?IH.
Qed.

Lemma fill_cons (key : string) (v : jsval) (table : list (string * jsval))
    (segments : list segment) :
  fill ((key, v) :: table) segments
  = fill table (map (fill_hole key (to_string (or_empty v))) segments).
Proof.
  induction segments as [|[s|k] segments IH];
    cbn [fill map fill_hole lookup_key]; [reflexivity | now rewrite IH |].
  destruct (Strings.String.eqb key k); cbn [fill]; now rewrite IH.
Qed.

(** What a pass gives is the content filled from the table. *)
Lemma render_fill_all (table : list (string * jsval)) :
  forall segments, render (fill_all table segments) = fill table segments.
Proof.
  induction table as [|[key v] table IH]; intros segments.
  - symmetry. apply fill_nil.
  - rewrite fill_cons. apply IH.
Qed.

Lemma settled_fill (table : list (string * jsval)) (segments : list segment) :
  settled table segments -> fill table segments = render segments.
Proof.
  intros H. induction H as [|[s|k] segments Hseg _ IH]; cbn [fill render];
    [reflexivity | now rewrite IH |].
  now rewrite Hseg, IH.
Qed.

(** The placeholders a pass leaves are among those it found, and none of
    them has a key of the table. *)
Lemma holes_fill_hole (key value k : string) (segments : list segment) :
  In (Hole k) (map (fill_hole key value) segments) ->
  In (Hole k) segments /\ key <> k.
Proof.
  induction segments as [|[s|k'] segments IH]; cbn [map fill_hole In].
  - tauto.
  - intros [H|H]; [discriminate | destruct (IH H); auto].
  - destruct (Strings.String.eqb key k') eqn:E.
    + intros [H|H]; [discriminate | destruct (IH H); auto].
    + apply Strings.String.eqb_neq in E.
      intros [H|H]; [inversion H; subst; auto | destruct (IH H); auto].
Qed.

Lemma holes_fill_all (table : list (string * jsval)) (k : string) :
  forall segments,
    In (Hole k) (fill_all table segments) ->
    In (Hole k) segments /\ lookup_key k table = None.
Proof.
  induction table as [|[key v] table IH]; intros segments H.
  - now split.
  - apply IH in H as [H L]. apply holes_fill_hole in H as [H Hne].
    cbn [fst] in Hne. split; [exact H|]. cbn [lookup_key]. rewrite L.
    apply Strings.String.eqb_neq in Hne. now rewrite Hne.
Qed.

Lemma settled_fill_all (table : list (string * jsval))
    (segments : list segment) :
  settled table (fill_all table segments).
Proof.
  apply List.Forall_forall. intros [s|k] H; [exact I|].
  now apply holes_fill_all in H.
Qed.

(** A content without an opening pair of braces has no placeholder. *)
Lemma render_without_braces (table : list (string * jsval))
    (segments : list segment) :
  includes (render segments) "{{" = false ->
  fill table segments = render segments.
Proof.
  induction segments as [|[s|k] segments IH]; cbn [render fill]; intros H.
  - reflexivity.
  - rewrite IH; [reflexivity|].
    destruct (includes (render segments) "{{") eqn:E; [|reflexivity].
    now rewrite (includes_append_r s _ _ E) in H.
  - rewrite placeholder_unfold in H. cbn in H. discriminate H.
Qed.

(** The loop on a content in segments. *)
Lemma resolve_well_formed
    (table : list (string * jsval)) (segments : list segment) :
  plain_table table ->
  well_formed segments ->
  exists passes,
    resolve_loop maxIterations table (render segments) 0 0
    = Done (fill table segments, passes) /\
    passes <= 2.
Proof.
  intros Ht Hwf. unfold resolve_loop.
  destruct (pass_render table Ht segments Hwf) as [P1 W1].
  rewrite render_fill_all in P1.
  destruct (pass_render table Ht (fill_all table segments) W1) as [P2 _].
  rewrite !render_fill_all in P2.
  rewrite (settled_fill table _ (settled_fill_all table segments)) in P2.
  rewrite render_fill_all in P2.
  change maxIterations with 10. cbn [run_passes].
  destruct (includes (render segments) "{{") eqn:B0; cbn [andb Nat.ltb Nat.leb].
  - rewrite P1.
    destruct (Strings.String.eqb (fill table segments) (render segments));
      [exists 1; split; [reflexivity | lia]|].
    destruct (includes (fill table segments) "{{"); cbn [andb].
    + rewrite P2, Strings.String.eqb_refl. exists 2. split; [reflexivity|lia].
    + exists 1. split; [reflexivity | lia].
  - exists 0. rewrite (render_without_braces table segments B0).
    split; [reflexivity | lia].
Qed.

(** X4. On a content made of chunks without braces and of placeholders,
    with a table whose keys hold no syntax character of the pattern language
    and whose values hold neither a brace nor a dollar, the resolver is the
    simultaneous substitution: every placeholder of a key of the table gives
    way to the value of the key, everything else stays, and at most two
    passes are made. *)
Theorem resolver_fills_well_formed_snippet
    (now : clock) (ctx : context) (segments : list segment) :
  plain_table (own_entries (variables now ctx)) ->
  well_formed segments ->
  exists passes,
    resolveVariables_passes maxIterations now (render segments) ctx
    = Done (fill (own_entries (variables now ctx)) segments, passes) /\
    passes <= 2.
Proof. intros Ht Hwf. now apply resolve_well_formed. Qed.

Lemma resolver_fills_well_formed_snippet_witness :
  exists passes,
    resolveVariables_passes maxIterations clock0
      (render [Chunk "Hi "; Hole "name"; Chunk " at "; Hole "domain";
               Chunk ", "; Hole "who"])
      ctx_shadowed_domain
    = Done (fill (own_entries (variables clock0 ctx_shadowed_domain))
                 [Chunk "Hi "; Hole "name"; Chunk " at "; Hole "domain";
                  Chunk ", "; Hole "who"], passes) /\
    passes <= 2.
Proof.
  apply (resolver_fills_well_formed_snippet clock0 ctx_shadowed_domain
           [Chunk "Hi "; Hole "name"; Chunk " at "; Hole "domain";
            Chunk ", "; Hole "who"]).
  - unfold plain_table. vm_compute own_entries.
    repeat constructor.
  - unfold well_formed. repeat constructor.
Defined.




End SnippetFacts.

(** ** More on the scanner *)

Module ScannerMore.
Import JsString StringFacts Scanner ScannerFacts.

(** X9. The span reported with a trigger holds, in the text, exactly the
    prefix and the trigger name as typed: it ends at the cursor, it is as
    long as the two together, and the name is a non-empty run of trigger
    characters. *)
Theorem reported_span_holds_the_typed_trigger
    (prefix text : string) (cursorPos : nat)
    (triggerName : string) (triggerStart triggerEnd : position) :
  cursorPos <= len text ->
  scan prefix text (Num cursorPos)
  = Some (triggerName, triggerStart, triggerEnd) ->
  exists start,
    triggerStart = Num start /\
    triggerEnd = Num cursorPos /\
    start + len (prefix +:+ triggerName) = cursorPos /\
    substring text start cursorPos = prefix +:+ triggerName /\
    triggerName <> "" /\
    all is_trigger_char triggerName = true.
Proof.
  intros Hc. unfold scan.
  destruct (triggerMatch prefix (beforeCursor text (Num cursorPos)))
    as [[m0 body]|] eqn:E; [|discriminate].
  intros H; inversion H; subst. clear H.
  apply triggerMatch_Some in E as (-> & Hne & Hall & pre & E).
  unfold beforeCursor in E. rewrite substring_0 in E.
  rewrite Nat.min_l in E by exact Hc.
  assert (L : len pre + len (prefix +:+ triggerName) = cursorPos).
  { rewrite <- len_append, <- E. now apply len_take. }
  exists (len pre). cbn [pos_sub].
  split; [f_equal; lia|]. split; [reflexivity|]. split; [exact L|].
  split; [|auto].
  unfold substring.
  rewrite (Nat.min_l (len pre)), (Nat.min_l cursorPos) by lia.
  rewrite Nat.min_l, Nat.max_r by lia.
  replace (cursorPos - len pre) with (len (prefix +:+ triggerName)) by lia.
  rewrite <- (take_drop cursorPos text), E, append_assoc, drop_append.
  apply take_append.
Qed.

Lemma reported_span_holds_the_typed_trigger_witness :
  exists start,
    Num 4 = Num start /\
    Num 10 = Num 10 /\
    start + len (":" +:+ "hello") = 10 /\
    substring "say :hello there" start 10 = ":" +:+ "hello" /\
    "hello" <> "" /\
    all is_trigger_char "hello" = true.
Proof.
  apply (reported_span_holds_the_typed_trigger ":" "say :hello there" 10
           "hello" (Num 4) (Num 10)).
  - simpl. lia.
  - reflexivity.
Defined.

End ScannerMore.

(** ** More on the template wrapping *)

Module TemplateMore.
Import JsString JsObject StringFacts Template TemplateFacts.

(** X10. The pattern of a template reference accepts exactly the contents
    that are a marker with a non-empty name of word characters, and gives
    that name and all that follows the marker. *)
Theorem template_reference_is_exactly_a_marker
    (content templateName rest : string) :
  templateMatch content = Some (templateName, rest) <->
  content = marker templateName rest /\ is_name templateName.
Proof.
  split.
  - apply templateMatch_Some.
  - intros [-> Hname]. now apply templateMatch_marker.
Qed.

Lemma inherited_names_are_names (templateName : string) :
  templateName ∈ object_prototype_keys -> is_name templateName.
Proof.
  unfold object_prototype_keys. intros H.
  repeat (apply elem_of_cons in H as [->|H];
          [split; [discriminate | reflexivity]|]).
  now apply elem_of_nil in H.
Qed.

(** X11. A marker whose name is one every object inherits, such as
    [constructor] or [toString], and which has no entry of its own, is
    taken for a template: the marker is removed and the rest is wrapped
    between two texts [undefined]. *)
Theorem inherited_template_name_wraps_in_undefined
    (templates : gmap string template) (templateName rest : string) :
  templateName ∈ object_prototype_keys ->
  templates !! templateName = None ->
  applyTemplateWrapping templates (marker templateName rest)
  = "undefined" +:+ rest +:+ "undefined".
Proof.
  intros Hin Hno. unfold applyTemplateWrapping, js_get.
  rewrite (templateMatch_marker _ _ (inherited_names_are_names _ Hin)), Hno.
  now rewrite bool_decide_eq_true_2.
Qed.

Lemma inherited_template_name_wraps_in_undefined_witness :
  applyTemplateWrapping Examples.templates0
                        (marker "constructor" "Explain recursion")
  = "undefined" +:+ "Explain recursion" +:+ "undefined".
Proof.
  apply (inherited_template_name_wraps_in_undefined Examples.templates0
           "constructor" "Explain recursion").
  - apply list_elem_of_here.
  - reflexivity.
Defined.

End TemplateMore.

(** ** The usage statistics *)

Module BackgroundMore.
Import JsString JsObject Background Scenarios.

(** The storage as the callback sees it: [usage] or an empty object, and
    the object of the day or an empty one. *)
Abbreviation seen st today usage0 day :=
  ((usage st = Some usage0 \/ usage st = None /\ usage0 = ∅) /\
   (usage0 !! today = Some day \/ usage0 !! today = None /\ day = ∅)).

Lemma stored_seen (st : storage) (today snippetKey : string)
    (usage0 : gmap string (gmap string usage_entry))
    (day : gmap string usage_entry) :
  seen st today usage0 day ->
  stored st today snippetKey = day !! snippetKey.
Proof.
  unfold stored. intros [[Hu|[Hu ->]] [Hd|[Hd ->]]]; rewrite Hu;
    rewrite ?Hd; try reflexivity; try now rewrite lookup_empty.
  now rewrite lookup_empty in Hd.
Qed.

(** What the storage holds after an entry was written. *)
Lemma stored_written (st : storage) (today snippetKey : string)
    (usage0 : gmap string (gmap string usage_entry))
    (day : gmap string usage_entry) (enabled : bool) (entry : usage_entry)
    (d k : string) :
  seen st today usage0 day ->
  stored {| analyticsEnabled := enabled;
            usage := Some (<[today := <[snippetKey := entry]> day]> usage0) |}
         d k
  = if decide (d = today /\ k = snippetKey) then Some entry
    else stored st d k.
Proof.
  intros Hseen. unfold stored at 1. cbn [usage].
  destruct (decide (d = today)) as [->|Hd].
  - rewrite lookup_insert_eq.
    destruct (decide (k = snippetKey)) as [->|Hk].
    + rewrite lookup_insert_eq. now rewrite decide_True.
    + rewrite lookup_insert_ne by congruence.
      rewrite decide_False by tauto.
      symmetry. now apply stored_seen with (usage0 := usage0).
  - rewrite lookup_insert_ne by congruence.
    rewrite decide_False by tauto.
    unfold stored. destruct Hseen as [[Hu|[Hu ->]] _]; rewrite Hu;
      [reflexivity | now rewrite lookup_empty].
Qed.

(** The storage a call reads. *)
Lemma seen_exists (st : storage) (today : string) :
  exists usage0 day,
    seen st today usage0 day /\
    usage0 = match usage st with Some u => u | None => ∅ end /\
    day = match usage0 !! today with Some d => d | None => ∅ end.
Proof.
  eexists _, _. split; [|split; reflexivity]. split.
  - destruct (usage st); auto.
  - destruct (_ !! today); auto.
Qed.

(** The first use of a snippet on a day: the count goes from 0 to 1, the
    domain enters the empty set, and the set is stored as an array. *)
Lemma trackUsage_first
    (snippetKey domain today : string) (st : storage) :
  analyticsEnabled st = true ->
  snippetKey ∉ object_prototype_keys ->
  stored st today snippetKey = None ->
  exists usage0 day,
    seen st today usage0 day /\
    trackUsage snippetKey domain today st
    = inr {| analyticsEnabled := true;
             usage := Some (<[today :=
                               <[snippetKey := {| count := 1;
                                                  domains := [domain] |}]>
                                 day]> usage0) |}.
Proof.
  intros Hen Hnot Hno.
  destruct (seen_exists st today) as (usage0 & day & Hseen & Eu & Ed).
  exists usage0, day. split; [exact Hseen|].
  rewrite (stored_seen st today snippetKey usage0 day Hseen) in Hno.
  unfold trackUsage. rewrite Hen. cbn [negb]. rewrite <- Eu, <- Ed.
  unfold js_get. rewrite Hno.
  rewrite (bool_decide_eq_false_2 _ Hnot). reflexivity.
Qed.

(** A use of a snippet that has its entry for the day: the count is
    incremented on the entry in hand, then [add] is called on the array of
    the domains and throws, before anything is stored. *)
Lemma trackUsage_again
    (snippetKey domain today : string) (st : storage) (entry : usage_entry) :
  analyticsEnabled st = true ->
  stored st today snippetKey = Some entry ->
  trackUsage snippetKey domain today st = inl Dom.TypeError.
Proof.
  intros Hen Hk.
  destruct (seen_exists st today) as (usage0 & day & Hseen & Eu & Ed).
  rewrite (stored_seen st today snippetKey usage0 day Hseen) in Hk.
  unfold trackUsage. rewrite Hen. cbn [negb]. rewrite <- Eu, <- Ed.
  unfold js_get. now rewrite Hk.
Qed.

(** What a call that stores has written. *)
Lemma trackUsage_stores
    (snippetKey domain today : string) (st st' : storage) :
  analyticsEnabled st = true ->
  trackUsage snippetKey domain today st = inr st' ->
  stored st today snippetKey = None /\
  exists usage0 day,
    seen st today usage0 day /\
    st' = {| analyticsEnabled := true;
             usage := Some (<[today :=
                               <[snippetKey := {| count := 1;
                                                  domains := [domain] |}]>
                                 day]> usage0) |}.
Proof.
  intros Hen.
  destruct (seen_exists st today) as (usage0 & day & Hseen & Eu & Ed).
  rewrite (stored_seen st today snippetKey usage0 day Hseen).
  unfold trackUsage. rewrite Hen. cbn [negb]. rewrite <- Eu, <- Ed.
  unfold js_get. destruct (day !! snippetKey) as [entry|] eqn:Hk;
    [discriminate|].
  destruct (bool_decide (snippetKey ∈ object_prototype_keys));
    [discriminate|].
  cbn. intros H. inversion H. split; [reflexivity|].
  now exists usage0, day.
Qed.

(** X7. With the analytics on, the first use of a snippet on a day, for a
    snippet whose name is none that every object inherits, is stored with
    the count 1 and the domain of the use, and no other entry changes;
    every further use of that snippet on that day, from whatever domain,
    throws a type error before anything is stored, so however many follow
    the storage stays as the first use left it. *)
Theorem use_is_counted_once_a_day
    (snippetKey domain today : string) (st : storage) :
  analyticsEnabled st = true ->
  snippetKey ∉ object_prototype_keys ->
  stored st today snippetKey = None ->
  exists st',
    trackUsage snippetKey domain today st = inr st' /\
    stored st' today snippetKey
    = Some {| count := 1; domains := [domain] |} /\
    (forall d k, ~ (d = today /\ k = snippetKey) ->
                 stored st' d k = stored st d k) /\
    (forall domain',
        trackUsage snippetKey domain' today st' = inl Dom.TypeError) /\
    (forall events,
        List.Forall (fun ev => ev.1.1 = snippetKey /\ ev.2 = today) events ->
        trackAll events st' = st').
Proof.
  intros Hen Hnot Hno.
  destruct (trackUsage_first snippetKey domain today st Hen Hnot Hno)
    as (usage0 & day & Hseen & Run).
  eexists. split; [exact Run|].
  assert (Here : stored
                   {| analyticsEnabled := true;
                      usage := Some (<[today :=
                                 <[snippetKey := {| count := 1;
                                                    domains := [domain] |}]>
                                   day]> usage0) |} today snippetKey
                 = Some {| count := 1; domains := [domain] |}).
  { rewrite (stored_written st today snippetKey usage0 day _ _ _ _ Hseen).
    now rewrite decide_True. }
  assert (Again : forall domain',
             trackUsage snippetKey domain' today
               {| analyticsEnabled := true;
                  usage := Some (<[today :=
                             <[snippetKey := {| count := 1;
                                                domains := [domain] |}]>
                               day]> usage0) |} = inl Dom.TypeError).
  { intros domain'. eapply trackUsage_again; [reflexivity | exact Here]. }
  split; [exact Here|]. split; [|split; [exact Again|]].
  - intros d k Hne.
    rewrite (stored_written st today snippetKey usage0 day _ _ _ _ Hseen).
    now rewrite decide_False.
  - intros events Hall.
    induction Hall as [|[[k d] t] events [Hk Ht] _ IH]; [reflexivity|].
    cbn in Hk, Ht. subst k t. cbn [trackAll]. now rewrite Again.
Qed.

Lemma use_is_counted_once_a_day_witness :
  exists st',
    trackUsage "hello" "example.com" "Mon Nov 02 2026" storage_empty
    = inr st' /\
    stored st' "Mon Nov 02 2026" "hello"
    = Some {| count := 1; domains := ["example.com"] |} /\
    (forall d k, ~ (d = "Mon Nov 02 2026" /\ k = "hello") ->
                 stored st' d k = stored storage_empty d k) /\
    (forall domain',
        trackUsage "hello" domain' "Mon Nov 02 2026" st'
        = inl Dom.TypeError) /\
    (forall events,
        List.Forall (fun ev => ev.1.1 = "hello" /\ ev.2 = "Mon Nov 02 2026")
                    events ->
        trackAll events st' = st').
Proof.
  apply (use_is_counted_once_a_day "hello" "example.com" "Mon Nov 02 2026"
           storage_empty).
  - reflexivity.
  - vm_compute. intros H. repeat (apply elem_of_cons in H as [H|H];
                                  [discriminate H|]).
    now apply elem_of_nil in H.
  - reflexivity.
Defined.

(** A call changes no entry that is stored, and what it adds has the count
    1 and one domain. *)
Lemma trackUsage_keeps
    (snippetKey domain today : string) (st st' : storage) (d k : string)
    (entry : usage_entry) :
  trackUsage snippetKey domain today st = inr st' ->
  (stored st d k = Some entry -> stored st' d k = Some entry) /\
  (stored st' d k = Some entry ->
   stored st d k = Some entry \/
   entry = {| count := 1; domains := [domain] |}).
Proof.
  destruct (analyticsEnabled st) eqn:Hen.
  - intros Hrun.
    destruct (trackUsage_stores _ _ _ _ _ Hen Hrun)
      as (Hno & usage0 & day & Hseen & ->).
    rewrite (stored_written st today snippetKey usage0 day _ _ _ _ Hseen).
    destruct (decide (d = today /\ k = snippetKey)) as [[-> ->]|Hne].
    + split; [congruence|]. intros H. inversion H. now right.
    + split; [trivial | now left].
  - unfold trackUsage. rewrite Hen. cbn. intros H. inversion H.
    split; [trivial | now left].
Qed.

(** X8. Over any run of tracked uses an entry that is stored is never
    updated, neither its count nor its domains, and no stored count ever
    passes 1: in a storage whose entries all have the count 1 and a single
    domain, as in the empty storage of a new installation, every run leaves
    only such entries. The statistics count the snippets used on a day, not
    the uses. *)
Theorem usage_counts_stay_at_one
    (events : list (string * string * string)) (st : storage) :
  counted_once st ->
  counted_once (trackAll events st) /\
  (forall d k entry,
      stored st d k = Some entry ->
      stored (trackAll events st) d k = Some entry) /\
  (forall d k entry,
      stored (trackAll events st) d k = Some entry ->
      count entry = 1 /\ List.length (domains entry) = 1).
Proof.
  assert (C : forall st0, counted_once st0 <->
                          forall d k entry,
                            stored st0 d k = Some entry ->
                            count entry = 1 /\
                            List.length (domains entry) = 1).
  { intros st0. unfold counted_once, stored. split.
    - intros H d k entry. destruct (usage st0) as [u|] eqn:Hu;
        [|discriminate]. destruct (u !! d) as [day|] eqn:Hd; [|discriminate].
      intros Hk. exact (H u day d k entry eq_refl Hd Hk).
    - intros H u day d k entry Hu Hd Hk. apply (H d k entry).
      now rewrite Hu, Hd. }
  revert st. induction events as [|[[k0 d0] t0] events IH]; intros st Hinv.
  - split; [exact Hinv|]. split; [trivial|]. now apply C.
  - cbn [trackAll].
    destruct (trackUsage k0 d0 t0 st) as [err|st'] eqn:E; [now apply IH|].
    assert (Hinv' : counted_once st').
    { apply C. intros d k entry H.
      apply (proj2 (trackUsage_keeps k0 d0 t0 st st' d k entry E)) in H
        as [H| ->]; [exact (proj1 (C st) Hinv d k entry H) | now cbn]. }
    destruct (IH st' Hinv') as (I1 & I2 & I3).
    split; [exact I1|]. split; [|exact I3].
    intros d k entry H. apply I2.
    now apply (proj1 (trackUsage_keeps k0 d0 t0 st st' d k entry E)).
Qed.

Lemma usage_counts_stay_at_one_witness :
  counted_once
    (trackAll [ ("hello", "example.com", "Mon Nov 02 2026");
                ("hello", "other.test", "Mon Nov 02 2026");
                ("sn", "example.com", "Tue Nov 03 2026") ]
              storage_empty) /\
  (forall d k entry,
      stored storage_empty d k = Some entry ->
      stored (trackAll [ ("hello", "example.com", "Mon Nov 02 2026");
                         ("hello", "other.test", "Mon Nov 02 2026");
                         ("sn", "example.com", "Tue Nov 03 2026") ]
                       storage_empty) d k = Some entry) /\
  (forall d k entry,
      stored (trackAll [ ("hello", "example.com", "Mon Nov 02 2026");
                         ("hello", "other.test", "Mon Nov 02 2026");
                         ("sn", "example.com", "Tue Nov 03 2026") ]
                       storage_empty) d k = Some entry ->
      count entry = 1 /\ List.length (domains entry) = 1).
Proof.
  apply (usage_counts_stay_at_one
           [ ("hello", "example.com", "Mon Nov 02 2026");
             ("hello", "other.test", "Mon Nov 02 2026");
             ("sn", "example.com", "Tue Nov 03 2026") ]
           storage_empty).
  intros u day today snippetKey entry H. discriminate.
Defined.

End BackgroundMore.

(** ** More on the text surfaces *)

Module DomMore.
Import JsString StringFacts Dom DomFacts.

Abbreviation concat := (fold_right Strings.String.append "").

Lemma take_beyond (n : nat) (s : string) : len s <= n -> take n s = s.
Proof.
  revert n; induction s as [|c s IH]; intros n H; destruct n; simpl in *;
    try reflexivity; try lia.
  rewrite IH; [reflexivity | lia].
Qed.

Lemma drop_beyond (n : nat) (s : string) : len s <= n -> drop n s = "".
Proof.
  revert n; induction s as [|c s IH]; intros n H; destruct n; simpl in *;
    try reflexivity; try lia.
  apply IH. lia.
Qed.

Lemma len_drop (n : nat) (s : string) : len (drop n s) = len s - n.
Proof.
  revert s; induction n as [|n IH]; intros s; destruct s; simpl; auto; lia.
Qed.

(** [substring(0, n)] keeps the first [n] characters, all of them when
    there are fewer. *)
Lemma substring_0_take (s : string) (n : nat) : substring s 0 n = take n s.
Proof.
  rewrite substring_0. destruct (Nat.le_ge_cases n (len s)) as [H|H].
  - now rewrite Nat.min_l.
  - rewrite Nat.min_r by exact H. now rewrite take_all, take_beyond.
Qed.

(** [substring(n)] drops the first [n] characters. *)
Lemma substring_from_any (s : string) (n : nat) : substring_from s n = drop n s.
Proof.
  destruct (Nat.le_ge_cases n (len s)) as [H|H].
  - now apply substring_from_drop.
  - rewrite (drop_beyond n s H). unfold substring_from, substring.
    rewrite Nat.min_id, (Nat.min_r n) by exact H.
    now rewrite Nat.min_id, Nat.max_id, Nat.sub_diag.
Qed.

(** The value [replaceText] gives a text control. *)
Lemma value_replaceText_field
    (f : field) (startPos endPos : nat) (newText : string) :
  value (replaceText_field f (Num startPos) (Num endPos) newText)
  = take startPos (value f) +:+ newText +:+ drop endPos (value f).
Proof.
  unfold replaceText_field, substring_to, substring_after.
  cbn [pos_add to_unsigned].
  rewrite substring_0_take, substring_from_any.
  change (value (set_cursor ?g ?x)) with (value g).
  apply value_set_value.
Qed.

(** What [replaceText] makes of a text control. *)
Lemma replaceText_field_result
    (f : field) (startPos endPos : nat) (newText : string) :
  startPos <= len (value f) ->
  value (replaceText_field f (Num startPos) (Num endPos) newText)
  = take startPos (value f) +:+ newText +:+ drop endPos (value f) /\
  selectionStart (replaceText_field f (Num startPos) (Num endPos) newText)
  = startPos + len newText /\
  selectionEnd (replaceText_field f (Num startPos) (Num endPos) newText)
  = startPos + len newText /\
  field_textContent (replaceText_field f (Num startPos) (Num endPos) newText)
  = field_textContent f.
Proof.
  intros H. unfold replaceText_field, substring_to, substring_after.
  cbn [pos_add to_unsigned].
  rewrite substring_0_take, substring_from_any.
  set (v := take startPos (value f) +:+ newText +:+ drop endPos (value f)).
  set (g := set_value f v).
  assert (Vg : value g = v) by apply value_set_value.
  assert (L : startPos + len newText <= len (value g)).
  { rewrite Vg. unfold v. rewrite !len_append, len_take by exact H. lia. }
  destruct (set_cursor_inside g (startPos + len newText) L) as (V & S1 & S2).
  rewrite V, S1, S2, Vg. repeat split.
  rewrite <- (textContent_set_value f v). reflexivity.
Qed.

(** X12. On a text control [replaceText] puts the new text in place of the
    characters from [startPos] to [endPos] and leaves the cursor, with an
    empty selection, right behind the new text. *)
Theorem field_splice_replaces_span
    (f : field) (startPos endPos : nat) (newText : string) :
  startPos <= len (value f) ->
  value (replaceText_field f (Num startPos) (Num endPos) newText)
  = take startPos (value f) +:+ newText +:+ drop endPos (value f) /\
  selectionStart (replaceText_field f (Num startPos) (Num endPos) newText)
  = startPos + len newText /\
  selectionEnd (replaceText_field f (Num startPos) (Num endPos) newText)
  = startPos + len newText /\
  field_textContent (replaceText_field f (Num startPos) (Num endPos) newText)
  = field_textContent f.
Proof. apply replaceText_field_result. Qed.

(** Where the walk stops: at the first text node whose end, counted from
    the start of the walk, reaches the offset. *)
Lemma walk_Some (nodes : list string) :
  forall index currentPos position i,
    walk nodes index currentPos (Num position) = Some i ->
    exists k,
      i = index + k /\ k < List.length nodes /\
      position <= currentPos + len (concat (firstn (S k) nodes)) /\
      forall j, j < k ->
                currentPos + len (concat (firstn (S j) nodes)) < position.
Proof.
  induction nodes as [|data nodes IH]; intros index currentPos position i H;
    [discriminate|].
  cbn [walk nat_ge_pos] in H.
  destruct (position <=? currentPos + len data) eqn:E.
  - inversion H; subst i. exists 0. apply Nat.leb_le in E.
    cbn [firstn fold_right List.length]. rewrite append_empty_r.
    repeat split; try lia.
  - apply Nat.leb_gt in E. apply IH in H as (k & -> & Hk & Hp & Hj).
    exists (S k). cbn [List.length]. split; [lia|]. split; [lia|]. split.
    + change (firstn (S (S k)) (data :: nodes))
        with (data :: firstn (S k) nodes).
      cbn [fold_right]. rewrite len_append. lia.
    + intros [|j] Hlt.
      * cbn [firstn fold_right]. rewrite append_empty_r. lia.
      * change (firstn (S (S j)) (data :: nodes))
          with (data :: firstn (S j) nodes).
        cbn [fold_right]. rewrite len_append.
        specialize (Hj j ltac:(lia)). lia.
Qed.

Lemma walk_not_a_number (nodes : list string) (index currentPos : nat) :
  walk nodes index currentPos NaN = None /\
  walk nodes index currentPos Undefined = None.
Proof.
  revert index currentPos.
  induction nodes as [|data nodes IH]; intros index currentPos;
    [now split|].
  cbn [walk nat_ge_pos]. apply IH.
Qed.

(** With an offset that is no number [replaceText] leaves an editable
    region as it is. *)
Lemma replaceText_editable_not_a_number
    (e : editable) (endPos : position) (newText : string) :
  replaceText_editable e NaN endPos newText = inr e.
Proof.
  unfold replaceText_editable, findTextNode.
  now rewrite (proj1 (walk_not_a_number _ 0 0)).
Qed.

Lemma findTextNode_not_a_number (e : editable) : findTextNode e NaN = None.
Proof. unfold findTextNode. apply walk_not_a_number. Qed.

(** X13. [findTextNode] returns a node exactly when the region has a text
    node and the offset does not exceed the length of its text; the node is
    the first one, in document order, whose end reaches the offset, so an
    offset at the boundary of two text nodes goes to the earlier one. For an
    offset that is no number it returns none. *)
Theorem findTextNode_first_node_reaching_offset
    (e : editable) (position : nat) :
  (is_Some (findTextNode e (Num position)) <->
   textNodes (root e) <> [] /\ position <= len (textContent e)) /\
  (forall i,
      findTextNode e (Num position) = Some i ->
      i < List.length (textNodes (root e)) /\
      position <= len (concat (firstn (S i) (textNodes (root e)))) /\
      forall j, j < i ->
                len (concat (firstn (S j) (textNodes (root e)))) < position) /\
  findTextNode e NaN = None /\
  findTextNode e Undefined = None.
Proof.
  unfold findTextNode, textContent. split; [|split].
  - split.
    + intros [i H]. split.
      * intros E. rewrite E in H. discriminate H.
      * destruct (Nat.le_gt_cases position
                    (len (concat (textNodes (root e))))) as [L|L];
          [exact L|].
        rewrite (walk_beyond_text _ 0 0 position) in H by exact L.
        discriminate H.
    + intros [Hne Hle]. now apply walk_within_text.
  - intros i H. apply walk_Some in H as (k & -> & Hk & Hp & Hj).
    simpl in *. auto.
  - apply walk_not_a_number.
Qed.

(** What the branch for regions does once a node is found. *)
Lemma replaceText_editable_result
    (e : editable) (startPos endPos : nat) (newText : string) (i : nat)
    (data : string) :
  findTextNode e (Num startPos) = Some i ->
  textNodes (root e) !! i = Some data ->
  startPos <= endPos ->
  (endPos <= len data ->
   replaceText_editable e (Num startPos) (Num endPos) newText
   = inr {| root := root e; sel := SelText i startPos endPos |}) /\
  (len data < endPos ->
   replaceText_editable e (Num startPos) (Num endPos) newText
   = inl IndexSizeError).
Proof.
  intros Hfind Hdata Hle. unfold replaceText_editable. rewrite Hfind.
  assert (N : nth i (textNodes (root e)) "" = data).
  { apply nth_lookup_Some with (d := "") in Hdata. exact Hdata. }
  rewrite N. cbn [to_unsigned]. split; intros H.
  - replace (len data <? startPos) with false
      by (symmetry; apply Nat.ltb_ge; lia).
    replace (len data <? endPos) with false
      by (symmetry; apply Nat.ltb_ge; lia).
    replace (endPos <? startPos) with false
      by (symmetry; apply Nat.ltb_ge; lia).
    reflexivity.
  - destruct (len data <? startPos); [reflexivity|].
    replace (len data <? endPos) with true
      by (symmetry; apply Nat.ltb_lt; lia).
    reflexivity.
Qed.

(** X14. On an editable region [replaceText] uses the offsets of the span
    as offsets inside the text node that [findTextNode] returns: when both
    lie within that node, the characters of the node from [startPos] to
    [endPos], counted from the start of the node, are selected for the
    editing command, and the nodes stay as they are; when the end offset
    exceeds the length of that node, it throws and changes nothing. *)
Theorem editable_splice_in_found_node
    (e : editable) (startPos endPos : nat) (newText : string) (i : nat)
    (data : string) :
  findTextNode e (Num startPos) = Some i ->
  textNodes (root e) !! i = Some data ->
  startPos <= endPos ->
  (endPos <= len data ->
   replaceText_editable e (Num startPos) (Num endPos) newText
   = inr {| root := root e; sel := SelText i startPos endPos |}) /\
  (len data < endPos ->
   replaceText_editable e (Num startPos) (Num endPos) newText
   = inl IndexSizeError).
Proof. apply replaceText_editable_result. Qed.

Lemma editable_splice_in_found_node_witness :
  (3 <= len ":sn" ->
   replaceText_editable
     {| root := Element [Text ""; Element [Text ":sn"]]; sel := SelNone |}
     (Num 1) (Num 3) "X"
   = inr {| root := Element [Text ""; Element [Text ":sn"]];
            sel := SelText 1 1 3 |}) /\
  (len ":sn" < 3 ->
   replaceText_editable
     {| root := Element [Text ""; Element [Text ":sn"]]; sel := SelNone |}
     (Num 1) (Num 3) "X"
   = inl IndexSizeError).
Proof.
  apply (editable_splice_in_found_node
           {| root := Element [Text ""; Element [Text ":sn"]];
              sel := SelNone |} 1 3 "X" 1 ":sn").
  - reflexivity.
  - reflexivity.
  - lia.
Defined.

(** X15. The offsets of a span are counted from the start of the region,
    but the range is set with the same numbers inside the text node that
    was found: the characters selected for the editing command lie as many
    characters behind the span as there is text in the nodes before that
    node, and are those of the span exactly when there is none. *)
Theorem editable_selection_is_shifted_by_earlier_nodes
    (e : editable) (startPos endPos : nat) (newText : string) (i : nat)
    (data : string) :
  findTextNode e (Num startPos) = Some i ->
  textNodes (root e) !! i = Some data ->
  startPos <= endPos ->
  endPos <= len data ->
  exists e',
    replaceText_editable e (Num startPos) (Num endPos) newText = inr e' /\
    textContent e' = textContent e /\
    selection_span e'
    = Some (len (concat (firstn i (textNodes (root e)))) + startPos,
            len (concat (firstn i (textNodes (root e)))) + endPos) /\
    (selection_span e' = Some (startPos, endPos) <->
     len (concat (firstn i (textNodes (root e)))) = 0).
Proof.
  intros Hfind Hdata Hle Hend.
  destruct (replaceText_editable_result e startPos endPos newText i data
              Hfind Hdata Hle) as [R _].
  eexists. split; [exact (R Hend)|]. split; [reflexivity|].
  unfold selection_span. cbn [sel root]. split; [reflexivity|].
  split.
  - intros H. inversion H. lia.
  - intros ->. reflexivity.
Qed.

Lemma editable_selection_is_shifted_by_earlier_nodes_witness :
  exists e',
    replaceText_editable
      {| root := Element [Text "ab"; Element [Text "cdefgh"]];
         sel := SelNone |} (Num 3) (Num 5) "X" = inr e' /\
    textContent e'
    = textContent {| root := Element [Text "ab"; Element [Text "cdefgh"]];
                     sel := SelNone |} /\
    selection_span e'
    = Some (len (concat (firstn 1 ["ab"; "cdefgh"])) + 3,
            len (concat (firstn 1 ["ab"; "cdefgh"])) + 5) /\
    (selection_span e' = Some (3, 5) <->
     len (concat (firstn 1 ["ab"; "cdefgh"])) = 0).
Proof.
  apply (editable_selection_is_shifted_by_earlier_nodes
           {| root := Element [Text "ab"; Element [Text "cdefgh"]];
              sel := SelNone |} 3 5 "X" 1 "cdefgh").
  - reflexivity.
  - reflexivity.
  - lia.
  - simpl. lia.
Defined.

Lemma field_splice_replaces_span_witness :
  value (replaceText_field
           {| value := "say :hello "; field_textContent := "";
              selectionStart := 10; selectionEnd := 10 |}
           (Num 4) (Num 10) "Hi example.com!")
  = take 4 "say :hello " +:+ "Hi example.com!" +:+ drop 10 "say :hello " /\
  selectionStart (replaceText_field
                    {| value := "say :hello "; field_textContent := "";
                       selectionStart := 10; selectionEnd := 10 |}
                    (Num 4) (Num 10) "Hi example.com!")
  = 4 + len "Hi example.com!" /\
  selectionEnd (replaceText_field
                  {| value := "say :hello "; field_textContent := "";
                     selectionStart := 10; selectionEnd := 10 |}
                  (Num 4) (Num 10) "Hi example.com!")
  = 4 + len "Hi example.com!" /\
  field_textContent (replaceText_field
                       {| value := "say :hello "; field_textContent := "";
                          selectionStart := 10; selectionEnd := 10 |}
                       (Num 4) (Num 10) "Hi example.com!")
  = "".
Proof.
  apply (field_splice_replaces_span
           {| value := "say :hello "; field_textContent := "";
              selectionStart := 10; selectionEnd := 10 |}
           4 10 "Hi example.com!").
  simpl. lia.
Defined.

End DomMore.

(** ** More on the expansion controller *)

Module ControllerMore.
Import JsString JsObject StringFacts ScannerFacts Template Dom DomFacts
  DomMore Controller ControllerFacts Listeners Examples Scenarios.

Ltac page_simpl :=
  cbn [elements snippets templates triggerPrefix excluded expansionHistory
       isProcessing doc notifications usageMessages inputEvents formModals
       preventedKeys with_history with_isProcessing with_elements
       with_notifications with_usageMessages with_inputEvents with_formModals
       with_preventedKeys fst snd is_truthy] in *;
  cbn beta iota in *.

(** The estimate passes 100 exactly beyond 400 characters. *)
Lemma token_threshold (text : string) :
  (100 <? Resolver.estimateTokens text) = true <-> 400 < len text.
Proof.
  unfold Resolver.estimateTokens.
  pose proof (Nat.div_mod_eq (len text + 3) 4) as D.
  pose proof (Nat.mod_upper_bound (len text + 3) 4) as U.
  rewrite Nat.ltb_lt. lia.
Qed.

Lemma js_get_own {A : Type} (obj : gmap string A) (key : string) (a : A) :
  obj !! key = Some a -> js_get obj key = Own a.
Proof. intros H. unfold js_get. now rewrite H. Qed.

Lemma scan_is_Some (prefix text : string) (cursorPos : position) :
  is_Some (Scanner.scan prefix text cursorPos) <->
  Scanner.ends_with_trigger prefix (Scanner.beforeCursor text cursorPos).
Proof.
  rewrite <- triggerMatch_is_Some. unfold Scanner.scan.
  destruct (Scanner.triggerMatch prefix (Scanner.beforeCursor text cursorPos))
    as [[m0 body]|]; split; intros [x H]; try discriminate; now eexists.
Qed.

(** What [handleTriggerKey] does to the list of prevented keys. *)
Lemma handleTriggerKey_prevented
    (pg : page) (id : nat) (element : element) :
  elements pg !! id = Some element ->
  preventedKeys (snd (handleTriggerKey id pg)) =
  match Scanner.scan (triggerPrefix pg) (text_of element)
                     (cursor_of element) with
  | Some _ => preventedKeys pg ++ [id]
  | None => preventedKeys pg
  end.
Proof.
  intros Hel. unfold handleTriggerKey, replaceText, expandSnippet_begin.
  run_script. rewrite Hel. cbn beta iota.
  destruct (Scanner.scan (triggerPrefix pg) (text_of element)
                         (cursor_of element))
    as [[[triggerName triggerStart] cursorPos]|]; [|reflexivity].
  destruct (Strings.String.eqb triggerName "form"); cbn beta iota.
  - cbn [elements with_preventedKeys]. rewrite Hel. cbn beta iota.
    destruct element as [f|e]; cbn beta iota; [reflexivity|].
    destruct (replaceText_editable e triggerStart cursorPos "") as [err|e0];
      [reflexivity|].
    unfold execCommand_insertText.
    now destruct (findTextNode e triggerStart).
  - page_simpl.
    destruct (js_get (snippets pg) triggerName) eqn:E; page_simpl;
      rewrite ?E; reflexivity.
Qed.

(** What the handler does with and without a trigger in the text it
    reads. *)
Lemma handleTriggerKey_on_trigger
    (pg : page) (id : nat) (element : element) :
  elements pg !! id = Some element ->
  (Scanner.ends_with_trigger (triggerPrefix pg)
     (Scanner.beforeCursor (text_of element) (cursor_of element)) ->
   preventedKeys (snd (handleTriggerKey id pg)) = preventedKeys pg ++ [id]) /\
  (~ Scanner.ends_with_trigger (triggerPrefix pg)
       (Scanner.beforeCursor (text_of element) (cursor_of element)) ->
   handleTriggerKey id pg = (Ok None, pg)).
Proof.
  intros Hel. split.
  - intros H. apply scan_is_Some in H as [r Hr].
    rewrite (handleTriggerKey_prevented pg id element Hel). now rewrite Hr.
  - intros H.
    assert (N : Scanner.scan (triggerPrefix pg) (text_of element)
                             (cursor_of element) = None).
    { destruct (Scanner.scan (triggerPrefix pg) (text_of element)
                             (cursor_of element)) eqn:E; [|reflexivity].
      exfalso. apply H. apply scan_is_Some. rewrite E. now eexists. }
    unfold handleTriggerKey. run_script. rewrite Hel. cbn beta iota.
    now rewrite N.
Qed.

(** X16. On a text control the default of a commit key is prevented
    exactly when the text splits at the cursor so that the part before the
    cursor ends with the prefix and a trigger name, whatever the name and
    whether or not a snippet answers to it; on an editable region, which
    has no [selectionStart], it is prevented exactly when the whole text
    ends with the prefix and a trigger name, wherever the caret is. When it
    is not prevented the handler changes nothing at all. *)
Theorem commit_key_prevented_exactly_on_trigger
    (pg : page) (id : nat) (element : element) :
  elements pg !! id = Some element ->
  match element with
  | Field f =>
      (Scanner.trigger_before_cursor (triggerPrefix pg) (text_of element)
                                     (selectionStart f) ->
       preventedKeys (snd (handleTriggerKey id pg))
       = preventedKeys pg ++ [id]) /\
      (~ Scanner.trigger_before_cursor (triggerPrefix pg) (text_of element)
                                       (selectionStart f) ->
       handleTriggerKey id pg = (Ok None, pg))
  | Editable e =>
      (Scanner.ends_with_trigger (triggerPrefix pg) (textContent e) ->
       preventedKeys (snd (handleTriggerKey id pg))
       = preventedKeys pg ++ [id]) /\
      (~ Scanner.ends_with_trigger (triggerPrefix pg) (textContent e) ->
       handleTriggerKey id pg = (Ok None, pg))
  end.
Proof.
  intros Hel. pose proof (handleTriggerKey_on_trigger pg id element Hel) as H.
  destruct element as [f|e].
  - cbn [cursor_of] in H. rewrite before_cursor_split in H. exact H.
  - exact H.
Qed.

Lemma commit_key_prevented_exactly_on_trigger_witness :
  (Scanner.trigger_before_cursor (triggerPrefix page_hello_space)
     "say :hello " 10 ->
   preventedKeys (snd (handleTriggerKey 1 page_hello_space))
   = preventedKeys page_hello_space ++ [1]) /\
  (~ Scanner.trigger_before_cursor (triggerPrefix page_hello_space)
       "say :hello " 10 ->
   handleTriggerKey 1 page_hello_space = (Ok None, page_hello_space)).
Proof.
  apply (commit_key_prevented_exactly_on_trigger page_hello_space 1
           (Field {| value := "say :hello "; field_textContent := "";
                     selectionStart := 10; selectionEnd := 10 |})).
  reflexivity.
Defined.

(** A key that starts an expansion sets the guard. *)
Lemma handleTriggerKey_started
    (pg pg0 : page) (id : nat) (p : pending) :
  handleTriggerKey id pg = (Ok (Some p), pg0) ->
  isProcessing pg0 = true /\ pend_element p = id /\
  elements pg0 = elements pg /\
  expansionHistory pg0 = expansionHistory pg.
Proof.
  unfold handleTriggerKey, replaceText, expandSnippet_begin. run_script.
  destruct (elements pg !! id) as [element|] eqn:Hel; [|discriminate].
  cbn beta iota.
  destruct (Scanner.scan (triggerPrefix pg) (text_of element)
                         (cursor_of element))
    as [[[triggerName triggerStart] cursorPos]|]; [|discriminate].
  destruct (Strings.String.eqb triggerName "form"); cbn beta iota.
  - cbn [elements with_preventedKeys]. rewrite Hel. cbn beta iota.
    destruct element as [f|e]; cbn beta iota; [discriminate|].
    destruct (replaceText_editable e triggerStart cursorPos "") as [err|e0];
      [discriminate|].
    unfold execCommand_insertText.
    destruct (findTextNode e triggerStart); discriminate.
  - page_simpl.
    destruct (js_get (snippets pg) triggerName) eqn:E; page_simpl;
      rewrite ?E; intros H; inversion H; subst; page_simpl; auto.
Qed.

(** X17. Once a commit key has started an expansion, the guard is set:
    until that expansion ends every further commit key and every undo key,
    on whatever element, is ignored and changes nothing. *)
Theorem keys_are_ignored_while_expanding
    (pg pg0 : page) (id : nat) (p : pending) :
  onCommitKey id pg = (Ok (Some p), pg0) ->
  isProcessing pg0 = true /\
  forall id',
    onCommitKey id' pg0 = (Ok None, pg0) /\
    onUndoKey id' pg0 = (Ok tt, pg0).
Proof.
  intros H.
  assert (G : isProcessing pg0 = true).
  { unfold onCommitKey in H. run_script.
    destruct (shouldProcessElement id pg); [|discriminate].
    now apply handleTriggerKey_started in H. }
  split; [exact G|]. intros id'.
  unfold onCommitKey, onUndoKey, shouldProcessElement. run_script.
  now rewrite G.
Qed.

Lemma keys_are_ignored_while_expanding_witness :
  isProcessing (snd (onCommitKey 1 page_textarea)) = true /\
  forall id',
    onCommitKey id' (snd (onCommitKey 1 page_textarea))
    = (Ok None, snd (onCommitKey 1 page_textarea)) /\
    onUndoKey id' (snd (onCommitKey 1 page_textarea))
    = (Ok tt, snd (onCommitKey 1 page_textarea)).
Proof.
  apply (keys_are_ignored_while_expanding page_textarea
           (snd (onCommitKey 1 page_textarea)) 1
           {| pend_element := 1; pend_trigger := "hello";
              pend_start := Num 4; pend_end := Num 10 |}).
  reflexivity.
Defined.

(** A commit key on a trigger that a snippet answers to. *)
Lemma commit_starts_expansion
    (pg : page) (id : nat) (element : element) (triggerName : string)
    (triggerStart cursorPos : position) :
  elements pg !! id = Some element ->
  shouldProcessElement id pg = true ->
  Scanner.scan (triggerPrefix pg) (text_of element) (cursor_of element)
  = Some (triggerName, triggerStart, cursorPos) ->
  triggerName <> "form" ->
  is_truthy (js_get (snippets pg) triggerName) = true ->
  onCommitKey id pg =
  (Ok (Some {| pend_element := id; pend_trigger := triggerName;
               pend_start := triggerStart; pend_end := cursorPos |}),
   with_isProcessing true
     (with_preventedKeys (preventedKeys pg ++ [id]) pg)).
Proof.
  intros Hel Hok Hscan Hform Hsn.
  unfold onCommitKey, handleTriggerKey, expandSnippet_begin. run_script.
  rewrite Hok, Hel. cbn beta iota. rewrite Hscan.
  apply Strings.String.eqb_neq in Hform. rewrite Hform. page_simpl.
  rewrite Hsn. page_simpl.
  destruct (js_get (snippets pg) triggerName); reflexivity.
Qed.

(** The part of [expandSnippet] after a response, on a text control, with
    all it leaves behind. *)
Lemma resume_on_field
    (pg : page) (id : nat) (f : field) (triggerName : string)
    (startPos endPos : position) (resp : response) (now : nat) :
  elements pg !! id = Some (Field f) ->
  exists pg1,
    expandSnippet_resume id triggerName startPos endPos
                         (Resolves (Some resp)) now pg = (Ok tt, pg1) /\
    elements pg1
    = <[id := Field (replaceText_field f startPos endPos
                       (applyTemplateWrapping (templates pg) (resolved resp)))]>
        (elements pg) /\
    expansionHistory pg1
    = {| exp_element := id; originalText := text_of (Field f);
         trigger := triggerName; startPos := startPos; endPos := endPos;
         expandedContent :=
           applyTemplateWrapping (templates pg) (resolved resp);
         timestamp := now |} :: expansionHistory pg /\
    isProcessing pg1 = false /\
    usageMessages pg1
    = usageMessages pg ++ [(triggerName, hostname (doc pg))] /\
    inputEvents pg1 = inputEvents pg ++ [id] /\
    notifications pg1
    = (if 100 <? tokens resp
       then notifications pg
            ++ [("Expanded to ~" +:+ decimal (tokens resp) +:+ " tokens",
                 "info")]
       else notifications pg) /\
    preventedKeys pg1 = preventedKeys pg.
Proof.
  intros Hel. unfold expandSnippet_resume, replaceText. run_script.
  rewrite Hel. page_simpl. rewrite Hel. page_simpl.
  destruct (100 <? tokens resp); page_simpl;
    (eexists; split; [reflexivity|]); page_simpl; repeat split.
Qed.

(** X18. The whole path of an expansion on a text control, from the commit
    key to the splice: when the text before the cursor ends with the trigger
    of a snippet and the background answers the request with the resolved
    content of that snippet, the trigger gives way to the resolved content
    with its template applied, the cursor stands behind it, one record with
    the text as it was is pushed, the guard is released, the use is
    reported once, and the token notification appears exactly when the
    resolved text is longer than 400 characters. *)
Theorem expansion_on_text_control
    (pg : page) (id : nat) (f : field) (triggerName : string)
    (triggerStart cursorPos : nat) (snippet : snippet)
    (clipboardText : option string) (fuel : nat) (clock : Resolver.clock)
    (resp : response) (now : nat) :
  elements pg !! id = Some (Field f) ->
  shouldProcessElement id pg = true ->
  selectionStart f <= len (value f) ->
  Scanner.scan (triggerPrefix pg) (text_of (Field f)) (Num (selectionStart f))
  = Some (triggerName, Num triggerStart, Num cursorPos) ->
  triggerName <> "form" ->
  snippets pg !! triggerName = Some snippet ->
  Background.respond fuel clock (content snippet)
                     (getExpansionContext clipboardText pg) = Resolver.Done resp ->
  exists pg0 pg1 f',
    onCommitKey id pg
    = (Ok (Some {| pend_element := id; pend_trigger := triggerName;
                   pend_start := Num triggerStart;
                   pend_end := Num cursorPos |}), pg0) /\
    expandSnippet_resume id triggerName (Num triggerStart) (Num cursorPos)
                         (Resolves (Some resp)) now pg0 = (Ok tt, pg1) /\
    elements pg1 = <[id := Field f']> (elements pg) /\
    value f'
    = take triggerStart (value f)
      +:+ applyTemplateWrapping (templates pg) (resolved resp)
      +:+ drop cursorPos (value f) /\
    selectionStart f'
    = triggerStart
      + len (applyTemplateWrapping (templates pg) (resolved resp)) /\
    selectionEnd f' = selectionStart f' /\
    (exists record,
        expansionHistory pg1 = record :: expansionHistory pg /\
        originalText record = text_of (Field f) /\
        trigger record = triggerName /\
        exp_element record = id) /\
    isProcessing pg1 = false /\
    usageMessages pg1
    = usageMessages pg ++ [(triggerName, hostname (doc pg))] /\
    preventedKeys pg1 = preventedKeys pg ++ [id] /\
    (notifications pg1 <> notifications pg <-> 400 < len (resolved resp)).
Proof.
  intros Hel Hok Hsel Hscan Hform Hsn Hresp.
  pose proof (commit_starts_expansion pg id (Field f) triggerName
                (Num triggerStart) (Num cursorPos) Hel Hok Hscan Hform) as Hc.
  rewrite (js_get_own _ _ _ Hsn) in Hc. specialize (Hc eq_refl).
  set (pg0 := with_isProcessing true
                (with_preventedKeys (preventedKeys pg ++ [id]) pg)) in *.
  assert (Hel0 : elements pg0 !! id = Some (Field f)) by exact Hel.
  destruct (resume_on_field pg0 id f triggerName (Num triggerStart)
              (Num cursorPos) resp now Hel0)
    as (pg1 & Hrun & He & Hh & Hg & Hu & _ & Hn & Hp).
  assert (Hstart : triggerStart <= len (value f)).
  { unfold Scanner.scan in Hscan.
    destruct (Scanner.triggerMatch (triggerPrefix pg)
                (Scanner.beforeCursor (text_of (Field f))
                                      (Num (selectionStart f))))
      as [[m0 body]|]; [|discriminate].
    cbn [pos_sub] in Hscan. inversion Hscan; subst. lia. }
  destruct (replaceText_field_result f triggerStart cursorPos
              (applyTemplateWrapping (templates pg) (resolved resp)) Hstart)
    as (Hv & Hs1 & Hs2 & _).
  exists pg0, pg1, (replaceText_field f (Num triggerStart) (Num cursorPos)
                      (applyTemplateWrapping (templates pg) (resolved resp))).
  split; [exact Hc|]. split; [exact Hrun|]. split; [exact He|].
  split; [exact Hv|]. split; [exact Hs1|].
  split; [now rewrite Hs1, Hs2|].
  split; [eexists; split; [exact Hh | now cbn]|].
  split; [exact Hg|]. split; [exact Hu|]. split; [exact Hp|].
  rewrite Hn. unfold pg0. page_simpl.
  assert (Htok : tokens resp = Resolver.estimateTokens (resolved resp)).
  { unfold Background.respond in Hresp.
    destruct (Resolver.resolveVariables fuel clock (content snippet)
                (getExpansionContext clipboardText pg));
      inversion Hresp; now subst. }
  pose proof (token_threshold (resolved resp)) as Ht. rewrite <- Htok in Ht.
  destruct (100 <? tokens resp) eqn:E.
  - split; [intros _; now apply Ht|]. intros _ Heq.
    apply (f_equal (@List.length _)) in Heq.
    rewrite length_app in Heq. simpl in Heq. lia.
  - split; [intros H; now destruct H|].
    intros H400. apply Ht in H400. congruence.
Qed.

Lemma expansion_on_text_control_witness :
  exists pg0 pg1 f',
    onCommitKey 1 page_hello_space
    = (Ok (Some {| pend_element := 1; pend_trigger := "hello";
                   pend_start := Num 4; pend_end := Num 10 |}), pg0) /\
    expandSnippet_resume 1 "hello" (Num 4) (Num 10)
      (Resolves (Some {| resolved := "Hi example.com!"; tokens := 4 |})) 7 pg0
    = (Ok tt, pg1) /\
    elements pg1 = <[1 := Field f']> (elements page_hello_space) /\
    value f'
    = take 4 "say :hello "
      +:+ applyTemplateWrapping (templates page_hello_space) "Hi example.com!"
      +:+ drop 10 "say :hello " /\
    selectionStart f'
    = 4 + len (applyTemplateWrapping (templates page_hello_space)
                                     "Hi example.com!") /\
    selectionEnd f' = selectionStart f' /\
    (exists record,
        expansionHistory pg1 = record :: expansionHistory page_hello_space /\
        originalText record = "say :hello " /\
        trigger record = "hello" /\
        exp_element record = 1) /\
    isProcessing pg1 = false /\
    usageMessages pg1
    = usageMessages page_hello_space ++ [("hello", "example.com")] /\
    preventedKeys pg1 = preventedKeys page_hello_space ++ [1] /\
    (notifications pg1 <> notifications page_hello_space <->
     400 < len "Hi example.com!").
Proof.
  apply (expansion_on_text_control page_hello_space 1
           {| value := "say :hello "; field_textContent := "";
              selectionStart := 10; selectionEnd := 10 |}
           "hello" 4 10
           {| content := "Hi {{domain}}!"; description := "greeting" |}
           None Resolver.maxIterations clock0
           {| resolved := "Hi example.com!"; tokens := 4 |} 7).
  - reflexivity.
  - reflexivity.
  - simpl. lia.
  - reflexivity.
  - discriminate.
  - reflexivity.
  - reflexivity.
Defined.

(** X19. The trigger [form] on a text control: the commit key removes the
    trigger from the text, opens the form modal and prevents the default,
    and pushes no expansion record, so an undo does not bring the trigger
    back. *)
Theorem form_trigger_is_removed_without_record
    (pg : page) (id : nat) (f : field) (triggerStart cursorPos : nat) :
  elements pg !! id = Some (Field f) ->
  Scanner.scan (triggerPrefix pg) (text_of (Field f)) (Num (selectionStart f))
  = Some ("form", Num triggerStart, Num cursorPos) ->
  exists pg1 f',
    handleTriggerKey id pg = (Ok None, pg1) /\
    elements pg1 = <[id := Field f']> (elements pg) /\
    value f' = take triggerStart (value f) +:+ drop cursorPos (value f) /\
    expansionHistory pg1 = expansionHistory pg /\
    isProcessing pg1 = isProcessing pg /\
    formModals pg1 = formModals pg ++ [id] /\
    inputEvents pg1 = inputEvents pg ++ [id] /\
    preventedKeys pg1 = preventedKeys pg ++ [id].
Proof.
  intros Hel Hscan. unfold handleTriggerKey, replaceText. run_script.
  rewrite Hel. cbn beta iota. cbn [cursor_of]. rewrite Hscan.
  rewrite Strings.String.eqb_refl. page_simpl.
  rewrite Hel. page_simpl.
  eexists _, (replaceText_field f (Num triggerStart) (Num cursorPos) "").
  split; [reflexivity|]. page_simpl. split; [reflexivity|].
  split; [apply value_replaceText_field|]. repeat split.
Qed.

Lemma form_trigger_is_removed_without_record_witness :
  exists pg1 f',
    handleTriggerKey 1 page_form_trigger = (Ok None, pg1) /\
    elements pg1 = <[1 := Field f']> (elements page_form_trigger) /\
    value f' = take 5 "note :form" +:+ drop 10 "note :form" /\
    expansionHistory pg1 = expansionHistory page_form_trigger /\
    isProcessing pg1 = isProcessing page_form_trigger /\
    formModals pg1 = formModals page_form_trigger ++ [1] /\
    inputEvents pg1 = inputEvents page_form_trigger ++ [1] /\
    preventedKeys pg1 = preventedKeys page_form_trigger ++ [1].
Proof.
  apply (form_trigger_is_removed_without_record page_form_trigger 1
           {| value := "note :form"; field_textContent := "";
              selectionStart := 10; selectionEnd := 10 |} 5 10).
  - reflexivity.
  - reflexivity.
Defined.

(** X20. An expansion never changes the text of an editable region: the
    region has no [selectionStart], so the handler of the commit key reads
    the whole text as the text before the cursor and passes on offsets that
    are no numbers, with which [replaceText] finds no text node; the
    expansion record is pushed all the same. *)
Theorem editable_region_is_never_changed_by_commit
    (pg : page) (id : nat) (e : editable) :
  elements pg !! id = Some (Editable e) ->
  elements (snd (handleTriggerKey id pg)) = elements pg /\
  (forall p pg0,
      handleTriggerKey id pg = (Ok (Some p), pg0) ->
      pend_start p = NaN /\ pend_end p = Undefined) /\
  (forall triggerName resp now,
      exists pg1 record,
        expandSnippet_resume id triggerName NaN Undefined
                             (Resolves (Some resp)) now pg = (Ok tt, pg1) /\
        elements pg1 = elements pg /\
        expansionHistory pg1 = record :: expansionHistory pg /\
        originalText record = textContent e).
Proof.
  intros Hel.
  assert (I : <[id := Editable e]> (elements pg) = elements pg)
    by now apply insert_id.
  split; [|split].
  - unfold handleTriggerKey, replaceText, expandSnippet_begin. run_script.
    rewrite Hel. cbn beta iota.
    destruct (Scanner.scan (triggerPrefix pg) (text_of (Editable e))
                           (cursor_of (Editable e)))
      as [[[triggerName triggerStart] cursorPos]|] eqn:Hscan; [|reflexivity].
    assert (triggerStart = NaN).
    { unfold Scanner.scan in Hscan. cbn [cursor_of] in Hscan.
      destruct (Scanner.triggerMatch _ _) as [[m0 body]|]; [|discriminate].
      now inversion Hscan. }
    subst triggerStart.
    destruct (Strings.String.eqb triggerName "form"); page_simpl.
    + rewrite Hel. page_simpl.
      rewrite replaceText_editable_not_a_number,
        findTextNode_not_a_number. page_simpl. exact I.
    + destruct (js_get (snippets pg) triggerName) eqn:E; page_simpl;
        rewrite ?E; reflexivity.
  - intros p pg0. unfold handleTriggerKey, replaceText, expandSnippet_begin.
    run_script. rewrite Hel. cbn beta iota.
    unfold Scanner.scan. cbn [cursor_of].
    destruct (Scanner.triggerMatch _ _) as [[m0 body]|]; [|discriminate].
    cbn [pos_sub].
    destruct (Strings.String.eqb body "form"); page_simpl.
    + rewrite Hel. page_simpl.
      rewrite replaceText_editable_not_a_number,
        findTextNode_not_a_number. page_simpl. discriminate.
    + destruct (js_get (snippets pg) body) eqn:E; page_simpl;
        intros H; inversion H; subst; now cbn.
  - intros triggerName resp now.
    unfold expandSnippet_resume, replaceText. run_script.
    rewrite Hel. page_simpl. rewrite Hel. page_simpl.
    rewrite replaceText_editable_not_a_number,
      findTextNode_not_a_number. page_simpl.
    destruct (100 <? tokens resp); page_simpl;
      (eexists _, _; split; [reflexivity|]); page_simpl; rewrite I;
      repeat split.
Qed.

Lemma editable_region_is_never_changed_by_commit_witness :
  elements (snd (handleTriggerKey 2 page_editable)) = elements page_editable /\
  (forall p pg0,
      handleTriggerKey 2 page_editable = (Ok (Some p), pg0) ->
      pend_start p = NaN /\ pend_end p = Undefined) /\
  (forall triggerName resp now,
      exists pg1 record,
        expandSnippet_resume 2 triggerName NaN Undefined
                             (Resolves (Some resp)) now page_editable
        = (Ok tt, pg1) /\
        elements pg1 = elements page_editable /\
        expansionHistory pg1 = record :: expansionHistory page_editable /\
        originalText record
        = textContent {| root := Element [Text "hello :sn"];
                         sel := SelText 0 9 9 |}).
Proof.
  apply (editable_region_is_never_changed_by_commit page_editable 2
           {| root := Element [Text "hello :sn"]; sel := SelText 0 9 9 |}).
  reflexivity.
Defined.

(** [undoLastExpansion] with a record in the history, on either kind of
    element. *)
Lemma undo_with_record
    (pg : page) (record : expansion) (rest : list expansion) (el : element) :
  expansionHistory pg = record :: rest ->
  elements pg !! exp_element record = Some el ->
  undoLastExpansion pg =
  (Ok tt,
   with_notifications
     (notifications pg ++ [("Undid expansion of :" +:+ trigger record,
                            "success")])
     (with_elements
        (<[exp_element record :=
             match el with
             | Field f =>
                 Field (set_cursor (set_value f (originalText record))
                                   (Controller.endPos record))
             | Editable e =>
                 Editable (set_textContent e (originalText record))
             end]> (elements pg))
        (with_history rest pg))).
Proof.
  intros Hh Hel. unfold undoLastExpansion. run_script. rewrite Hh.
  page_simpl. rewrite Hel. now destruct el.
Qed.

Lemma value_set_cursor (f : field) (x : position) :
  value (set_cursor f x) = value f.
Proof.
  unfold set_cursor, set_selectionStart, set_selectionEnd,
    set_selection_range.
  destruct x; cbn; repeat match goal with
                          | |- context [if ?b then _ else _] => destruct b
                          end; reflexivity.
Qed.

(** X22. The undo takes the most recent record off the history and sets
    the text of the element of that record, and of no other element, to the
    text the record holds; it reports the trigger it undid and leaves the
    guard and the older records alone. *)
Theorem undo_restores_only_the_last_element
    (pg : page) (record : expansion) (rest : list expansion) (el : element) :
  expansionHistory pg = record :: rest ->
  elements pg !! exp_element record = Some el ->
  exists pg2 el',
    undoLastExpansion pg = (Ok tt, pg2) /\
    expansionHistory pg2 = rest /\
    elements pg2 !! exp_element record = Some el' /\
    match el, el' with
    | Field _, Field f' => value f' = originalText record
    | Editable _, Editable e' => textContent e' = originalText record
    | _, _ => False
    end /\
    (forall id', id' <> exp_element record ->
                 elements pg2 !! id' = elements pg !! id') /\
    notifications pg2
    = notifications pg ++ [("Undid expansion of :" +:+ trigger record,
                            "success")] /\
    isProcessing pg2 = isProcessing pg /\
    preventedKeys pg2 = preventedKeys pg.
Proof.
  intros Hh Hel. rewrite (undo_with_record pg record rest el Hh Hel).
  eexists _, _. split; [reflexivity|]. page_simpl.
  split; [reflexivity|]. split; [apply lookup_insert_eq|].
  split.
  - destruct el as [f|e].
    + now rewrite value_set_cursor, value_set_value.
    + apply textContent_set_textContent.
  - split; [|repeat split].
    intros id' Hne. now apply lookup_insert_ne.
Qed.

Lemma undo_restores_only_the_last_element_witness :
  exists pg2 el',
    undoLastExpansion page_after_expansion = (Ok tt, pg2) /\
    expansionHistory pg2 = [] /\
    elements pg2 !! 2 = Some el' /\
    match el' with
    | Field f' => value f' = "say :hello"
    | Editable _ => False
    end /\
    (forall id', id' <> 2 ->
                 elements pg2 !! id' = elements page_after_expansion !! id') /\
    notifications pg2
    = notifications page_after_expansion
      ++ [("Undid expansion of :hello", "success")] /\
    isProcessing pg2 = isProcessing page_after_expansion /\
    preventedKeys pg2 = preventedKeys page_after_expansion.
Proof.
  apply (undo_restores_only_the_last_element page_after_expansion
           {| exp_element := 2; originalText := "say :hello";
              trigger := "hello"; startPos := Num 4; endPos := Num 10;
              expandedContent := "Hi example.com!"; timestamp := 7 |}
           []
           (Field {| value := "say Hi example.com!"; field_textContent := "";
                     selectionStart := 19; selectionEnd := 19 |})).
  - reflexivity.
  - reflexivity.
Defined.

(** X23. The undo key acts on the element of the last record, not on the
    element that has the focus: pressed in any element that is processed it
    restores the element of the record, takes the record off, leaves every
    other element alone and prevents the default of the key in the focused
    element. *)
Theorem undo_key_acts_on_the_recorded_element
    (pg : page) (id : nat) (record : expansion) (rest : list expansion)
    (el : element) :
  shouldProcessElement id pg = true ->
  expansionHistory pg = record :: rest ->
  elements pg !! exp_element record = Some el ->
  exists pg2 el',
    onUndoKey id pg = (Ok tt, pg2) /\
    expansionHistory pg2 = rest /\
    preventedKeys pg2 = preventedKeys pg ++ [id] /\
    (forall id', id' <> exp_element record ->
                 elements pg2 !! id' = elements pg !! id') /\
    elements pg2 !! exp_element record = Some el' /\
    (originalText record <> "" -> text_of el' = originalText record).
Proof.
  intros Hok Hh Hel.
  pose proof (undo_with_record pg record rest el Hh Hel) as Hu.
  unfold onUndoKey. run_script. rewrite Hok, Hu. page_simpl.
  eexists _, _. split; [reflexivity|]. page_simpl.
  split; [reflexivity|]. split; [reflexivity|].
  split; [intros id' Hne; now apply lookup_insert_ne|].
  split; [apply lookup_insert_eq|].
  destruct el as [f|e]; cbn [text_of].
  - rewrite value_set_cursor, value_set_value.
    destruct (originalText record); [congruence | reflexivity].
  - rewrite textContent_set_textContent.
    destruct (originalText record); reflexivity.
Qed.

Lemma undo_key_acts_on_the_recorded_element_witness :
  exists pg2 el',
    onUndoKey 1 page_after_expansion = (Ok tt, pg2) /\
    expansionHistory pg2 = [] /\
    preventedKeys pg2 = preventedKeys page_after_expansion ++ [1] /\
    (forall id', id' <> 2 ->
                 elements pg2 !! id' = elements page_after_expansion !! id') /\
    elements pg2 !! 2 = Some el' /\
    ("say :hello" <> "" -> text_of el' = "say :hello").
Proof.
  apply (undo_key_acts_on_the_recorded_element page_after_expansion 1
           {| exp_element := 2; originalText := "say :hello";
              trigger := "hello"; startPos := Num 4; endPos := Num 10;
              expandedContent := "Hi example.com!"; timestamp := 7 |}
           []
           (Field {| value := "say Hi example.com!"; field_textContent := "";
                     selectionStart := 19; selectionEnd := 19 |})).
  - reflexivity.
  - reflexivity.
  - reflexivity.
Defined.

(** X24. With no expansion to undo the undo key still prevents the
    default in every element that is processed, and only notifies: the undo
    of the browser itself does not run. *)
Theorem undo_key_without_record_prevents_default (pg : page) (id : nat) :
  shouldProcessElement id pg = true ->
  expansionHistory pg = [] ->
  onUndoKey id pg =
  (Ok tt,
   with_preventedKeys (preventedKeys pg ++ [id])
     (with_notifications
        (notifications pg ++ [("No expansions to undo", "info")]) pg)).
Proof.
  intros Hok Hh. unfold onUndoKey, undoLastExpansion. run_script.
  now rewrite Hok, Hh.
Qed.

Lemma undo_key_without_record_prevents_default_witness :
  onUndoKey 1 page_textarea =
  (Ok tt,
   with_preventedKeys (preventedKeys page_textarea ++ [1])
     (with_notifications
        (notifications page_textarea ++ [("No expansions to undo", "info")])
        page_textarea)).
Proof.
  apply (undo_key_without_record_prevents_default page_textarea 1).
  - reflexivity.
  - reflexivity.
Defined.

Lemma expandSnippet_return_releases_guard_witness :
  isProcessing
    (snd (expandSnippet 1 "hello" (Num 4) (Num 10)
            (Resolves (Some response_X)) 7 page_textarea)) = false.
Proof.
  apply (expandSnippet_return_releases_guard page_textarea
           (snd (expandSnippet 1 "hello" (Num 4) (Num 10)
                   (Resolves (Some response_X)) 7 page_textarea))
           1 "hello" (Num 4) (Num 10) (Resolves (Some response_X)) 7).
  reflexivity.
Defined.

Lemma field_splice_undo_round_trip_witness :
  exists pg1 pg2 f',
    expandSnippet_resume 1 "hello" (Num 4) (Num 10)
                         (Resolves (Some response_X)) 7 page_textarea
    = (Ok tt, pg1) /\
    undoLastExpansion pg1 = (Ok tt, pg2) /\
    elements pg2 !! 1 = Some (Field f') /\
    text_of (Field f')
    = text_of (Field {| value := "say :hello"; field_textContent := "";
                        selectionStart := 10; selectionEnd := 10 |}) /\
    selectionStart f' = 10 /\
    selectionEnd f' = 10 /\
    expansionHistory pg2 = expansionHistory page_textarea.
Proof.
  apply (field_splice_undo_round_trip page_textarea 1
           {| value := "say :hello"; field_textContent := "";
              selectionStart := 10; selectionEnd := 10 |}
           "hello" 4 10 response_X 7).
  - reflexivity.
  - simpl. lia.
Defined.

(** X26. A falsy response to the resolution request ends the expansion
    with nothing done: whatever the lookup of the trigger finds, the text,
    the history and all the traces are as before and the guard is
    released, so the trigger stays in the text although the default of the
    commit key was prevented. *)
Theorem falsy_response_changes_nothing
    (pg : page) (id : nat) (triggerName : string)
    (startPos endPos : position) (now : nat) :
  js_get (snippets pg) triggerName <> Absent ->
  expandSnippet id triggerName startPos endPos (Resolves None) now pg
  = (Ok tt, with_isProcessing false pg).
Proof.
  intros H. unfold expandSnippet, expandSnippet_begin, expandSnippet_resume.
  run_script. page_simpl.
  destruct (js_get (snippets pg) triggerName); [reflexivity..|congruence].
Qed.

Lemma falsy_response_changes_nothing_witness :
  expandSnippet 1 "hello" (Num 4) (Num 10) (Resolves None) 7 page_textarea
  = (Ok tt, with_isProcessing false page_textarea).
Proof.
  apply (falsy_response_changes_nothing page_textarea 1 "hello"
           (Num 4) (Num 10) 7).
  discriminate.
Defined.

(** What the input listener leaves behind. *)
Lemma handleTextInput_run (pg : page) (id : nat) (element : element) :
  elements pg !! id = Some element ->
  handleTextInput id pg =
  match Scanner.triggerMatch (triggerPrefix pg)
          (Scanner.beforeCursor (text_of element) (cursor_of element)) with
  | Some (_, triggerName) =>
      if Strings.String.eqb triggerName "form"
      then (Ok None, with_formModals (formModals pg ++ [id]) pg)
      else if is_truthy (js_get (snippets pg) triggerName)
           then (Ok (Some id), pg) else (Ok None, pg)
  | None => (Ok None, pg)
  end.
Proof.
  intros Hel. unfold handleTextInput. run_script. rewrite Hel.
  cbn beta iota.
  destruct (Scanner.triggerMatch _ _) as [[m0 body]|]; [|reflexivity].
  destruct (Strings.String.eqb body "form"); [reflexivity|].
  page_simpl. now destruct (js_get (snippets pg) body).
Qed.

(** X27. Typing alone never expands: the input listener changes neither a
    text nor the history, the guard or the prevented keys, and sends
    nothing; it marks the element as current exactly when the text before
    the cursor ends with a trigger other than [form] to which the lookup of
    the snippets answers, and it opens the form modal exactly on the trigger
    [form], in which case the commit key that follows opens a second one. *)
Theorem typing_never_expands (pg : page) (id : nat) (element : element) :
  elements pg !! id = Some element ->
  let pg' := snd (handleTextInput id pg) in
  elements pg' = elements pg /\
  expansionHistory pg' = expansionHistory pg /\
  isProcessing pg' = isProcessing pg /\
  preventedKeys pg' = preventedKeys pg /\
  usageMessages pg' = usageMessages pg /\
  inputEvents pg' = inputEvents pg /\
  notifications pg' = notifications pg /\
  (fst (handleTextInput id pg) = Ok (Some id) <->
   exists triggerName triggerStart cursorPos,
     Scanner.scan (triggerPrefix pg) (text_of element) (cursor_of element)
     = Some (triggerName, triggerStart, cursorPos) /\
     triggerName <> "form" /\
     is_truthy (js_get (snippets pg) triggerName) = true) /\
  (formModals pg' <> formModals pg <->
   exists triggerStart cursorPos,
     Scanner.scan (triggerPrefix pg) (text_of element) (cursor_of element)
     = Some ("form", triggerStart, cursorPos)) /\
  (formModals pg' <> formModals pg ->
   formModals (snd (handleTriggerKey id pg'))
   = formModals pg ++ [id; id]).
Proof.
  intros Hel pg'. subst pg'.
  rewrite (handleTextInput_run pg id element Hel).
  unfold handleTriggerKey, replaceText. run_script. unfold Scanner.scan.
  destruct (Scanner.triggerMatch (triggerPrefix pg)
              (Scanner.beforeCursor (text_of element) (cursor_of element)))
    as [[m0 body]|] eqn:Hm.
  - destruct (Strings.String.eqb body "form") eqn:Hf.
    + apply Strings.String.eqb_eq in Hf. subst body. page_simpl.
      rewrite Hel. page_simpl. rewrite Hm. page_simpl.
      repeat split; try discriminate.
      * intros (n & s0 & c & H & Hn & _). inversion H; congruence.
      * intros _. now eexists _, _.
      * intros _ E. symmetry in E.
        rewrite <- (app_nil_r (formModals pg)) in E at 1.
        apply app_inv_head in E. discriminate.
      * intros _. rewrite Strings.String.eqb_refl. page_simpl.
        rewrite Hel. page_simpl.
        destruct element as [f|e]; page_simpl.
        -- now rewrite <- List.app_assoc.
        -- cbn [cursor_of pos_sub].
           rewrite replaceText_editable_not_a_number,
             findTextNode_not_a_number. page_simpl.
           now rewrite <- List.app_assoc.
    + assert (Hne : body <> "form") by now apply Strings.String.eqb_neq.
      destruct (is_truthy (js_get (snippets pg) body)) eqn:Ht; page_simpl;
        repeat split; try congruence.
      * intros _. now eexists _, _, _.
      * intros (s0 & c & H). inversion H; congruence.
      * intros (n & s0 & c & H & Hn & Hq). inversion H; subst.
        rewrite Ht in Hq. discriminate.
      * intros (s0 & c & H). inversion H; congruence.
  - page_simpl. repeat split; try congruence.
    + intros (n & s0 & c & H & _). discriminate.
    + intros (s0 & c & H). discriminate.
Qed.

Lemma typing_never_expands_witness :
  let pg' := snd (handleTextInput 1 page_form_trigger) in
  elements pg' = elements page_form_trigger /\
  expansionHistory pg' = expansionHistory page_form_trigger /\
  isProcessing pg' = isProcessing page_form_trigger /\
  preventedKeys pg' = preventedKeys page_form_trigger /\
  usageMessages pg' = usageMessages page_form_trigger /\
  inputEvents pg' = inputEvents page_form_trigger /\
  notifications pg' = notifications page_form_trigger /\
  (fst (handleTextInput 1 page_form_trigger) = Ok (Some 1) <->
   exists triggerName triggerStart cursorPos,
     Scanner.scan (triggerPrefix page_form_trigger) "note :form" (Num 10)
     = Some (triggerName, triggerStart, cursorPos) /\
     triggerName <> "form" /\
     is_truthy (js_get (snippets page_form_trigger) triggerName) = true) /\
  (formModals pg' <> formModals page_form_trigger <->
   exists triggerStart cursorPos,
     Scanner.scan (triggerPrefix page_form_trigger) "note :form" (Num 10)
     = Some ("form", triggerStart, cursorPos)) /\
  (formModals pg' <> formModals page_form_trigger ->
   formModals (snd (handleTriggerKey 1 pg'))
   = formModals page_form_trigger ++ [1; 1]).
Proof.
  apply (typing_never_expands page_form_trigger 1
           (Field {| value := "note :form"; field_textContent := "";
                     selectionStart := 10; selectionEnd := 10 |})).
  reflexivity.
Defined.

End ControllerMore.

(** ** The form builder *)

Module FormFacts.
Import JsString StringFacts Resolver FormBuilder.

Lemma collect_marks_valid (fields : list (form_field * option control)) :
  forall formData isValid marks formData' isValid' marks',
    collect fields formData isValid marks = Some (formData', isValid', marks') ->
    isValid' =
    isValid && forallb (fun p => match collected p with
                                 | Some value => negb (is_empty value)
                                 | None => false
                                 end) fields.
Proof.
  induction fields as [|[field [element|]] fields IH];
    intros formData isValid marks formData' isValid' marks' H;
    cbn [collect] in H.
  - inversion H; subst. cbn. now rewrite andb_true_r.
  - apply IH in H. rewrite H. cbn [forallb collected snd fst].
    now rewrite andb_assoc.
  - discriminate.
Qed.

Lemma collect_is_Some (fields : list (form_field * option control)) :
  forall formData isValid marks,
    Forall (fun p => is_Some (snd p)) fields ->
    is_Some (collect fields formData isValid marks).
Proof.
  induction fields as [|[field [element|]] fields IH];
    intros formData isValid marks H; inversion H; subst; cbn [collect].
  - now eexists.
  - now apply IH.
  - cbn in *. destruct H2 as [x Hx]. discriminate.
Qed.

Lemma collect_None (fields : list (form_field * option control)) :
  forall formData isValid marks,
    collect fields formData isValid marks = None <->
    Exists (fun p => snd p = None) fields.
Proof.
  induction fields as [|[field [element|]] fields IH];
    intros formData isValid marks; cbn [collect].
  - split; [discriminate | intros H; inversion H].
  - rewrite IH. split; [now constructor 2|].
    intros H; inversion H; subst; [discriminate | assumption].
  - split; [now constructor 1 | reflexivity].
Qed.

(** The value of the select is empty, that of a check box never is. *)
Lemma select_value_empty (field : form_field) :
  field_type_of field = Select -> field_value field EmptySelect = "".
Proof. unfold field_value. now intros ->. Qed.

Lemma checkbox_value_not_empty (field : form_field) (element : control) :
  field_type_of field = CheckBox -> field_value field element <> "".
Proof.
  unfold field_value. intros ->. now destruct (control_checked element).
Qed.

(** X28. The handler of [Generate] hands a text on exactly when there is
    a field, every element is found and no collected value is empty. A
    check box never stands in the way; a field of the type [select], whose
    element has the single option of the empty value, always does: a form
    with a dropdown field is never generated. *)
Theorem dropdown_field_blocks_generation
    (fields : list (form_field * option control)) :
  ((exists output, generate fields = Inserted output) <->
   fields <> [] /\
   Forall (fun p => exists value, collected p = Some value /\ value <> "")
          fields) /\
  (forall field,
      field_type_of field = Select ->
      In (field, Some EmptySelect) fields ->
      forall output, generate fields <> Inserted output) /\
  (forall field element,
      field_type_of field = CheckBox ->
      exists value,
        collected (field, Some element) = Some value /\ value <> "").
Proof.
  assert (Main : (exists output, generate fields = Inserted output) <->
                 fields <> [] /\
                 Forall (fun p => exists value,
                             collected p = Some value /\ value <> "") fields).
  { unfold generate. destruct fields as [|p fields].
    { split; [intros [o H]; discriminate | intros [H _]; congruence]. }
    cbv beta iota. set (all := p :: fields).
    destruct (collect all [] true []) as [[[formData isValid] marks]|] eqn:E.
    - pose proof (collect_marks_valid all _ _ _ _ _ _ E) as V.
      cbn [andb] in V. split.
      + intros [o H]. destruct isValid; [|discriminate].
        split; [discriminate|]. symmetry in V.
        rewrite forallb_forall in V. apply List.Forall_forall.
        intros q Hq. specialize (V q Hq).
        destruct (collected q) as [value|]; [|discriminate].
        exists value. split; [reflexivity|].
        apply is_empty_false. now apply negb_true_iff.
      + intros [_ H]. assert (Hv : isValid = true).
        { rewrite V. apply forallb_forall. intros q Hq.
          rewrite List.Forall_forall in H.
          destruct (H q Hq) as (value & -> & Hne).
          apply negb_true_iff. now apply is_empty_false. }
        rewrite Hv. eexists. reflexivity.
    - split; [intros [o H]; discriminate|]. intros [_ H].
      apply collect_None in E. exfalso.
      apply List.Exists_exists in E as (q & Hq & Hn).
      rewrite List.Forall_forall in H.
      destruct (H q Hq) as (value & Hc & _). unfold collected in Hc.
      now rewrite Hn in Hc. }
  split; [exact Main|]. split.
  - intros field Hty Hin output H.
    assert (Hex : exists o, generate fields = Inserted o) by now exists output.
    apply Main in Hex as [_ Hall]. rewrite List.Forall_forall in Hall.
    destruct (Hall _ Hin) as (value & Hc & Hne).
    unfold collected in Hc. cbn [snd fst] in Hc.
    rewrite (select_value_empty field Hty) in Hc. congruence.
  - intros field element Hty. eexists. split; [reflexivity|].
    now apply checkbox_value_not_empty.
Qed.




(** The entry of a field in the data. *)
Abbreviation entry_of p :=
  (form_key (field_label (fst p)),
   VStr (match collected p with Some value => value | None => "" end)).




(** X30. Two labels that differ only in the case of their letters or in
    their white space give one key: of two such fields the text handed on
    has a single line, with the value of the second. *)
Theorem fields_of_one_key_share_a_line
    (first second : form_field) (element1 element2 : control) :
  form_key (field_label first) = form_key (field_label second) ->
  form_key (field_label second) <> "__proto__" ->
  field_value first element1 <> "" ->
  field_value second element2 <> "" ->
  generate [(first, Some element1); (second, Some element2)]
  = Inserted (line_of (second, Some element2)).
Proof.
  intros Hk Hp H1 H2. unfold generate. cbn [collect]. rewrite Hk.
  unfold form_set. apply Strings.String.eqb_neq in Hp. rewrite Hp.
  cbn [obj_set]. rewrite Strings.String.eqb_refl.
  apply is_empty_false in H1, H2. rewrite H1, H2. cbn [andb negb].
  unfold own_entries. cbn [List.filter fst].
  unfold line_of, collected. cbn [fst snd].
  destruct (is_array_index (form_key (field_label second)));
    cbn [negb fold_right insert_index app fold_left];
    reflexivity.
Qed.

Lemma fields_of_one_key_share_a_line_witness :
  generate [(first_name, Some (TextBox "Ada"));
            (first_name_again, Some (TextBox "Grace"))]
  = Inserted (line_of (first_name_again, Some (TextBox "Grace"))).
Proof.
  apply (fields_of_one_key_share_a_line first_name first_name_again
           (TextBox "Ada") (TextBox "Grace")).
  - reflexivity.
  - discriminate.
  - discriminate.
  - discriminate.
Defined.

End FormFacts.
